(** * spade: batching, globbing, fan-out, event metadata and the Redshift
    transformer, embedded from the Go sources.

  Each Go package is a [Module] of the same name.  Go values are embedded
  as follows.

  - [int], [int64], [time.Duration]: [Z].  The sizes handled here are byte
    counts of in-memory buffers, far below 2^63, so no wrap-around is
    written out.
  - [[]byte]: [list byte]; [string]: [string], a sequence of bytes; where
    Go reads runes from it ([%q], [strings.TrimSpace]) the UTF-8 decoding
    is written out.
  - a panic: the second constructor of [transformer.outcome].
  - [error]: [option error] with [None] for [nil]; the sentinel values and
    error types the sources compare against are the constructors of
    [error].
  - [map[string]T]: [gmap string T].
  - mutable receivers ([*Batcher], [*Globber], the caches behind the
    mapping transformer): explicit state passing.  Calls of a callback
    (the completor) are recorded in the state, in call order. *)

From Stdlib Require Import ZArith String Ascii List Lia Bool.
From Stdlib Require Import Strings.Byte.
From Stdlib Require Import Permutation.
From Stdlib Require Import Floats.SpecFloat Numbers.DecimalString.
From stdpp Require Import gmap strings list fin_maps.
Import ListNotations.

Local Open Scope Z_scope.

(** ** Errors *)

(** The values of Go's [error] interface that the sources create or compare
  against.  [ErrorString] is the dynamic type behind [errors.New] and
  [fmt.Errorf]; the other constructors are the package-level sentinels
  ([lookup.ErrTooManyRequests], [ErrIDSet], ...) and the struct error types
  ([ErrNotTracked], [ErrSkippedColumn], [ErrInvalidMetadataType]) with their
  [What] field, and the errors of package memcache that [recordCacheError]
  tells apart.  [Errorf format cause] is [fmt.Errorf(format, cause)] for a
  format with a single [%s].

  Modelled from the spec: [ErrEmptyRequest], [ErrNotTracked],
  [ErrSkippedColumn] and [ErrInvalidMetadataType] are declared in a file of
  package transformer that is not among the sources.  The sources use the
  last three as struct types with a [What] field; [ErrEmptyRequest] is a
  value that is none of them, since an empty event name is reported as
  [EmptyRequest]. *)
Inductive error : Type :=
| ErrorString (msg : string)
| ErrTooManyRequests
| ErrExtractingValue
| ErrUnknownTransform
| ErrColumnNotFound
| ErrIDSet
| ErrBadLookupValue
| ErrEmptyLookupValue
| ErrLocalCacheHit
| ErrRemoteCacheHit
| ErrFetchSuccess
| ErrFetchFailure
| ErrCacheSetFailure
| ErrEmptyRequest
| ErrNotTracked (What : string)
| ErrSkippedColumn (What : string)
| ErrInvalidMetadataType (What : string)
| ErrCacheMiss
| ErrMalformedKey
| ConnectTimeoutError
| Errorf (format : string) (cause : error).

#[global] Instance error_eq_dec : EqDecision error.
Proof. solve_decision. Defined.

(** [nil] or an error. *)
Abbreviation goerror := (option error).

(** ** Package batcher *)

Module batcher.

Record Config : Type := {
  MaxSize : Z;
  MaxAge : string;
  BufferLength : Z
}.

Section Validate.

(** [time.ParseDuration] of the standard library: a duration in
    nanoseconds, or an error. *)
Variable ParseDuration : string -> Z + error.

Definition Validate (c : Config) : goerror :=
  match ParseDuration (MaxAge c) with
  | inr err => Some err
  | inl maxAge =>
      if maxAge <=? 0 then
        Some (ErrorString "MaxAge must be a positive value")
      else if MaxSize c <=? 0 then
        Some (ErrorString "MaxSize must be a positive value")
      else if BufferLength c =? 0 then
        Some (ErrorString "BufferLength must be a positive value")
      else None
  end.

End Validate.

(** The fields of [Batcher] that [add] and [complete] touch, and
    [completed]: the arguments of the calls [b.completor(b.pending)] so
    far, oldest first. *)
Record Batcher : Type := {
  config : Config;
  pending : list (list byte);
  pendingSize : Z;
  completed : list (list (list byte))
}.

Definition New (c : Config) : Batcher :=
  {| config := c; pending := []; pendingSize := 0; completed := [] |}.

Definition complete (b : Batcher) : Batcher :=
  match pending b with
  | [] => b
  | _ :: _ =>
      {| config := config b;
         pending := [];
         pendingSize := 0;
         completed := completed b ++ [pending b] |}
  end.

Definition add (entry : list byte) (b : Batcher) : Batcher :=
  let s := Z.of_nat (length entry) + pendingSize b in
  let b := if MaxSize (config b) <? s then complete b else b in
  (* b.timer.Reset(b.maxAge) when the batch is empty: the timer is an
     input of [worker] *)
  {| config := config b;
     pending := pending b ++ [entry];
     pendingSize := pendingSize b + Z.of_nat (length entry);
     completed := completed b |}.

(** What the [select] of [worker] can receive before the channel is
    closed: a submitted entry, or an expiry of the timer. *)
Inductive Msg : Type :=
  | Incoming (e : list byte)
  | TimerC.

Definition step (b : Batcher) (m : Msg) : Batcher :=
  match m with
  | TimerC => complete b
  | Incoming e => add e b
  end.

(** [worker] on the messages received until [Close] closes the channel;
    the deferred [b.complete()] runs last. *)
Definition worker (b : Batcher) (msgs : list Msg) : Batcher :=
  complete (fold_left step msgs b).

End batcher.

(** ** Package globber *)

Module globber.

Definition prefix : byte := "["%byte.
Definition separator : byte := ","%byte.
Definition postfix : byte := "]"%byte.
Definition version : byte := x01.

(** [scoop_protocol.GlobberConfig]: the fields the globber reads. *)
Record GlobberConfig : Type := {
  MaxSize : Z;
  MaxAge : string;
  BufferLength : Z
}.

(** [pending] is the contents of the [bytes.Buffer]; [completed] holds the
    arguments of the calls [g.completor(compressed.Bytes())] so far, oldest
    first.  The compressor is created on first use and [Reset] before every
    later glob, so every glob is compressed as a fresh stream and the field
    carries no state from one glob to the next. *)
Record Globber : Type := {
  config : GlobberConfig;
  pending : list byte;
  completed : list (list byte)
}.

Definition New (c : GlobberConfig) : Globber :=
  {| config := c; pending := []; completed := [] |}.

Section Worker.

(** [compress/flate] at [flate.BestSpeed] writing into a [bytes.Buffer]:
    the deflate stream that [NewWriter]/[Reset], [Write] and [Close] leave
    behind the version byte, or the error one of them returned. *)
Variable flate_Write : list byte -> list byte + error.

Definition _complete (g : Globber) : goerror * Globber :=
  match flate_Write (pending g) with
  | inr err => (Some err, g)
  | inl deflated =>
      (None,
       {| config := config g;
          pending := [];
          completed := completed g ++ [version :: deflated] |})
  end.

Definition complete (g : Globber) : goerror * Globber :=
  match pending g with
  | [] => (None, g)
  | _ :: _ =>
      let g :=
        {| config := config g;
           pending := pending g ++ [postfix];
           completed := completed g |} in
      match _complete g with
      | (Some err, g) => (Some (Errorf "error compressing glob: %s" err), g)
      | (None, g) => (None, g)
      end
  end.

(** The part of [add] that follows the size test: the prefix or the
    separator, then the entry. *)
Definition write (entry : list byte) (g : Globber) : Globber :=
  let opened :=
    match pending g with
    | [] => [prefix]        (* and g.timer.Reset(g.maxAge) *)
    | _ :: _ => pending g ++ [separator]
    end in
  {| config := config g;
     pending := opened ++ entry;
     completed := completed g |}.

Definition add (entry : list byte) (g : Globber) : goerror * Globber :=
  let s := Z.of_nat (length entry) + Z.of_nat (length (pending g)) in
  if MaxSize (config g) <? s then
    match complete g with
    | (Some err, g) => (Some (Errorf "error completing glob: %s" err), g)
    | (None, g) => (None, write entry g)
    end
  else (None, write entry g).

(** What the [select] of [worker] can receive before the channel is
    closed. *)
Inductive Msg : Type :=
| Incoming (e : list byte)
| TimerC.

(** One iteration of the loop; the error is logged and dropped. *)
Definition step (g : Globber) (m : Msg) : Globber :=
  match m with
  | TimerC => snd (complete g)
  | Incoming e => snd (add e g)
  end.

(** [worker] on the messages received until [Close] closes the channel; the
    deferred [g.complete()] runs last. *)
Definition worker (g : Globber) (msgs : list Msg) : Globber :=
  snd (complete (fold_left step msgs g)).

End Worker.

End globber.

(** ** Package reporter *)

Module reporter.

(** Modelled from the spec: the failure kinds of package reporter, whose
    declaration is not among the sources. *)
Inductive FailMode : Type :=
| None
| SkippedColumn
| NonTrackingEvent
| EmptyRequest
| UnableToParseData
| PanickedInProcessing.

End reporter.

(** ** Go's float64

    A float64 is a [spec_float] at precision 53; arithmetic and comparisons
    are those of [SpecFloat], which round to nearest even as the hardware
    does. *)

Module float64.

Definition prec : Z := 53.
Definition emax : Z := 1024.

Definition sub : spec_float -> spec_float -> spec_float := SFsub prec emax.
Definition mul : spec_float -> spec_float -> spec_float := SFmul prec emax.
Definition ltb : spec_float -> spec_float -> bool := SFltb.

(** The conversion [float64(z)] of an integer. *)
Definition of_Z (z : Z) : spec_float := binary_normalize prec emax z 0 false.

(** [math.Trunc]: the integer part, towards zero; zeros, infinities and NaN
    are returned as they are. *)
Definition Trunc (f : spec_float) : spec_float :=
  match f with
  | S754_finite s m e =>
      if 0 <=? e then f
      else
        let q := Z.shiftr (Zpos m) (- e) in
        binary_normalize prec emax (if s then - q else q) 0 s
  | _ => f
  end.

(** The conversion [int64(f)] of a finite float whose integer part fits;
    Go leaves the other cases to the implementation. *)
Definition to_int64 (f : spec_float) : Z :=
  match f with
  | S754_finite s m e =>
      let v := if 0 <=? e then Z.shiftl (Zpos m) e
               else Z.shiftr (Zpos m) (- e) in
      if s then - v else v
  | _ => 0
  end.

(** The float64 nearest to [num / den] (ties to even), for [0 <= num] and
    [0 < den]: the quotient is computed to more than 64 bits, a sticky bit
    records a remainder, and [binary_normalize] rounds. *)
Definition of_ratio (neg : bool) (num den : Z) : spec_float :=
  if num =? 0 then S754_zero neg
  else
    let k := Z.max 0 (Z.log2 den + 66 - Z.log2 num) in
    let q := (num * 2 ^ k) / den in
    let sticky := if (num * 2 ^ k) mod den =? 0 then 0 else 1 in
    let m := 2 * q + sticky in
    binary_normalize prec emax (if neg then - m else m) (- k - 1) neg.

End float64.

(** ** Packages unicode/utf8 and unicode *)

Module utf8.

Definition RuneError : Z := 65533.
Definition RuneSelf : Z := 128.
Definition UTFMax : Z := 4.
Definition MaxRune : Z := 1114111.

(** The value of a byte of a Go string, and the byte of a value. *)
Definition byte_value (c : ascii) : Z := Z.of_nat (nat_of_ascii c).
Definition byte_of (n : Z) : ascii := ascii_of_nat (Z.to_nat n).

Definition between (lo hi : Z) (c : ascii) : bool :=
  (lo <=? byte_value c) && (byte_value c <=? hi).

(** The six low bits of a continuation byte. *)
Definition low6 (c : ascii) : Z := Z.land (byte_value c) 63.

(** [utf8.DecodeRuneInString]: the rune at the head of [s] and its width in
    bytes; [(RuneError, 1)] where the head is not a valid encoding (a stray
    continuation byte, an overlong form, a surrogate, a value above
    [MaxRune], a sequence cut short). *)
Definition DecodeRuneInString (s : string) : Z * nat :=
  match s with
  | EmptyString => (RuneError, 0%nat)
  | String c0 rest =>
      let b0 := byte_value c0 in
      if b0 <? RuneSelf then (b0, 1%nat)
      else if between 194 223 c0 then
        match rest with
        | String c1 _ =>
            if between 128 191 c1 then
              (Z.lor (Z.shiftl (Z.land b0 31) 6) (low6 c1), 2%nat)
            else (RuneError, 1%nat)
        | EmptyString => (RuneError, 1%nat)
        end
      else if between 224 239 c0 then
        let lo := if b0 =? 224 then 160 else 128 in
        let hi := if b0 =? 237 then 159 else 191 in
        match rest with
        | String c1 (String c2 _) =>
            if between lo hi c1 && between 128 191 c2 then
              (Z.lor (Z.lor (Z.shiftl (Z.land b0 15) 12)
                        (Z.shiftl (low6 c1) 6)) (low6 c2), 3%nat)
            else (RuneError, 1%nat)
        | _ => (RuneError, 1%nat)
        end
      else if between 240 244 c0 then
        let lo := if b0 =? 240 then 144 else 128 in
        let hi := if b0 =? 244 then 143 else 191 in
        match rest with
        | String c1 (String c2 (String c3 _)) =>
            if between lo hi c1 && between 128 191 c2 && between 128 191 c3
            then
              (Z.lor (Z.lor (Z.lor (Z.shiftl (Z.land b0 7) 18)
                                (Z.shiftl (low6 c1) 12))
                        (Z.shiftl (low6 c2) 6)) (low6 c3), 4%nat)
            else (RuneError, 1%nat)
        | _ => (RuneError, 1%nat)
        end
      else (RuneError, 1%nat)
  end.

Definition RuneStart (c : ascii) : bool :=
  negb (Z.land (byte_value c) 192 =? 128).

(** The loop of [DecodeLastRuneInString] that walks back from [start] for
    at most [steps] bytes to a byte that starts a rune. *)
Fixpoint find_start (s : string) (steps : nat) (start : Z) : Z :=
  match steps with
  | O => start
  | S steps =>
      match String.get (Z.to_nat start) s with
      | Some c =>
          if RuneStart c then start else find_start s steps (start - 1)
      | None => start
      end
  end.

(** [utf8.DecodeLastRuneInString]: the rune at the end of [s] and its
    width. *)
Definition DecodeLastRuneInString (s : string) : Z * nat :=
  let end_ := Z.of_nat (String.length s) in
  match String.get (Z.to_nat (end_ - 1)) s with
  | None => (RuneError, 0%nat)
  | Some c =>
      if byte_value c <? RuneSelf then (byte_value c, 1%nat)
      else
        let lim := Z.max 0 (end_ - UTFMax) in
        let start := find_start s (Z.to_nat (end_ - 1 - lim)) (end_ - 2) in
        let start := Z.max 0 start in
        let '(r, size) :=
          DecodeRuneInString
            (substring (Z.to_nat start) (Z.to_nat (end_ - start)) s) in
        if start + Z.of_nat size =? end_ then (r, size)
        else (RuneError, 1%nat)
  end.

Definition ValidRune (r : Z) : bool :=
  ((0 <=? r) && (r <? 55296)) || ((57343 <? r) && (r <=? MaxRune)).

Definition continuation (r : Z) (shift : Z) : ascii :=
  byte_of (Z.lor 128 (Z.land (Z.shiftr r shift) 63)).

(** [utf8.AppendRune] to an empty buffer: the encoding of [r], and that of
    [RuneError] for a value that is no rune. *)
Definition AppendRune (r : Z) : string :=
  let three (r : Z) :=
    String (byte_of (Z.lor 224 (Z.shiftr r 12)))
      (String (continuation r 6) (String (continuation r 0) EmptyString)) in
  if negb (ValidRune r) then three RuneError
  else if r <? RuneSelf then String (byte_of r) EmptyString
  else if r <=? 2047 then
    String (byte_of (Z.lor 192 (Z.shiftr r 6)))
      (String (continuation r 0) EmptyString)
  else if r <=? 65535 then three r
  else
    String (byte_of (Z.lor 240 (Z.shiftr r 18)))
      (String (continuation r 12)
         (String (continuation r 6) (String (continuation r 0) EmptyString))).

End utf8.

Module unicode.

(** [unicode.IsSpace]: the Latin-1 spaces, and above them the table
    [White_Space] (Unicode 6.3 and later, which Go has had since 1.3). *)
Definition IsSpace (r : Z) : bool :=
  if (0 <=? r) && (r <=? 255) then
    ((9 <=? r) && (r <=? 13)) || (r =? 32) || (r =? 133) || (r =? 160)
  else
    (r =? 5760) || ((8192 <=? r) && (r <=? 8202)) || (r =? 8232)
    || (r =? 8233) || (r =? 8239) || (r =? 8287) || (r =? 12288).

End unicode.

(** ** Package strconv *)

Module strconv.

Definition digit (c : ascii) : option Z :=
  let n := Z.of_nat (nat_of_ascii c) in
  if (48 <=? n) && (n <=? 57) then Some (n - 48) else Datatypes.None.

(** The value of a non-empty run of decimal digits. *)
Fixpoint digits_value (s : string) (acc : Z) : option Z :=
  match s with
  | EmptyString => Some acc
  | String c s =>
      match digit c with
      | Some d => digits_value s (10 * acc + d)
      | Datatypes.None => Datatypes.None
      end
  end.

Definition unsigned (s : string) : option Z :=
  match s with
  | EmptyString => Datatypes.None
  | String _ _ => digits_value s 0
  end.

(** [strconv.ParseInt(s, 10, 64)]: an optional sign and decimal digits, in
    the range of int64. *)
Definition ParseInt (s : string) : Z + error :=
  match s with
  | EmptyString => inr (ErrorString "strconv.ParseInt: invalid syntax")
  | String c rest =>
      let '(neg, body) :=
        if Ascii.eqb c "+" then (false, rest)
        else if Ascii.eqb c "-" then (true, rest)
        else (false, s) in
      match unsigned body with
      | Datatypes.None => inr (ErrorString "strconv.ParseInt: invalid syntax")
      | Some un =>
          let i := if neg then - un else un in
          if (i <? - 2 ^ 63) || (2 ^ 63 - 1 <? i) then
            inr (ErrorString "strconv.ParseInt: value out of range")
          else inl i
      end
  end.

(** [strconv.FormatInt(i, 10)] and [strconv.Itoa]. *)
Definition FormatInt (i : Z) : string := NilZero.string_of_int (Z.to_int i).

(** Splits [s] at the first character for which [stop] holds. *)
Fixpoint span (stop : ascii -> bool) (s : string) : string * string :=
  match s with
  | EmptyString => (EmptyString, EmptyString)
  | String c rest =>
      if stop c then (EmptyString, s)
      else let '(a, b) := span stop rest in (String c a, b)
  end.

Definition is_exp_mark (c : ascii) : bool :=
  Ascii.eqb c "e" || Ascii.eqb c "E".

Definition signed (s : string) : option Z :=
  match s with
  | EmptyString => Datatypes.None
  | String c rest =>
      if Ascii.eqb c "+" then unsigned rest
      else if Ascii.eqb c "-" then option_map Z.opp (unsigned rest)
      else unsigned s
  end.

(** [strconv.ParseFloat(s, 64)] on a decimal literal
    [[+-]digits[.digits][(e|E)[+-]digits]] with a digit in the mantissa:
    the nearest float64, or a range error when that is infinite.  (Go also
    reads hexadecimal literals, infinities and NaN; the JSON decoder never
    produces those as a [json.Number].) *)
Definition ParseFloat (s : string) : spec_float + error :=
  let syntax := inr (ErrorString "strconv.ParseFloat: invalid syntax") in
  let '(neg, body) :=
    match s with
    | String c rest =>
        if Ascii.eqb c "-" then (true, rest)
        else if Ascii.eqb c "+" then (false, rest)
        else (false, s)
    | EmptyString => (false, s)
    end in
  let '(mant, expo) := span is_exp_mark body in
  let '(ipart, rest) := span (Ascii.eqb ".") mant in
  let fpart := match rest with String _ f => f | EmptyString => EmptyString end in
  let e10 :=
    match expo with
    | EmptyString => Some 0
    | String _ e => signed e
    end in
  match (ipart ++ fpart)%string, digits_value (ipart ++ fpart) 0, e10 with
  | String _ _, Some m, Some e =>
      let e := e - Z.of_nat (String.length fpart) in
      let f := if 0 <=? e then float64.of_ratio neg (m * 10 ^ e) 1
               else float64.of_ratio neg m (10 ^ (- e)) in
      match f with
      | S754_infinity _ =>
          inr (ErrorString "strconv.ParseFloat: value out of range")
      | _ => inl f
      end
  | _, _, _ => syntax
  end.

Definition hexdigit (n : nat) : ascii :=
  match n with
  | 0 => "0" | 1 => "1" | 2 => "2" | 3 => "3" | 4 => "4" | 5 => "5"
  | 6 => "6" | 7 => "7" | 8 => "8" | 9 => "9" | 10 => "a" | 11 => "b"
  | 12 => "c" | 13 => "d" | 14 => "e" | _ => "f"
  end%char%nat.

Definition dquote : ascii := "034"%char.
Definition backslash : ascii := "\"%char.

(** The tables [isPrint16], [isNotPrint16], [isPrint32] and [isNotPrint32]
    of package strconv, which are generated from the Unicode database:
    whether a rune above U+00FF is printable. *)
Class PrintTables : Type := {
  isPrintAboveLatin1 : Z -> bool
}.

(** [lowerhex[r>>s&0xF]] for [s] from [4 * (digits - 1)] down to 0. *)
Fixpoint hex (digits : nat) (r : Z) : string :=
  match digits with
  | O => EmptyString
  | S digits =>
      String (hexdigit (Z.to_nat (Z.land (Z.shiftr r (4 * Z.of_nat digits)) 15)))
        (hex digits r)
  end.

Section Quote.

Context {tables : PrintTables}.

(** [strconv.IsPrint], with its fast path for Latin-1. *)
Definition IsPrint (r : Z) : bool :=
  if r <=? 255 then
    if (32 <=? r) && (r <=? 126) then true
    else if (161 <=? r) && (r <=? 255) then negb (r =? 173)
    else false
  else isPrintAboveLatin1 r.

(** [appendEscapedRune] for the double quote, neither ASCII-only nor
    graphic-only. *)
Definition appendEscapedRune (r : Z) : string :=
  if (r =? 34) || (r =? 92) then
    String backslash (String (utf8.byte_of r) EmptyString)
  else if IsPrint r then utf8.AppendRune r
  else if r =? 7 then "\a"
  else if r =? 8 then "\b"
  else if r =? 12 then "\f"
  else if r =? 10 then "\n"
  else if r =? 13 then "\r"
  else if r =? 9 then "\t"
  else if r =? 11 then "\v"
  else if (r <? 32) || (r =? 127) then ("\x" ++ hex 2 r)%string
  else
    let r := if utf8.ValidRune r then r else utf8.RuneError in
    if r <? 65536 then ("\u" ++ hex 4 r)%string
    else ("\U" ++ hex 8 r)%string.

(** The loop of [appendQuotedWith]: [skip] bytes of the rune last decoded
    are still to be passed over. *)
Fixpoint quote_from (skip : nat) (s : string) : string :=
  match s with
  | EmptyString => EmptyString
  | String c rest =>
      match skip with
      | S skip => quote_from skip rest
      | O =>
          let '(r, width) :=
            if utf8.byte_value c <? utf8.RuneSelf then
              (utf8.byte_value c, 1%nat)
            else utf8.DecodeRuneInString s in
          let invalid := (width =? 1)%nat && (r =? utf8.RuneError) in
          ((if invalid then "\x" ++ hex 2 (utf8.byte_value c)
            else appendEscapedRune r)
           ++ quote_from (width - 1) rest)%string
      end
  end.

(** [strconv.Quote(s)], which is what [fmt.Sprintf("%q", s)] returns:
    the quote and the backslash are escaped, printable runes are copied,
    the others get their letter or a [\x], [\u] or [\U] escape, and a byte
    that is not part of a valid UTF-8 sequence gets a [\x] escape. *)
Definition Quote (s : string) : string :=
  String dquote (quote_from 0 s ++ String dquote EmptyString).

End Quote.

End strconv.

(** ** Package strings *)

Module gostrings.

(** [strings.TrimLeftFunc(s, unicode.IsSpace)]: the runes are decoded from
    the left, an invalid byte being [RuneError], which is no space; [skip]
    bytes of the space last decoded are still to be dropped. *)
Fixpoint trim_left (skip : nat) (s : string) : string :=
  match s with
  | EmptyString => EmptyString
  | String c rest =>
      match skip with
      | S skip => trim_left skip rest
      | O =>
          let '(r, width) := utf8.DecodeRuneInString s in
          if unicode.IsSpace r then trim_left (width - 1) rest else s
      end
  end.

(** [strings.TrimRightFunc(s, unicode.IsSpace)]: the runes are decoded from
    the right until one is no space; what is kept ends with that rune. *)
Fixpoint trim_right (fuel : nat) (s : string) : string :=
  match fuel with
  | O => s
  | S fuel =>
      let '(r, size) := utf8.DecodeLastRuneInString s in
      if (0 <? size)%nat && unicode.IsSpace r then
        trim_right fuel (substring 0 (String.length s - size) s)
      else s
  end.

(** [strings.TrimSpace]: [TrimFunc(s, unicode.IsSpace)]; the fast path Go
    has for ASCII gives the same string. *)
Definition TrimSpace (s : string) : string :=
  let s := trim_left 0 s in trim_right (String.length s) s.

End gostrings.

(** ** Package time, as far as the unix formatter uses it *)

Module time.

Inductive Location : Type := UTC | America_Los_Angeles.

(** An instant, seconds and nanoseconds since the epoch, and the location
    it is shown in. *)
Record Time : Type := { sec : Z; nsec : Z; loc : Location }.

Definition Second : Z := 1000000000.

Definition Unix (s n : Z) : Time :=
  {| sec := s + n / 1000000000; nsec := n mod 1000000000; loc := UTC |}.

Definition In (t : Time) (l : Location) : Time :=
  {| sec := sec t; nsec := nsec t; loc := l |}.

(** Days since 1970-01-01 of a Gregorian date, and back. *)
Definition days_from_civil (y m d : Z) : Z :=
  let y := if m <=? 2 then y - 1 else y in
  let era := y / 400 in
  let yoe := y - era * 400 in
  let doy := (153 * (if 2 <? m then m - 3 else m + 9) + 2) / 5 + d - 1 in
  let doe := yoe * 365 + yoe / 4 - yoe / 100 + doy in
  era * 146097 + doe - 719468.

Definition civil_from_days (z : Z) : Z * Z * Z :=
  let z := z + 719468 in
  let era := z / 146097 in
  let doe := z - era * 146097 in
  let yoe := (doe - doe / 1460 + doe / 36524 - doe / 146096) / 365 in
  let y := yoe + era * 400 in
  let doy := doe - (365 * yoe + yoe / 4 - yoe / 100) in
  let mp := (5 * doy + 2) / 153 in
  let d := doy - (153 * mp + 2) / 5 + 1 in
  let m := if mp <? 10 then mp + 3 else mp - 9 in
  (if m <=? 2 then y + 1 else y, m, d).

(** 0 is Sunday. *)
Definition weekday (day : Z) : Z := (day + 4) mod 7.

Definition sunday_on_or_after (day : Z) : Z := day + (7 - weekday day) mod 7.

Definition sunday_on_or_before (day : Z) : Z := day - weekday day.

(** Daylight saving time in America/Los_Angeles by the rules in force since
    1987, which cover every instant the unix formatter lets through: until
    2006 from the first Sunday of April to the last Sunday of October, from
    2007 from the second Sunday of March to the first Sunday of November;
    the clocks change at 2:00 local time. *)
Definition is_dst (s : Z) : bool :=
  let '(y, _, _) := civil_from_days ((s - 8 * 3600) / 86400) in
  let first :=
    if y <? 2007 then sunday_on_or_after (days_from_civil y 4 1)
    else sunday_on_or_after (days_from_civil y 3 8) in
  let last :=
    if y <? 2007 then sunday_on_or_before (days_from_civil y 10 31)
    else sunday_on_or_after (days_from_civil y 11 1) in
  (first * 86400 + 10 * 3600 <=? s) && (s <? last * 86400 + 9 * 3600).

Definition offset (l : Location) (s : Z) : Z :=
  match l with
  | UTC => 0
  | America_Los_Angeles => if is_dst s then - 7 * 3600 else - 8 * 3600
  end.

Definition pad2 (z : Z) : string :=
  if z <? 10 then ("0" ++ strconv.FormatInt z)%string else strconv.FormatInt z.

Definition pad4 (z : Z) : string :=
  if z <? 10 then ("000" ++ strconv.FormatInt z)%string
  else if z <? 100 then ("00" ++ strconv.FormatInt z)%string
  else if z <? 1000 then ("0" ++ strconv.FormatInt z)%string
  else strconv.FormatInt z.

(** The layout element [.999]: the milliseconds without trailing zeros, and
    nothing at all when they are zero. *)
Definition frac999 (n : Z) : string :=
  let ms := n / 1000000 in
  if ms =? 0 then EmptyString
  else if ms mod 100 =? 0 then ("." ++ strconv.FormatInt (ms / 100))%string
  else if ms mod 10 =? 0 then
    ("." ++ strconv.FormatInt (ms / 100)
         ++ strconv.FormatInt (ms / 10 mod 10))%string
  else ("." ++ strconv.FormatInt (ms / 100)
            ++ strconv.FormatInt (ms / 10 mod 10)
            ++ strconv.FormatInt (ms mod 10))%string.

(** [t.Format(RedshiftDatetimeIngestString)], the layout being
    [2006-01-02 15:04:05.999]. *)
Definition Format_RedshiftDatetimeIngestString (t : Time) : string :=
  let local := sec t + offset (loc t) (sec t) in
  let '(y, m, d) := civil_from_days (local / 86400) in
  let tod := local mod 86400 in
  (pad4 y ++ "-" ++ pad2 m ++ "-" ++ pad2 d ++ " "
   ++ pad2 (tod / 3600) ++ ":" ++ pad2 (tod / 60 mod 60) ++ ":"
   ++ pad2 (tod mod 60) ++ frac999 (nsec t))%string.

End time.

(** ** Package writer: Multee *)

Module writer.

(** [WriteRequest], with the fields [Consume] fills in.  An absent [Record]
    (a [nil] map) is the empty map; an absent [Source] is the empty slice;
    [Pstart] is an instant. *)
Record WriteRequest : Type := {
  Category : string;
  Version : Z;
  Line : string;
  Record_ : gmap string string;
  UUID : string;
  Source : list byte;
  Failure : reporter.FailMode;
  Pstart : Z
}.

Section Multee.

(** A [SpadeWriter] is a value of [W]; its [Rotate] method returns
    [(done, err)] and leaves the writer in a new state. *)
Variable W : Type.
Variable SpadeWriter_Rotate : W -> (bool * goerror) * W.

(** What one execution of [Multee.Rotate] does: the two results, the
    targets after the call, and the keys whose writer had [Rotate] called,
    in call order. *)
Record RotateRun : Type := {
  allDone : bool;
  err : goerror;
  targets : gmap string W;
  rotated : list string
}.

(** The body of [for k, writer := range t.targets]. *)
Definition Rotate_body (r : RotateRun) (kw : string * W) : RotateRun :=
  let '(k, writer) := kw in
  let '((done, e), writer') := SpadeWriter_Rotate writer in
  {| allDone :=
       match e with
       | Some _ => false   (* logged *)
       | None => allDone r && done
       end;
     err := None;
     targets := <[k := writer']> (targets r);
     rotated := rotated r ++ [k] |}.

(** [Multee.Rotate], the map being ranged over in the order [order]. *)
Definition Rotate_in (order : list (string * W)) (t : gmap string W)
  : RotateRun :=
  fold_left Rotate_body order
    {| allDone := true; err := None; targets := t; rotated := [] |}.

(** Go leaves the iteration order of a map unspecified: [order] is any
    enumeration of the map's entries. *)
Definition range_order (t : gmap string W) (order : list (string * W))
  : Prop :=
  order ≡ₚ map_to_list t.

Definition Rotate (t : gmap string W) : RotateRun :=
  Rotate_in (map_to_list t) t.

End Multee.

End writer.

(** ** Package writer: the other operations of Multee *)

Module multee.

Section Operations.

(** A [SpadeWriter] is a value of [W], as for [Rotate]; [Write] and [Close]
    leave the writer in a new state. *)
Variable W : Type.
Variable SpadeWriter_Write : writer.WriteRequest -> W -> W.
Variable SpadeWriter_Close : W -> goerror * W.

(** The target map, and the writers handed to a goroutine that calls their
    [Close], in the order the goroutines were started.  Log lines are not
    recorded. *)
Record Multee : Type := {
  targets : gmap string W;
  closing : list (string * W)
}.

Definition NewMultee : Multee := {| targets := ∅; closing := [] |}.

Definition Add (key : string) (w : W) (t : Multee) : Multee :=
  match targets t !! key with
  | Some _ => t   (* Could not add SpadeWriter due to key collision *)
  | None => {| targets := <[key := w]> (targets t); closing := closing t |}
  end.

Definition Drop (key : string) (t : Multee) : Multee :=
  match targets t !! key with
  | None => t     (* Could not drop SpadeWriter due to non existent key *)
  | Some writer =>
      {| targets := delete key (targets t);
         closing := closing t ++ [(key, writer)] |}
  end.

Definition Replace (key : string) (newWriter : W) (t : Multee) : Multee :=
  match targets t !! key with
  | None => t     (* Could not replace SpadeWriter due to non existent key *)
  | Some oldWriter =>
      {| targets := <[key := newWriter]> (delete key (targets t));
         closing := closing t ++ [(key, oldWriter)] |}
  end.

(** [Write], the map being ranged over in the order [order]. *)
Definition Write_in (order : list (string * W)) (r : writer.WriteRequest)
  (t : Multee) : Multee :=
  {| targets :=
       fold_left (fun m kw => <[kw.1 := SpadeWriter_Write r kw.2]> m)
         order (targets t);
     closing := closing t |}.

(** [Close]: one goroutine per target calls its [Close]; [order] is the
    order in which these calls happen.  The errors are logged, the result
    is [nil] once all of them returned, and the keys closed are returned
    here as well. *)
Definition Close_in (order : list (string * W)) (t : Multee)
  : goerror * list string * Multee :=
  (None, order.*1,
   {| targets :=
        fold_left (fun m kw => <[kw.1 := (SpadeWriter_Close kw.2).2]> m)
          order (targets t);
      closing := closing t |}).

End Operations.

End multee.

(** ** Package parser: the event handed to the transformer *)

Module parser.

(** Modelled from the spec: [parser.MixpanelEvent], whose declaration is not
    among the sources; the fields are those [Consume] and [transform] read.
    [EventTime] is a [json.Number], [Pstart] an instant. *)
Record MixpanelEvent : Type := {
  Pstart : Z;
  EventTime : string;
  UUID : string;
  ClientIP : string;
  Event : string;
  UserAgent : string;
  Properties : list byte;
  Failure : reporter.FailMode;
  EdgeType : string
}.

End parser.

(** ** Package transformer *)

Module transformer.

(** What [interface{}] holds after [json.Decoder.Decode] with [UseNumber]:
    [nil], a [bool], a [json.Number] (the literal as written), a [string],
    a slice or a map. *)
#[warnings="-register-all"]
Inductive value : Type :=
| VNil
| VBool (b : bool)
| VNumber (n : string)
| VString (s : string)
| VArray (elems : list value)
| VObject (fields : list (string * value)).

(** Package encoding/json, as [transform] and [Consume] use it: decoding a
    document into a [map[string]interface{}] with [UseNumber], and
    marshalling a [nontrackedEvent].  [Decode] leaves in [temp] a map, or
    the nil map ([None]) when the document is [null], or it returns an
    error. *)
Record JSON : Type := {
  Decode : list byte -> option (gmap string value) + error;
  Marshal_nontrackedEvent : string -> list byte -> list byte + error
}.

(** A call returns, or it panics with a runtime error. *)
Inductive outcome (A : Type) : Type :=
| Returns (a : A)
| Panics (msg : string).

Arguments Returns {A} a.
Arguments Panics {A} msg.

(** The runtime error of a store into a nil map. *)
Definition nil_map_assignment : string := "assignment to entry in nil map".

Definition RedshiftDatetimeIngestString : string := "2006-01-02 15:04:05.999".
Definition fiveDigitYearCutoff : Z := 13140000000.
Definition timeLowerBound : Z := 1000000000.

Definition PST : time.Location := time.America_Los_Angeles.

(** [genError(offender, t)]; the message also prints the offending value,
    which is left out here. *)
Definition genError (t : string) : error :=
  ErrorString ("Failed to parse value as a " ++ t).

(** [args[0]].  Every formatter is reached through [safeColumnTransformer],
    which has checked the number of arguments; the default is never used. *)
Definition arg0 (args : list value) : value := hd VNil args.

Definition safeParseInt (v : value) : Z + error :=
  match v with
  | VNumber t => strconv.ParseInt t
  | VString strTarget => strconv.ParseInt strTarget
  | _ => inr (ErrorString "nil target")
  end.

Definition intFormat (bitsAllowed : Z) (args : list value) : string * goerror :=
  let maxIntAllowed := 2 ^ (bitsAllowed - 1) - 1 in
  let minIntAllowed := - 2 ^ (bitsAllowed - 1) in
  match safeParseInt (arg0 args) with
  | inr err => (EmptyString, Some err)
  | inl i =>
      if (maxIntAllowed <? i) || (i <? minIntAllowed) then
        (EmptyString,
         Some (ErrorString
                 ("parsing " ++ String strconv.dquote (strconv.FormatInt i)
                  ++ String strconv.dquote ": value out of range (bits: "
                  ++ strconv.FormatInt bitsAllowed ++ ")")))
      else (strconv.FormatInt i, None)
  end.

Definition genUnixTimeFormat (timezone : time.Location) (args : list value)
  : string * goerror :=
  match arg0 args with
  | VNumber t =>
      match strconv.ParseFloat t with
      | inr err => (EmptyString, Some err)
      | inl i =>
          let seconds := float64.Trunc i in
          let nanos :=
            float64.mul (float64.sub i seconds) (float64.of_Z time.Second) in
          (* we also error if the year will be converted into a > 4 digit
             number *)
          if float64.ltb seconds (float64.of_Z timeLowerBound)
             || float64.ltb (float64.of_Z fiveDigitYearCutoff) seconds then
            (EmptyString, Some (genError "Time: unix"))
          else
            (time.Format_RedshiftDatetimeIngestString
               (time.In (time.Unix (float64.to_int64 seconds)
                                   (float64.to_int64 nanos)) timezone),
             None)
      end
  | _ => (EmptyString, Some (genError "Time: unix"))
  end.

Definition varcharFormat (args : list value) : string * goerror :=
  match arg0 args with
  | VString str => (str, None)
  | _ => (EmptyString, Some (genError "Varchar"))
  end.

Definition boolFormat (args : list value) : string * goerror :=
  match arg0 args with
  | VBool b => (if b then "true" else "false", None)%string
  | VNumber i =>
      if String.eqb i "1" then ("true"%string, None)
      else if String.eqb i "0" then ("false"%string, None)
      else (EmptyString, Some (genError "Bool"))
  | _ => (EmptyString, Some (genError "Bool"))
  end.

Section Stateful.

(** The state of everything a column transformer can reach: the two caches,
    the fetcher, the stats sink; and the tables behind [%q]. *)
Context {St : Type} {tables : strconv.PrintTables}.

Definition M (A : Type) : Type := St -> A * St.

Definition ret {A : Type} (a : A) : M A := fun s => (a, s).

Definition bind {A B : Type} (m : M A) (k : A -> M B) : M B :=
  fun s => let '(a, s) := m s in k a s.

Local Notation "'let*' x ':=' m 'in' k" := (bind m (fun x => k))
  (at level 10, x pattern, m at level 100, k at level 200).

(** ColumnTransformer takes an event property and transforms it to a
    string. *)
Definition ColumnTransformer : Type := list value -> M (string * goerror).

(** A transformer that touches no state. *)
Definition pure (f : list value -> string * goerror) : ColumnTransformer :=
  fun args => ret (f args).

Definition safeColumnTransformer (transformer : ColumnTransformer)
  (nargs : nat) : ColumnTransformer :=
  fun args =>
    if negb (length args =? nargs)%nat then
      ret (EmptyString,
           Some (ErrorString
                   ("Provide " ++ strconv.FormatInt (Z.of_nat (length args))
                    ++ " arguments instead of the required amount of "
                    ++ strconv.FormatInt (Z.of_nat nargs))))
    else transformer args.

Record RedshiftType : Type := {
  Transformer : ColumnTransformer;
  InboundName : string;
  OutboundName : string;
  SupportingColumns : list string
}.

(** The loop of [Format] over the inbound and the supporting columns:
    [None] is the early return with [ErrColumnNotFound]. *)
Fixpoint Format_args (noSupporting : bool) (columns : list string)
  (eventProperties : gmap string value) (args : list value)
  : option (list value) :=
  match columns with
  | [] => Some args
  | col :: columns =>
      match eventProperties !! col with
      | None =>
          if noSupporting then None
          else Format_args noSupporting columns eventProperties (args ++ [VNil])
      | Some p =>
          Format_args noSupporting columns eventProperties (args ++ [p])
      end
  end.

Definition Format (r : RedshiftType) (eventProperties : gmap string value)
  : M (string * string * goerror) :=
  match Format_args (length (SupportingColumns r) =? 0)%nat
          (InboundName r :: SupportingColumns r) eventProperties [] with
  | None => ret (EmptyString, EmptyString, Some ErrColumnNotFound)
  | Some args =>
      let* (value, err) := Transformer r args in
      ret (OutboundName r, value, err)
  end.

(** [cache.StringCache], [lookup.ValueFetcher] and the [IncrBy] of
    [reporter.StatsLogger], acting on the state. *)
Record StringCache : Type := {
  Get : string -> M (string * goerror);
  Set_ : string -> string -> M goerror
}.

Record MappingTransformerConfig : Type := {
  Fetcher_FetchInt64 : gmap string string -> M (Z * goerror);
  LocalCache : StringCache;
  RemoteCache : StringCache;
  Stats_IncrBy : string -> Z -> M unit
}.

Definition recordCacheError (config : MappingTransformerConfig)
  (err : goerror) (operation : string) : M unit :=
  let stat suffix :=
    ("transformer.login_to_id.cache_error." ++ operation ++ suffix)%string in
  match err with
  | None => Stats_IncrBy config (stat ".success") 1
  | Some ErrCacheMiss => Stats_IncrBy config (stat ".cache_miss") 1
  | Some ErrMalformedKey => Stats_IncrBy config (stat ".malformed_key") 1
  | Some ConnectTimeoutError => Stats_IncrBy config (stat ".connect_timeout") 1
  | Some _ => Stats_IncrBy config (stat ".other") 1
  end.

Definition genLoginToIDTransformer (config : MappingTransformerConfig)
  : ColumnTransformer :=
  safeColumnTransformer (fun args =>
    match safeParseInt (nth 0 args VNil) with
    | inl localID => ret (strconv.FormatInt localID, Some ErrIDSet)
    | inr _ =>
    match nth 1 args VNil with
    | VString login =>
        (* Some clients submit the login name with whitespace on either end *)
        let login := gostrings.TrimSpace login in
        if (String.length login =? 0)%nat then
          ret (EmptyString, Some ErrEmptyLookupValue)
        else
        let* (cachedID, err) := Get (LocalCache config) login in
        match err with
        | None =>
            let* _ := recordCacheError config None "local_get" in
            ret (cachedID, Some ErrLocalCacheHit)
        | Some _ =>
        let* (cachedID, err) := Get (RemoteCache config) login in
        match err with
        | None =>
            let* _ := recordCacheError config None "remote_get" in
            let* _ := Set_ (LocalCache config) login cachedID in
            ret (cachedID, Some ErrRemoteCacheHit)
        | Some _ =>
        let fetchArgs : gmap string string := {[ "login"%string := login ]} in
        let* (fetchedValue, err) := Fetcher_FetchInt64 config fetchArgs in
        match err with
        | Some err =>
            let* _ :=
              if decide (err = ErrExtractingValue) then
                let* _ := Set_ (LocalCache config) login EmptyString in
                let* err := Set_ (RemoteCache config) login EmptyString in
                recordCacheError config err "remote_set"
              else ret tt in
            ret (EmptyString, Some ErrFetchFailure)
        | None =>
            let fetchedID := strconv.FormatInt fetchedValue in
            let* _ := Set_ (LocalCache config) login fetchedID in
            let* err := Set_ (RemoteCache config) login fetchedID in
            let* _ := recordCacheError config err "remote_set" in
            match err with
            | Some _ => ret (fetchedID, Some ErrCacheSetFailure)
            | None => ret (fetchedID, Some ErrFetchSuccess)
            end
        end
        end
        end
    | _ => ret (EmptyString, Some ErrBadLookupValue)
    end
    end) 2.

(** [SchemaConfigLoader], as far as the transformer calls it. *)
Record SchemaConfigLoader : Type := {
  GetColumnsForEvent : string -> list RedshiftType + error;
  GetVersionForEvent : string -> Z
}.

(** [RedshiftTransformer].  The stats sink and the metadata loader only
    receive counters and timings (edge types, duration); the counters of
    the column loop are returned by [transform] below. *)
Record RedshiftTransformer : Type := {
  Configs : SchemaConfigLoader
}.

(** The [switch err] of the column loop: whether the column is skipped, and
    the counters to increment. *)
Definition tally (err : goerror) : bool * list string :=
  match err with
  | None => (false, ["success"])
  | Some ErrTooManyRequests => (true, ["tooManyFetchRequests"])
  | Some ErrExtractingValue => (true, ["invalidMapping"])
  | Some ErrIDSet => (false, ["success"; "cache.id_set"])
  | Some ErrBadLookupValue => (true, ["cache.bad_lookup_value"])
  | Some ErrEmptyLookupValue => (true, ["cache.empty_lookup_value"])
  | Some ErrLocalCacheHit => (false, ["success"; "cache.local_cache_hit"])
  | Some ErrRemoteCacheHit => (false, ["success"; "cache.remote_cache_hit"])
  | Some ErrFetchSuccess => (false, ["success"; "cache.fetch_success"])
  | Some ErrFetchFailure => (true, ["cache.fetch_failure"])
  | Some ErrCacheSetFailure => (false, ["success"; "cache.set_failure"])
  | Some _ => (true, [])
  end%string.

(** [results[stat]++]. *)
Definition incr (results : gmap string Z) (stat : string) : gmap string Z :=
  <[stat := default 0 (results !! stat) + 1]> results.

(** The variables of the column loop. *)
Record columns_state : Type := {
  tsvOutput : string;
  kvOutput : gmap string string;
  results : gmap string Z;
  possibleError : goerror
}.

Definition tab : string := String "009" EmptyString.

(** The body of the loop for column number [n], after [column.Format]
    returned [(k, v, err)].  The text of [ErrSkippedColumn] prints the
    column and the error; only its fixed part is kept. *)
Definition column_done (n : nat) (k v : string) (err : goerror)
  (st : columns_state) : columns_state :=
  let '(skipped, stats) := tally err in
  let results := fold_left incr stats (results st) in
  {| results := if skipped then incr results "skippedColumn" else results;
     possibleError :=
       if skipped then Some (ErrSkippedColumn "Problem parsing into column")
       else possibleError st;
     tsvOutput :=
       (tsvOutput st ++ (if (n =? 0)%nat then EmptyString else tab)
        ++ strconv.Quote v)%string;
     kvOutput :=
       if String.eqb v EmptyString then kvOutput st
       else <[k := v]> (kvOutput st) |}.

Fixpoint columns_loop (n : nat) (columns : list RedshiftType)
  (temp : gmap string value) (st : columns_state) : M columns_state :=
  match columns with
  | [] => ret st
  | column :: columns =>
      let* (k, v, err) := Format column temp in
      columns_loop (S n) columns temp (column_done n k v err st)
  end.

(** The server-side fields written into the decoded properties. *)
Definition server_fields (event : parser.MixpanelEvent)
  (temp : gmap string value) : gmap string value :=
  let temp :=
    match temp !! "time"%string with
    | Some t => <["client_time"%string := t]> temp
    | None => temp
    end in
  let temp := <["time"%string := VNumber (parser.EventTime event)]> temp in
  let temp :=
    match temp !! "ip"%string with
    | Some _ => temp
    | None => <["ip"%string := VString (parser.ClientIP event)]> temp
    end in
  match temp !! "user_agent"%string with
  | Some _ => temp
  | None =>
      if String.eqb (parser.UserAgent event) EmptyString then temp
      else <["user_agent"%string := VString (parser.UserAgent event)]> temp
  end.

(** [transform] returns the line, the record and the error, and here also
    the counters it hands to [t.stats.IncrBy] when the loop is over.  When
    [Decode] has left [temp] nil, the store [temp["time"] = event.EventTime]
    panics (the reads of [temp] before it do not). *)
Definition transform (codec : JSON) (t : RedshiftTransformer)
  (event : parser.MixpanelEvent)
  : M (outcome (string * gmap string string * goerror * gmap string Z)) :=
  if String.eqb (parser.Event event) EmptyString then
    ret (Returns (EmptyString, ∅, Some ErrEmptyRequest, ∅))
  else
  match GetColumnsForEvent (Configs t) (parser.Event event) with
  | inr err => ret (Returns (EmptyString, ∅, Some err, ∅))
  | inl columns =>
  match Decode codec (parser.Properties event) with
  | inr err => ret (Returns (EmptyString, ∅, Some err, ∅))
  | inl None => ret (Panics nil_map_assignment)
  | inl (Some temp) =>
      let temp := server_fields event temp in
      let* st := columns_loop 0 columns temp
                   {| tsvOutput := EmptyString; kvOutput := ∅;
                      results := ∅; possibleError := None |} in
      ret (Returns (tsvOutput st, kvOutput st, possibleError st, results st))
  end
  end.

(** Consume transforms a MixpanelEvent into a WriteRequest.  A panic of
    [transform] is not recovered here. *)
Definition Consume (codec : JSON) (t : RedshiftTransformer)
  (event : parser.MixpanelEvent) : M (outcome writer.WriteRequest) :=
  let version := GetVersionForEvent (Configs t) (parser.Event event) in
  match parser.Failure event with
  | reporter.None =>
      let* transformed := transform codec t event in
      match transformed with
      | Panics msg => ret (Panics msg)
      | Returns (line, kv, err, _) =>
      match err with
      | None =>
          ret (Returns
                 {| writer.Category := parser.Event event;
                    writer.Version := version;
                    writer.Line := line;
                    writer.Record_ := kv;
                    writer.UUID := parser.UUID event;
                    writer.Source := parser.Properties event;
                    writer.Failure := reporter.None;
                    writer.Pstart := parser.Pstart event |})
      | Some (ErrNotTracked _) =>
          let dump :=
            match Marshal_nontrackedEvent codec (parser.Event event)
                    (parser.Properties event) with
            | inl dump => dump
            | inr _ => []
            end in
          ret (Returns
                 {| writer.Category := parser.Event event;
                    writer.Version := version;
                    writer.Line := string_of_list_byte dump;
                    writer.Record_ := ∅;
                    writer.UUID := parser.UUID event;
                    writer.Source := parser.Properties event;
                    writer.Failure := reporter.NonTrackingEvent;
                    writer.Pstart := parser.Pstart event |})
      | Some (ErrSkippedColumn _) => (* Non critical error *)
          ret (Returns
                 {| writer.Category := parser.Event event;
                    writer.Version := version;
                    writer.Line := line;
                    writer.Record_ := kv;
                    writer.UUID := parser.UUID event;
                    writer.Source := parser.Properties event;
                    writer.Failure := reporter.SkippedColumn;
                    writer.Pstart := parser.Pstart event |})
      | Some _ =>
          ret (Returns
                 {| writer.Category := "Unknown";
                    writer.Version := version;
                    writer.Line := EmptyString;
                    writer.Record_ := ∅;
                    writer.UUID := parser.UUID event;
                    writer.Source := parser.Properties event;
                    writer.Failure := reporter.EmptyRequest;
                    writer.Pstart := parser.Pstart event |})
      end
      end
  | failure =>
      ret (Returns
             {| writer.Category := parser.Event event;
                writer.Version := version;
                writer.Line := EmptyString;
                writer.Record_ := ∅;
                writer.UUID := parser.UUID event;
                writer.Source := parser.Properties event;
                writer.Failure := failure;
                writer.Pstart := parser.Pstart event |})
  end.

End Stateful.

Arguments ColumnTransformer : clear implicits.
Arguments RedshiftType : clear implicits.
Arguments StringCache : clear implicits.
Arguments MappingTransformerConfig : clear implicits.
Arguments SchemaConfigLoader : clear implicits.
Arguments RedshiftTransformer : clear implicits.
Arguments M : clear implicits.

End transformer.

(** ** Package eventmetadata: DynamicLoader *)

Module eventmetadata.

(** [scoop_protocol.COMMENT] and [scoop_protocol.EDGE_TYPE]; the values are
    the keys of the metadata fixture of the processor tests. *)
Definition COMMENT : string := "comment".
Definition EDGE_TYPE : string := "edge_type".

Record EventMetadataRow : Type := {
  MetadataValue : string
}.

Record EventMetadataConfig : Type := {
  Metadata : gmap string (gmap string EventMetadataRow)
}.

Record DynamicLoader : Type := {
  configs : EventMetadataConfig
}.

Definition GetMetadataValueByType (d : DynamicLoader)
  (eventName metadataType : string) : string * goerror :=
  if bool_decide (metadataType <> COMMENT)
     && bool_decide (metadataType <> EDGE_TYPE) then
    ("", Some (ErrInvalidMetadataType (eventName ++ " is not being tracked")))
  else
    match Metadata (configs d) !! eventName with
    | Some eventMetadata =>
        match eventMetadata !! metadataType with
        | Some metadataRow => (MetadataValue metadataRow, None)
        | None => ("", Some (ErrorString "Not found"))
        end
    | None => ("", Some (ErrorString "Not found"))
    end.

End eventmetadata.

(** ** Package eventmetadata: fetching the snapshot *)

Module config_loader.

(** A [time.Duration] is an int64; a product of two of them wraps around. *)
Definition int64 (z : Z) : Z := (z + 2 ^ 63) mod 2 ^ 64 - 2 ^ 63.

(** What the ticker and the closer channel deliver to [Crank]. *)
Inductive Signal : Type :=
| TickC
| Closer.

Section Loader.

(** The fetcher is a state [F] with its [Fetch]; [ioutil.ReadAll] and
    [json.Unmarshal] into the metadata map are functions of what they are
    given. *)
Variable F : Type.
Variable Reader : Type.
Variable Fetch : F -> (Reader + error) * F.
Variable ReadAll : Reader -> list byte + error.
Variable Unmarshal :
  list byte -> gmap string (gmap string eventmetadata.EventMetadataRow) + error.

(** The fields [reloadTime] and [retryDelay], which [NewDynamicLoader] sets
    and nothing changes. *)
Variable reloadTime : Z.
Variable retryDelay : Z.

(** The fetcher, the arguments of the calls of [time.Sleep] and the names
    of the calls of [stats.Timing], both in call order. *)
Record World : Type := {
  fetcher : F;
  slept : list Z;
  timings : list string
}.

(** [scoop_protocol.EventMetadataConfig{}]; a nil map reads as an empty
    one. *)
Definition zero : eventmetadata.EventMetadataConfig :=
  {| eventmetadata.Metadata := ∅ |}.

(** The body of [pullConfigIn], which touches the fetcher only. *)
Definition pull (f : F) : eventmetadata.EventMetadataConfig * goerror * F :=
  let (configReader, f') := Fetch f in
  match configReader with
  | inr err => (zero, Some err, f')
  | inl configReader =>
      match ReadAll configReader with
      | inr err => (zero, Some err, f')
      | inl b =>
          match Unmarshal b with
          | inr err => (zero, Some err, f')
          | inl m => ({| eventmetadata.Metadata := m |}, None, f')
          end
      end
  end.

Definition pullConfigIn (w : World)
  : eventmetadata.EventMetadataConfig * goerror * World :=
  let '(config, err, f') := pull (fetcher w) in
  (config, err, {| fetcher := f'; slept := slept w; timings := timings w |}).

Definition Sleep (d : Z) (w : World) : World :=
  {| fetcher := fetcher w; slept := slept w ++ [d]; timings := timings w |}.

Definition Timing (stat : string) (w : World) : World :=
  {| fetcher := fetcher w; slept := slept w; timings := timings w ++ [stat] |}.

(** The loop of [retryPull] with [count] iterations left, [i] the loop
    variable, and [config] and [err] the variables of these names. *)
Fixpoint retryPull_loop (count : nat) (i : Z) (waitTime : Z)
  (config : eventmetadata.EventMetadataConfig) (err : goerror) (w : World)
  : eventmetadata.EventMetadataConfig * goerror * World :=
  match count with
  | O => (config, err, w)
  | S count' =>
      let '(config', err', w1) := pullConfigIn w in
      match err' with
      | None => (config', None, w1)
      | Some _ =>
          retryPull_loop count' (i + 1) waitTime config' err'
            (Sleep (int64 (waitTime * i)) w1)
      end
  end.

(** [for i := 1; i <= n; i++] runs [n] times ([n] is below the largest int,
    the callers pass 5), and not at all when [n] is not positive. *)
Definition retryPull (n : Z) (waitTime : Z) (w : World)
  : eventmetadata.EventMetadataConfig * goerror * World :=
  retryPull_loop (Z.to_nat n) 1 waitTime zero None w.

(** [nil] for the loader when the first fetch fails. *)
Definition NewDynamicLoader (w : World)
  : option eventmetadata.DynamicLoader * goerror * World :=
  let '(config, err, w') := retryPull 5 retryDelay w in
  match err with
  | Some _ => (None, err, w')
  | None => (Some {| eventmetadata.configs := config |}, None, w')
  end.

(** [Crank] over what its two channels deliver, in the order [select] takes
    them; it returns at [Closer], and blocks when nothing is left. *)
Fixpoint Crank (signals : list Signal) (d : eventmetadata.DynamicLoader)
  (w : World) : eventmetadata.DynamicLoader * World :=
  match signals with
  | [] => (d, w)
  | Closer :: _ => (d, w)
  | TickC :: rest =>
      let '(newConfig, err, w1) := retryPull 5 retryDelay w in
      match err with
      | Some _ => Crank rest d (Timing "config.error" w1)
      | None =>
          Crank rest {| eventmetadata.configs := newConfig |}
            (Timing "config.success" w1)
      end
  end.

End Loader.

End config_loader.

(** ** Package consumer: the kinsumer configuration *)

Module consumer.

Record Config : Type := {
  ApplicationName : string;
  StreamName : string;
  ThrottleDelay : string;
  CommitFrequency : string;
  ShardCheckFrequency : string;
  BufferSize : Z
}.

(** A [kinsumer.Config] is built from [kinsumer.NewConfig()] by its
    [With...] methods, each of which returns a changed copy.  It is embedded
    as the calls made on it, oldest first. *)
Inductive Setting : Type :=
| WithThrottleDelay (d : Z)
| WithCommitFrequency (d : Z)
| WithShardCheckFrequency (d : Z)
| WithBufferSize (n : Z).

Definition kinsumer_Config : Type := list Setting.

Definition NewConfig : kinsumer_Config := [].

Section Durations.

(** [time.ParseDuration]: the duration and the error it returns. *)
Variable ParseDuration : string -> Z * goerror.

Definition configEntryToDuration (entry : string) : Z * goerror :=
  if (String.length entry =? 0)%nat then (0, None)
  else
    let (d, e) := ParseDuration entry in
    if d <? 0 then
      (0, Some (ErrorString (entry ++ " is a negative duration")))
    else (d, e).

Definition configToKinsumerConfig (config : Config)
  : kinsumer_Config * goerror :=
  let kinsumerConfig := NewConfig in
  let (d, e) := configEntryToDuration (ThrottleDelay config) in
  match e with
  | Some e => (kinsumerConfig, Some (Errorf "Invalid ThrottleDelay: %s" e))
  | None =>
  let kinsumerConfig :=
    if 0 <? d then kinsumerConfig ++ [WithThrottleDelay d]
    else kinsumerConfig in
  let (d, e) := configEntryToDuration (CommitFrequency config) in
  match e with
  | Some e => (kinsumerConfig, Some (Errorf "Invalid CommitFrequency: %s" e))
  | None =>
  let kinsumerConfig :=
    if 0 <? d then kinsumerConfig ++ [WithCommitFrequency d]
    else kinsumerConfig in
  let (d, e) := configEntryToDuration (ShardCheckFrequency config) in
  match e with
  | Some e =>
      (kinsumerConfig, Some (Errorf "Invalid ShardCheckFrequency: %s" e))
  | None =>
  let kinsumerConfig :=
    if 0 <? d then kinsumerConfig ++ [WithShardCheckFrequency d]
    else kinsumerConfig in
  if BufferSize config <? 0 then
    (kinsumerConfig,
     Some (ErrorString ("Invalid (negative) BufferSize: "
                        ++ strconv.FormatInt (BufferSize config))))
  else
  let kinsumerConfig :=
    if 0 <? BufferSize config then
      kinsumerConfig ++ [WithBufferSize (BufferSize config)]
    else kinsumerConfig in
  (kinsumerConfig, None)
  end
  end
  end.

End Durations.

End consumer.

(** ** The contents of a glob *)

(** The bytes between the brackets of the JSON array of [es]: the entries in
    order, a separator between consecutive ones. *)
Definition elements (es : list (list byte)) : list byte :=
  match es with
  | [] => []
  | e :: rest => e ++ concat (map (cons globber.separator) rest)
  end.

Definition json_array (es : list (list byte)) : list byte :=
  globber.prefix :: elements es ++ [globber.postfix].

(** The entries among the messages of a worker, in order of arrival. *)
Definition submitted (msgs : list globber.Msg) : list (list byte) :=
  flat_map (fun m => match m with
                     | globber.Incoming e => [e]
                     | globber.TimerC => []
                     end) msgs.

(** No size-triggered close while [es] are added to a buffer that holds
    [pendingLen] bytes: every entry fits next to what is pending.  (The
    size test of an entry that arrives at an empty buffer calls [complete],
    which returns at once; such an entry is let through here as well.) *)
Fixpoint no_size_close (maxSize : Z) (pendingLen : Z) (es : list (list byte))
  : bool :=
  match es with
  | [] => true
  | e :: es =>
      let len := Z.of_nat (length e) in
      ((len + pendingLen <=? maxSize) || (pendingLen =? 0))
      (* one more byte for the prefix or the separator *)
      && no_size_close maxSize (pendingLen + len + 1) es
  end.

(** What a completed glob must be for the entries [sub] submitted so far:
    the version byte, then a deflate stream of the JSON array of a non-empty
    run of submitted entries. *)
Definition glob_ok (inflate : list byte -> option (list byte))
  (sub : list (list byte)) (glob : list byte) : Prop :=
  exists z es,
    glob = globber.version :: z /\
    inflate z = Some (json_array es) /\
    es <> [] /\ incl es sub.

(** Every batch handed to the completor so far holds an entry. *)
Definition batches_nonempty (b : batcher.Batcher) : Prop :=
  Forall (fun batch => batch <> []) (batcher.completed b).

(** The buffer between globs: empty, or an array under construction that
    holds at least one submitted entry. *)
Definition pending_ok (sub : list (list byte)) (g : globber.Globber) : Prop :=
  globber.pending g = [] \/
  exists es,
    es <> [] /\ incl es sub /\
    globber.pending g = globber.prefix :: elements es.

Definition globber_invariant (inflate : list byte -> option (list byte))
  (sub : list (list byte)) (g : globber.Globber) : Prop :=
  pending_ok sub g /\ Forall (glob_ok inflate sub) (globber.completed g).

(** ** A deflate coder with stored blocks

    A compressor that satisfies what the globber needs from
    [compress/flate]: it emits the input as stored (uncompressed) deflate
    blocks of at most 65535 bytes, which every inflater reads back. *)

Module stored.

Definition byte_of_N (n : N) : byte :=
  match Byte.of_N n with Some b => b | None => x00 end.

Definition block_max : N := 65535.

(** Block header: BFINAL and BTYPE=00 padded to a byte, LEN and its one's
    complement NLEN, both little-endian. *)
Definition header (final : bool) (len : N) : list byte :=
  [ (if final then x01 else x00);
    byte_of_N (len mod 256); byte_of_N (len / 256);
    byte_of_N (255 - len mod 256); byte_of_N (255 - len / 256) ].

Fixpoint deflate_blocks (fuel : nat) (data : list byte) : list byte :=
  match fuel with
  | O => header true 0
  | S fuel =>
      let len := N.of_nat (length data) in
      if (len <=? block_max)%N then header true len ++ data
      else header false block_max
             ++ firstn (N.to_nat block_max) data
             ++ deflate_blocks fuel (skipn (N.to_nat block_max) data)
  end.

Definition deflate (data : list byte) : list byte :=
  deflate_blocks (length data) data.

Fixpoint inflate_blocks (fuel : nat) (z : list byte) : option (list byte) :=
  match fuel with
  | O => None
  | S fuel =>
      match z with
      | hdr :: l0 :: l1 :: n0 :: n1 :: rest =>
          let len := (Byte.to_N l0 + 256 * Byte.to_N l1)%N in
          let nlen := (Byte.to_N n0 + 256 * Byte.to_N n1)%N in
          if negb (len + nlen =? 65535)%N then None
          else if (N.of_nat (length rest) <? len)%N then None
          else
            let data := firstn (N.to_nat len) rest in
            let rest := skipn (N.to_nat len) rest in
            if Byte.eqb hdr x01 then
              match rest with [] => Some data | _ :: _ => None end
            else if Byte.eqb hdr x00 then
              match inflate_blocks fuel rest with
              | Some more => Some (data ++ more)
              | None => None
              end
            else None
      | _ => None
      end
  end.

Definition inflate (z : list byte) : option (list byte) :=
  inflate_blocks (S (length z)) z.

Definition flate_Write (data : list byte) : list byte + error :=
  inl (deflate data).

End stored.

(** ** What a target's Rotate reports *)

(** [done] is true and the error is [nil]. *)
Definition rotated_ok (res : bool * goerror) : bool :=
  match res with
  | (done, None) => done
  | (_, Some _) => false
  end.

(** ** Reading a metadata snapshot *)

(** The row the snapshot holds for [(eventName, metadataType)], if any. *)
Definition stored_row (d : eventmetadata.DynamicLoader)
  (eventName metadataType : string) : option eventmetadata.EventMetadataRow :=
  match eventmetadata.Metadata (eventmetadata.configs d) !! eventName with
  | Some eventMetadata => eventMetadata !! metadataType
  | None => None
  end.

(** An error made by [errors.New] or [fmt.Errorf]: it has no type of its
    own that a caller could switch on. *)
Definition is_errorString (e : error) : bool :=
  match e with
  | ErrorString _ | Errorf _ _ => true
  | _ => false
  end.

(** The three cases of [GetMetadataValueByType] read as independent rules:
    a stored row is returned, an unknown type is an invalid-type error, an
    absent row is an error of a type of its own. *)
Definition metadata_rules (d : eventmetadata.DynamicLoader)
  (eventName metadataType : string) : Prop :=
  let res := eventmetadata.GetMetadataValueByType d eventName metadataType in
  (forall row, stored_row d eventName metadataType = Some row ->
     res = (eventmetadata.MetadataValue row, None)) /\
  (metadataType <> eventmetadata.COMMENT ->
   metadataType <> eventmetadata.EDGE_TYPE ->
   exists what, res = (""%string, Some (ErrInvalidMetadataType what))) /\
  (stored_row d eventName metadataType = None ->
   exists e, res.2 = Some e /\ is_errorString e = false).

(** The snapshot of the processor tests, and one with a row under a type
    that is neither [COMMENT] nor [EDGE_TYPE]. *)
Definition test_metadata : eventmetadata.DynamicLoader :=
  {| eventmetadata.configs :=
       {| eventmetadata.Metadata :=
            {[ "test-event"%string :=
                 {[ "edge_type"%string :=
                      {| eventmetadata.MetadataValue := "internal" |};
                    "comment"%string :=
                      {| eventmetadata.MetadataValue := "test comment" |} ]};
               "login"%string := ∅ ]} |} |}.

Definition owner_metadata : eventmetadata.DynamicLoader :=
  {| eventmetadata.configs :=
       {| eventmetadata.Metadata :=
            {[ "login"%string :=
                 {[ "owner"%string :=
                      {| eventmetadata.MetadataValue := "identity" |} ]} ]} |} |}.

(** ** Reading the transformer's output *)

(** What [column.Format] returns for each column in turn, the state being
    threaded from one column to the next: outbound name, value, error. *)
Fixpoint formatted {St : Type} (columns : list (transformer.RedshiftType St))
  (temp : gmap string transformer.value)
  : transformer.M St (list (string * string * goerror)) :=
  match columns with
  | [] => transformer.ret []
  | column :: columns =>
      transformer.bind (transformer.Format column temp) (fun out =>
      transformer.bind (formatted columns temp) (fun outs =>
      transformer.ret (out :: outs)))
  end.

Definition out_name (out : string * string * goerror) : string := out.1.1.
Definition out_value (out : string * string * goerror) : string := out.1.2.

(** [v] between two double quotes, nothing escaped. *)
Definition wrapped (v : string) : string :=
  String strconv.dquote (v ++ String strconv.dquote EmptyString).

(** The line as C1 states it for the formatted columns [outs]: every value
    wrapped in double quotes, a TAB between consecutive fields. *)
Definition line_as_stated (outs : list (string * string * goerror))
  (line : string) : Prop :=
  line = String.concat transformer.tab
           (map (fun o => wrapped (out_value o)) outs).

(** The record as C1 states it: the pair of every column with a non-empty
    value is in it, and no column with an empty value has a key in it. *)
Definition record_as_stated (outs : list (string * string * goerror))
  (kv : gmap string string) : Prop :=
  (forall o, In o outs -> out_value o <> EmptyString ->
     kv !! out_name o = Some (out_value o))
  /\ (forall o, In o outs -> out_value o = EmptyString ->
        kv !! out_name o = None).

(** The variables of the column loop after the columns numbered from [n]
    returned [outs]. *)
Fixpoint columns_fold {tables : strconv.PrintTables} (n : nat)
  (outs : list (string * string * goerror))
  (st : transformer.columns_state) : transformer.columns_state :=
  match outs with
  | [] => st
  | (k, v, err) :: outs =>
      columns_fold (S n) outs (transformer.column_done n k v err st)
  end.

(** Fields that each follow a TAB. *)
Fixpoint tab_fields (fields : list string) : string :=
  match fields with
  | [] => EmptyString
  | f :: fields => (transformer.tab ++ f ++ tab_fields fields)%string
  end.

(** A character that [strconv.Quote] copies as it is. *)
Definition plain (c : ascii) : bool :=
  negb (Ascii.eqb c strconv.dquote || Ascii.eqb c strconv.backslash)
  && (32 <=? nat_of_ascii c)%nat && (nat_of_ascii c <? 127)%nat.

Fixpoint all_plain (s : string) : bool :=
  match s with
  | EmptyString => true
  | String c s => plain c && all_plain s
  end.

(** [v] is the value of the last column named [k] that has a non-empty
    value. *)
Definition last_nonempty (outs : list (string * string * goerror))
  (k v : string) : Prop :=
  v <> EmptyString /\
  exists before e after,
    outs = before ++ (k, v, e) :: after /\
    forall v' e', In (k, v', e') after -> v' = EmptyString.

(** Every column named [k] has the empty value. *)
Definition all_empty (outs : list (string * string * goerror)) (k : string)
  : Prop :=
  forall v e, In (k, v, e) outs -> v = EmptyString.

(** ** Sample collaborators

    A JSON codec given by its graph on the documents used below (any other
    document is answered with an error), an in-memory world for the mapping
    transformer, and the schema of the processor tests. *)

Module sample.

(** A JSON string literal of characters that need no escape. *)
Definition jstr (s : string) : string := wrapped s.

(** [{"distinct_id":"a\\b"}]: the value is the three characters a, backslash,
    b. *)
Definition doc_distinct_id : string :=
  ("{" ++ jstr "distinct_id" ++ ":" ++ jstr "a\\b" ++ "}")%string.

(** [{"login":"bob"}] *)
Definition doc_login : string :=
  ("{" ++ jstr "login" ++ ":" ++ jstr "bob" ++ "}")%string.


(** [null] decodes without error and leaves the map nil. *)
Definition doc_null : string := "null".

(** The no-break space U+00A0, encoded. *)
Definition nbsp : string :=
  String "194"%char (String "160"%char EmptyString).

Definition documents
  : list (string * option (gmap string transformer.value)) :=
  [ ("{}"%string, Some ∅);
    (doc_distinct_id,
     Some {[ "distinct_id"%string := transformer.VString "a\b" ]});
    (doc_login, Some {[ "login"%string := transformer.VString "bob" ]});
    (doc_null, None) ].

Definition Decode (b : list byte)
  : option (gmap string transformer.value) + error :=
  match find (fun d => String.eqb d.1 (string_of_list_byte b)) documents with
  | Some d => inl d.2
  | None => inr (ErrorString "json: cannot unmarshal")
  end.

Definition Marshal_nontrackedEvent (event : string) (properties : list byte)
  : list byte + error :=
  inl (list_byte_of_string
         ("{" ++ jstr "event" ++ ":" ++ jstr event ++ ","
          ++ jstr "properties" ++ ":" ++ string_of_list_byte properties
          ++ "}")).

(** An excerpt of the tables of [strconv.IsPrint]: the letters of Latin
    Extended-A and B, U+0100 to U+024F, are printable.  No document above
    holds a rune beyond U+00FF, so no other entry is read. *)
Definition print_tables : strconv.PrintTables :=
  {| strconv.isPrintAboveLatin1 := fun r => (256 <=? r) && (r <=? 591) |}.

Definition json : transformer.JSON :=
  {| transformer.Decode := Decode;
     transformer.Marshal_nontrackedEvent := Marshal_nontrackedEvent |}.

(** The calls that reach the caches and the fetcher. *)
Inductive Call : Type :=
| LocalGet (key : string)
| LocalSet (key val : string)
| RemoteGet (key : string)
| RemoteSet (key val : string)
| FetchInt64 (args : gmap string string).

(** Two caches held in memory, and the calls made so far. *)
Record World : Type := {
  local : gmap string string;
  remote : gmap string string;
  calls : list Call
}.

Definition empty_world : World :=
  {| local := ∅; remote := ∅; calls := [] |}.

Definition LocalCache : transformer.StringCache World :=
  {| transformer.Get := fun key w =>
       (match local w !! key with
        | Some v => (v, None)
        | None => (EmptyString, Some ErrCacheMiss)
        end,
        {| local := local w; remote := remote w;
           calls := calls w ++ [LocalGet key] |});
     transformer.Set_ := fun key val w =>
       (None,
        {| local := <[key := val]> (local w); remote := remote w;
           calls := calls w ++ [LocalSet key val] |}) |}.

Definition RemoteCache : transformer.StringCache World :=
  {| transformer.Get := fun key w =>
       (match remote w !! key with
        | Some v => (v, None)
        | None => (EmptyString, Some ErrCacheMiss)
        end,
        {| local := local w; remote := remote w;
           calls := calls w ++ [RemoteGet key] |});
     transformer.Set_ := fun key val w =>
       (None,
        {| local := local w; remote := <[key := val]> (remote w);
           calls := calls w ++ [RemoteSet key val] |}) |}.

(** A configuration whose fetcher answers [fetch args]. *)
Definition config (fetch : gmap string string -> Z * goerror)
  : transformer.MappingTransformerConfig World :=
  {| transformer.Fetcher_FetchInt64 := fun args w =>
       (fetch args,
        {| local := local w; remote := remote w;
           calls := calls w ++ [FetchInt64 args] |});
     transformer.LocalCache := LocalCache;
     transformer.RemoteCache := RemoteCache;
     transformer.Stats_IncrBy := fun _ _ w => (tt, w) |}.

(** A fetcher that is over its quota. *)
Definition throttled (_ : gmap string string) : Z * goerror :=
  (0, Some ErrTooManyRequests).

(** Two columns of the [login] schema of the processor tests, which sets no
    outbound name: [GetSingleValueTransform("varchar")] on [distinct_id] and
    [GetSingleValueTransform("f@timestamp@unix")] on [time]. *)
Definition login_columns : list (transformer.RedshiftType World) :=
  [ {| transformer.Transformer :=
         transformer.safeColumnTransformer
           (transformer.pure transformer.varcharFormat) 1;
       transformer.InboundName := "distinct_id";
       transformer.OutboundName := EmptyString;
       transformer.SupportingColumns := [] |};
    {| transformer.Transformer :=
         transformer.safeColumnTransformer
           (transformer.pure
              (transformer.genUnixTimeFormat transformer.PST)) 1;
       transformer.InboundName := "time";
       transformer.OutboundName := EmptyString;
       transformer.SupportingColumns := [] |} ].

(** A schema with a [userIDWithMapping] column whose fetcher is
    throttled. *)
Definition mapping_columns : list (transformer.RedshiftType World) :=
  [ {| transformer.Transformer :=
         transformer.genLoginToIDTransformer (config throttled);
       transformer.InboundName := "user_id";
       transformer.OutboundName := "user_id";
       transformer.SupportingColumns := ["login"%string] |} ].

Definition Configs : transformer.SchemaConfigLoader World :=
  {| transformer.GetColumnsForEvent := fun event =>
       if String.eqb event "login" then inl login_columns
       else if String.eqb event "mapped" then inl mapping_columns
       else inr (ErrNotTracked (event ++ " is not being tracked"));
     transformer.GetVersionForEvent := fun event =>
       if String.eqb event "login" then 42 else 0 |}.

Definition redshift : transformer.RedshiftTransformer World :=
  {| transformer.Configs := Configs |}.

Definition event (name : string) (properties : string)
  : parser.MixpanelEvent :=
  {| parser.Pstart := 0;
     parser.EventTime := "1382033155";
     parser.UUID := "uuid1";
     parser.ClientIP := "10.1.40.26";
     parser.Event := name;
     parser.UserAgent := EmptyString;
     parser.Properties := list_byte_of_string properties;
     parser.Failure := reporter.None;
     parser.EdgeType := "internal" |}.

End sample.

(** ** Reading what a call returns *)

(** The value a call returned, if it did not panic. *)
Definition returned {A : Type} (o : transformer.outcome A) : option A :=
  match o with
  | transformer.Returns a => Some a
  | transformer.Panics _ => None
  end.

(** The error among the results of [transform]. *)
Definition result_error
  (r : string * gmap string string * goerror * gmap string Z) : goerror :=
  r.1.2.


(** [transform] gets as far as its store into a nil map: the event has no
    prior failure and a name, it is tracked, and its properties decode to
    the nil map. *)
Definition stores_into_nil_map {St : Type} (codec : transformer.JSON)
  (t : transformer.RedshiftTransformer St) (event : parser.MixpanelEvent)
  : Prop :=
  parser.Failure event = reporter.None /\
  parser.Event event <> EmptyString /\
  (exists columns,
     transformer.GetColumnsForEvent (transformer.Configs t)
       (parser.Event event) = inl columns) /\
  transformer.Decode codec (parser.Properties event) = inl None.

(** C10 as stated, for the outcome of [Consume] on an event: a request is
    returned, and it carries the event's UUID, Properties and Pstart. *)
Definition returns_request_as_stated (event : parser.MixpanelEvent)
  (o : transformer.outcome writer.WriteRequest) : Prop :=
  exists r,
    o = transformer.Returns r /\
    writer.UUID r = parser.UUID event /\
    writer.Source r = parser.Properties event /\
    writer.Pstart r = parser.Pstart event.

(** ** The claims as they are stated, where the code differs *)

(** The whole seconds and the nanoseconds the unix formatter computes from
    a float64. *)
Definition whole_seconds (i : spec_float) : spec_float := float64.Trunc i.

Definition nanoseconds (i : spec_float) : spec_float :=
  float64.mul (float64.sub i (float64.Trunc i)) (float64.of_Z time.Second).

(** [f] is below 1e9 or above 1.314e10. *)
Definition outside_unix_range (f : spec_float) : bool :=
  float64.ltb f (float64.of_Z transformer.timeLowerBound)
  || float64.ltb (float64.of_Z transformer.fiveDigitYearCutoff) f.

(** C5 as stated: the formatter fails exactly when the argument is not a
    number or the number's value is outside the range (a literal that has
    no float64 value counts as outside). *)
Definition unix_fails_as_stated (a : transformer.value) : Prop :=
  (transformer.genUnixTimeFormat transformer.PST [a]).2 <> None <->
  match a with
  | transformer.VNumber t =>
      match strconv.ParseFloat t with
      | inl i => outside_unix_range i = true
      | inr _ => True
      end
  | _ => True
  end.

(** C2 as stated, for the messages a worker receives before Close: when
    entries were submitted and none of them triggers a close by size,
    exactly one glob is emitted, the version byte and a stream that
    inflates to the array of the submitted entries. *)
Definition one_glob_as_stated
  (flate_Write : list byte -> list byte + error)
  (inflate : list byte -> option (list byte))
  (c : globber.GlobberConfig) (msgs : list globber.Msg) : Prop :=
  submitted msgs <> [] ->
  no_size_close (globber.MaxSize c) 0 (submitted msgs) = true ->
  exists z,
    globber.completed (globber.worker flate_Write (globber.New c) msgs)
      = [globber.version :: z] /\
    inflate z = Some (json_array (submitted msgs)).

(** C3 as stated, for the counters [results] of a transform that took the
    world from [w] to [w']: the throttled column is counted under
    tooManyFetchRequests and not under fetch_failure, and no cache was
    written. *)
Definition throttled_as_stated (results : gmap string Z)
  (w w' : sample.World) : Prop :=
  results !! "tooManyFetchRequests"%string = Some 1 /\
  results !! "cache.fetch_failure"%string = None /\
  sample.local w' = sample.local w /\
  sample.remote w' = sample.remote w.



(** ** Reading a batcher or globber run *)

(** The entries among the messages of a batcher worker, in order of
    arrival. *)
Definition batcher_submitted (msgs : list batcher.Msg) : list (list byte) :=
  flat_map (fun m => match m with
                     | batcher.Incoming e => [e]
                     | batcher.TimerC => []
                     end) msgs.

(** The combined size of the entries of a batch. *)
Definition batch_size (batch : list (list byte)) : Z :=
  fold_right (fun e n => Z.of_nat (length e) + n) 0 batch.

(** What [add] and [complete] keep true: the completed batches followed by
    the pending entries are the entries received so far, [pendingSize] is
    the size of the pending entries, and every batch, completed or pending,
    is within [MaxSize] or holds a single entry. *)
Definition batcher_run (c : batcher.Config) (sub : list (list byte))
  (b : batcher.Batcher)
  : Prop :=
  batcher.config b = c /\
  List.concat (batcher.completed b) ++ batcher.pending b = sub /\
  batcher.pendingSize b = batch_size (batcher.pending b) /\
  (batch_size (batcher.pending b) <= batcher.MaxSize c \/
   (length (batcher.pending b) <= 1)%nat) /\
  Forall (fun batch =>
            batch_size batch <= batcher.MaxSize c \/ exists e, batch = [e])
    (batcher.completed b).

(** A run of entries stays within the size the globber aims at: the array
    under construction has at most [MaxSize + 1] bytes, or it holds a single
    entry. *)
Definition glob_fits (c : globber.GlobberConfig) (es : list (list byte))
  : Prop :=
  Z.of_nat (length (globber.prefix :: elements es)) <= globber.MaxSize c + 1
  \/ exists e, es = [e].

(** [glob] is the version byte and a deflate stream of the array of the
    entries [es], which are at least one and fit. *)
Definition glob_of (inflate : list byte -> option (list byte))
  (c : globber.GlobberConfig) (glob : list byte) (es : list (list byte))
  : Prop :=
  es <> [] /\ glob_fits c es /\
  exists z, glob = globber.version :: z /\ inflate z = Some (json_array es).

(** What a globber holds after the entries [sub]: the completed globs are
    those of the runs [ess], the buffer is the array of the run [cur] under
    construction, and the runs make up [sub]. *)
Definition globber_runs (inflate : list byte -> option (list byte))
  (c : globber.GlobberConfig) (sub : list (list byte)) (g : globber.Globber)
  : Prop :=
  globber.config g = c /\
  exists ess cur,
    Forall2 (glob_of inflate c) (globber.completed g) ess /\
    ((cur = [] /\ globber.pending g = []) \/
     (cur <> [] /\ glob_fits c cur /\
      globber.pending g = globber.prefix :: elements cur)) /\
    List.concat ess ++ cur = sub.

(** ** Reading a run of the metadata loader *)

Section LoaderRuns.

Context {F Reader : Type}.
Variable Fetch : F -> (Reader + error) * F.
Variable ReadAll : Reader -> list byte + error.
Variable Unmarshal :
  list byte -> gmap string (gmap string eventmetadata.EventMetadataRow) + error.

Local Abbreviation pull := (config_loader.pull F Reader Fetch ReadAll Unmarshal).

(** The errors of the pulls that fail before the first one that succeeds,
    among the next [k] pulls. *)
Fixpoint failed_pulls (k : nat) (f : F) : list error :=
  match k with
  | O => []
  | S k' =>
      match pull f with
      | (_, Some e, f') => e :: failed_pulls k' f'
      | (_, None, _) => []
      end
  end.

(** The fetcher after [k] pulls. *)
Fixpoint after_pulls (k : nat) (f : F) : F :=
  match k with
  | O => f
  | S k' => after_pulls k' (pull f).2
  end.

End LoaderRuns.

(** The delays of [k] failed attempts in a row: the wait time once, twice,
    ... [k] times. *)
Definition backoff (waitTime : Z) (k : nat) : list Z :=
  map (fun i => config_loader.int64 (waitTime * Z.of_nat i)) (seq 1 k).

(** The ticks that [Crank] handles: those before the first [Closer]. *)
Fixpoint ticks_handled (signals : list config_loader.Signal) : nat :=
  match signals with
  | [] => O
  | config_loader.Closer :: _ => O
  | config_loader.TickC :: rest => S (ticks_handled rest)
  end.

(** ** A sample fetcher

    The state counts the calls of [Fetch]; the first [outage] calls fail
    with a connect timeout, the later ones return a document that decodes
    to [test_metadata]. *)

Module flaky.

Definition Fetch (outage : nat) (calls : nat)
  : (list byte + error) * nat :=
  if (calls <? outage)%nat then (inr ConnectTimeoutError, S calls)
  else (inl [], S calls).

Definition ReadAll (r : list byte) : list byte + error := inl r.

Definition Unmarshal (b : list byte)
  : gmap string (gmap string eventmetadata.EventMetadataRow) + error :=
  inl (eventmetadata.Metadata (eventmetadata.configs test_metadata)).

Definition world : config_loader.World nat :=
  {| config_loader.fetcher := O;
     config_loader.slept := [];
     config_loader.timings := [] |}.

End flaky.

(** ** Reading the counters of the column loop *)

(** [results[stat]], zero when the key is absent. *)
Definition counter (results : gmap string Z) (stat : string) : Z :=
  default 0 (results !! stat).

(** ** Reading a kinsumer configuration *)

Definition setting_value (s : consumer.Setting) : Z :=
  match s with
  | consumer.WithThrottleDelay d => d
  | consumer.WithCommitFrequency d => d
  | consumer.WithShardCheckFrequency d => d
  | consumer.WithBufferSize n => n
  end.

(** The four settings a [consumer.Config] asks for, in the order in which
    [configToKinsumerConfig] reads them. *)
Definition requested (ParseDuration : string -> Z * goerror)
  (config : consumer.Config) : list consumer.Setting :=
  [ consumer.WithThrottleDelay
      (consumer.configEntryToDuration ParseDuration
         (consumer.ThrottleDelay config)).1;
    consumer.WithCommitFrequency
      (consumer.configEntryToDuration ParseDuration
         (consumer.CommitFrequency config)).1;
    consumer.WithShardCheckFrequency
      (consumer.configEntryToDuration ParseDuration
         (consumer.ShardCheckFrequency config)).1;
    consumer.WithBufferSize (consumer.BufferSize config) ].

Definition positive_setting (s : consumer.Setting) : bool :=
  0 <? setting_value s.

(** * Properties *)

(** ** Facts about the batcher *)

Section BatcherFacts.
Import batcher.

Lemma complete_batches_nonempty b :
  batches_nonempty b -> batches_nonempty (complete b).
Proof.
  unfold batches_nonempty, complete. intros H.
  destruct (pending b) as [|e es] eqn:E; [exact H|]. cbn.
  apply Forall_app. split; [exact H|].
  constructor; [discriminate | constructor].
Qed.

Lemma add_batches_nonempty e b :
  batches_nonempty b -> batches_nonempty (add e b).
Proof.
  intros H. unfold add.
  destruct (MaxSize (config b) <? _); unfold batches_nonempty; cbn;
    [apply complete_batches_nonempty|]; exact H.
Qed.

Lemma step_batches_nonempty b m :
  batches_nonempty b -> batches_nonempty (step b m).
Proof.
  destruct m; cbn; auto using complete_batches_nonempty, add_batches_nonempty.
Qed.

Lemma worker_batches_nonempty msgs b :
  batches_nonempty b -> batches_nonempty (worker b msgs).
Proof.
  unfold worker. revert b.
  induction msgs as [|m msgs IH]; intros b H; cbn.
  - now apply complete_batches_nonempty.
  - apply IH. now apply step_batches_nonempty.
Qed.

End BatcherFacts.

(** ** Facts about the globber *)

Section GlobberFacts.
Import globber.

Variable flate_Write : list byte -> list byte + error.
Variable inflate : list byte -> option (list byte).

(** The compressor writes into memory and does not fail, and inflating its
    output gives the input back. *)
Hypothesis flate_roundtrip :
  forall b, exists z, flate_Write b = inl z /\ inflate z = Some b.

Lemma elements_snoc es e :
  es <> [] ->
  elements (es ++ [e]) = elements es ++ separator :: e.
Proof.
  destruct es as [|e0 rest]; [congruence|]. intros _. cbn.
  rewrite map_app, concat_app. cbn.
  now rewrite app_nil_r, <- app_assoc.
Qed.

Local Abbreviation globber_inv := (globber_invariant inflate).

Lemma glob_ok_mono sub sub' glob :
  incl sub sub' -> glob_ok inflate sub glob -> glob_ok inflate sub' glob.
Proof.
  intros Hi (z & es & -> & Hz & Hne & Hes).
  exists z, es. repeat split; auto. eapply incl_tran; eauto.
Qed.

Lemma globber_inv_mono sub sub' g :
  incl sub sub' -> globber_inv sub g -> globber_inv sub' g.
Proof.
  intros Hi [Hp Hc]. split.
  - destruct Hp as [Hp | (es & Hne & Hes & Hp)]; [now left|right].
    exists es. repeat split; auto. eapply incl_tran; eauto.
  - eapply Forall_impl; [exact Hc|]. intros glob. now apply glob_ok_mono.
Qed.

(** Closing an array under construction emits exactly one glob and empties
    the buffer. *)
Lemma complete_open g es :
  es <> [] ->
  pending g = prefix :: elements es ->
  exists z,
    inflate z = Some (json_array es) /\
    complete flate_Write g =
      (None, {| config := config g; pending := [];
                completed := completed g ++ [version :: z] |}).
Proof.
  intros Hne Hp. unfold complete, _complete. rewrite Hp. cbn [pending config completed].
  destruct (flate_roundtrip ((prefix :: elements es) ++ [postfix])) as (z & Hz & Hi).
  rewrite Hz. exists z. split; [exact Hi | reflexivity].
Qed.

Lemma complete_empty g :
  pending g = [] -> complete flate_Write g = (None, g).
Proof. intros Hp. unfold complete. now rewrite Hp. Qed.

Lemma complete_inv sub g :
  globber_inv sub g ->
  globber_inv sub (snd (complete flate_Write g)) /\
  pending (snd (complete flate_Write g)) = [] /\
  fst (complete flate_Write g) = None /\
  config (snd (complete flate_Write g)) = config g.
Proof.
  intros [[Hp | (es & Hne & Hes & Hp)] Hc].
  - rewrite (complete_empty g Hp). cbn. repeat split; auto. now left.
  - destruct (complete_open g es Hne Hp) as (z & Hz & ->). cbn.
    repeat split; auto; [now left|].
    apply Forall_app. split; [exact Hc|].
    constructor; [|constructor]. exists z, es. auto.
Qed.

Lemma write_inv sub e g :
  globber_inv sub g -> globber_inv (sub ++ [e]) (write e g).
Proof.
  intros [Hp Hc]. split.
  - right. unfold write. destruct Hp as [Hp | (es & Hne & Hes & Hp)].
    + exists [e]. rewrite Hp. cbn. rewrite app_nil_r.
      split; [discriminate | split; [|reflexivity]].
      intros x [<- | []]. apply in_or_app. right. now left.
    + exists (es ++ [e]). rewrite Hp. cbn [pending].
      split; [|split].
      * destruct es; discriminate.
      * apply incl_app; [now apply incl_appl|].
        apply incl_appr, incl_refl.
      * rewrite elements_snoc by assumption. cbn. now rewrite <- app_assoc.
  - cbn. eapply Forall_impl; [exact Hc|].
    intros glob. apply glob_ok_mono. now apply incl_appl.
Qed.

Lemma add_inv sub e g :
  globber_inv sub g -> globber_inv (sub ++ [e]) (snd (add flate_Write e g)).
Proof.
  intros Hg. unfold add.
  destruct (MaxSize (config g) <? _).
  - destruct (complete_inv sub g Hg) as (Hg' & _ & Hnone & _).
    destruct (complete flate_Write g) as [[err|] g'] eqn:E; cbn in *;
      [discriminate|].
    now apply write_inv.
  - now apply write_inv.
Qed.

Lemma step_inv sub m g :
  globber_inv sub g ->
  globber_inv (sub ++ submitted [m]) (step flate_Write g m).
Proof.
  intros Hg. destruct m as [e|]; cbn.
  - now apply add_inv.
  - rewrite app_nil_r. now apply complete_inv.
Qed.

Lemma submitted_cons m msgs :
  submitted (m :: msgs) = submitted [m] ++ submitted msgs.
Proof. unfold submitted. cbn. now rewrite app_nil_r. Qed.

Lemma fold_step_inv msgs sub g :
  globber_inv sub g ->
  globber_inv (sub ++ submitted msgs) (fold_left (step flate_Write) msgs g).
Proof.
  revert sub g. induction msgs as [|m msgs IH]; intros sub g Hg.
  - cbn. now rewrite app_nil_r.
  - rewrite submitted_cons, app_assoc. cbn [fold_left].
    apply IH. now apply step_inv.
Qed.

Lemma worker_globs_ok c msgs :
  Forall (glob_ok inflate (submitted msgs))
    (completed (worker flate_Write (New c) msgs)).
Proof.
  unfold worker.
  assert (H0 : globber_inv [] (New c)) by (split; [now left | constructor]).
  apply (fold_step_inv msgs) in H0. cbn [app] in H0.
  now destruct (complete_inv _ _ H0) as ([_ Hc] & _).
Qed.

(** Adding entries without a size-triggered close extends the array under
    construction and completes nothing. *)
Lemma fold_add_open es : forall g done,
  done <> [] ->
  pending g = prefix :: elements done ->
  no_size_close (MaxSize (config g)) (Z.of_nat (length (pending g))) es = true ->
  let g' := fold_left (step flate_Write) (map Incoming es) g in
  pending g' = prefix :: elements (done ++ es) /\
  completed g' = completed g /\ config g' = config g.
Proof.
  induction es as [|e es IH]; intros g done Hne Hp Hfit; cbn.
  - now rewrite app_nil_r.
  - cbn in Hfit. apply andb_prop in Hfit as [Hsz Hfit].
    assert (Hadd : add flate_Write e g = (None, write e g)).
    { unfold add.
      destruct (MaxSize (config g) <? _) eqn:E; [|reflexivity].
      apply Z.ltb_lt in E.
      apply orb_prop in Hsz as [Hsz | Hz]; [apply Z.leb_le in Hsz; lia|].
      apply Z.eqb_eq in Hz. rewrite Hp in Hz. cbn [length] in Hz. lia. }
    rewrite Hadd. cbn [snd].
    assert (Hw : pending (write e g) = prefix :: elements (done ++ [e])).
    { unfold write. rewrite Hp. cbn [pending].
      rewrite elements_snoc by assumption. cbn. now rewrite <- app_assoc. }
    specialize (IH (write e g) (done ++ [e])).
    destruct IH as (IH1 & IH2 & IH3).
    + destruct done; discriminate.
    + exact Hw.
    + cbn [config write]. rewrite Hw.
      replace (Z.of_nat (length (prefix :: elements (done ++ [e]))))
        with (Z.of_nat (length (pending g)) + Z.of_nat (length e) + 1);
        [exact Hfit|].
      rewrite Hp, elements_snoc by assumption.
      cbn [length]. rewrite length_app. cbn [length]. lia.
    + rewrite <- app_assoc in IH1. cbn in IH1. auto.
Qed.

End GlobberFacts.

(** ** The stored-block coder inflates what it deflates *)

Section StoredFacts.
Import stored.

Lemma byte_of_N_to_N n : (n < 256)%N -> Byte.to_N (byte_of_N n) = n.
Proof.
  intros Hn. unfold byte_of_N.
  destruct (Byte.of_N n) as [b|] eqn:E.
  - now apply Byte.to_of_N.
  - apply Byte.of_N_None_iff in E. lia.
Qed.

Lemma header_len len :
  (len <= 65535)%N ->
  (Byte.to_N (byte_of_N (len mod 256))
   + 256 * Byte.to_N (byte_of_N (len / 256)) = len)%N.
Proof.
  intros Hl.
  assert (len / 256 < 256)%N by (apply N.Div0.div_lt_upper_bound; lia).
  assert (len mod 256 < 256)%N by (apply N.mod_lt; lia).
  rewrite !byte_of_N_to_N by assumption.
  pose proof (N.div_mod len 256) as Hdm.
  remember (len / 256)%N as q. remember (len mod 256)%N as r.
  specialize (Hdm ltac:(discriminate)). lia.
Qed.

Lemma header_nlen len :
  (len <= 65535)%N ->
  (Byte.to_N (byte_of_N (255 - len mod 256))
   + 256 * Byte.to_N (byte_of_N (255 - len / 256)) = 65535 - len)%N.
Proof.
  intros Hl.
  assert (len / 256 < 256)%N by (apply N.Div0.div_lt_upper_bound; lia).
  assert (len mod 256 < 256)%N by (apply N.mod_lt; lia).
  assert (Hsub : forall k, (255 - k < 256)%N).
  { intros k. apply N.le_lt_trans with 255%N; [apply N.le_sub_l | reflexivity]. }
  rewrite !byte_of_N_to_N by apply Hsub.
  pose proof (N.div_mod len 256) as Hdm.
  remember (len / 256)%N as q. remember (len mod 256)%N as r.
  specialize (Hdm ltac:(discriminate)). lia.
Qed.

(** Reading one block written by [header]. *)
Lemma inflate_block fuel final len data tail :
  (len <= 65535)%N ->
  N.of_nat (length data) = len ->
  inflate_blocks (S fuel) (header final len ++ data ++ tail) =
    if final then match tail with [] => Some data | _ :: _ => None end
    else match inflate_blocks fuel tail with
         | Some more => Some (data ++ more)
         | None => None
         end.
Proof.
  intros Hl Hd. unfold header. cbn [app inflate_blocks].
  rewrite header_len, header_nlen by assumption.
  replace (len + (65535 - len) =? 65535)%N with true
    by (symmetry; apply N.eqb_eq; lia).
  cbn [negb].
  replace (N.of_nat (length (data ++ tail)) <? len)%N with false
    by (symmetry; apply N.ltb_ge; rewrite length_app; lia).
  assert (Hn : N.to_nat len = length data) by lia.
  rewrite Hn, firstn_app, Nat.sub_diag, firstn_all, skipn_app, Nat.sub_diag,
    skipn_all.
  cbn [firstn skipn app]. rewrite app_nil_r.
  destruct final; reflexivity.
Qed.

Lemma inflate_deflate_blocks fuel : forall data fuel2,
  (length data <= fuel)%nat -> (fuel < fuel2)%nat ->
  inflate_blocks fuel2 (deflate_blocks fuel data) = Some data.
Proof.
  induction fuel as [|fuel IH]; intros data fuel2 Hd Hf;
    destruct fuel2 as [|fuel2]; try lia.
  - destruct data; [|cbn in Hd; lia].
    cbn [deflate_blocks].
    rewrite <- (app_nil_r (header true 0)).
    change (header true 0 ++ []) with (header true 0 ++ [] ++ @nil byte).
    now rewrite inflate_block.
  - cbn [deflate_blocks].
    destruct (N.of_nat (length data) <=? block_max)%N eqn:E.
    + apply N.leb_le in E. unfold block_max in E.
      rewrite <- (app_nil_r data) at 2.
      rewrite inflate_block by (auto; lia). reflexivity.
    + apply N.leb_gt in E. unfold block_max in E.
      set (B := N.to_nat block_max) in *.
      assert (HB : N.of_nat B = 65535%N) by (subst B; unfold block_max; lia).
      rewrite inflate_block.
      * rewrite IH; [now rewrite firstn_skipn| |lia].
        rewrite length_skipn. lia.
      * unfold block_max. lia.
      * rewrite length_firstn. unfold block_max. lia.
Qed.

Lemma deflate_blocks_length fuel : forall data,
  (length data <= fuel)%nat ->
  (length data <= length (deflate_blocks fuel data))%nat.
Proof.
  induction fuel as [|fuel IH]; intros data Hd; cbn [deflate_blocks].
  - lia.
  - destruct (N.of_nat (length data) <=? block_max)%N eqn:E.
    + rewrite length_app. lia.
    + apply N.leb_gt in E. unfold block_max in E.
      set (B := N.to_nat block_max) in *.
      assert (HB : N.of_nat B = 65535%N) by (subst B; unfold block_max; lia).
      rewrite !length_app, length_firstn.
      specialize (IH (skipn B data)). rewrite length_skipn in IH. lia.
Qed.

Lemma inflate_deflate data : inflate (deflate data) = Some data.
Proof.
  unfold inflate, deflate. apply inflate_deflate_blocks; [lia|].
  pose proof (deflate_blocks_length (length data) data). lia.
Qed.

Lemma stored_roundtrip :
  forall b, exists z, flate_Write b = inl z /\ inflate z = Some b.
Proof.
  intros b. exists (deflate b). split; [reflexivity | apply inflate_deflate].
Qed.

End StoredFacts.

(** ** Facts about Multee.Rotate *)

Section MulteeFacts.
Import writer.

Variable W : Type.
Variable SpadeWriter_Rotate : W -> (bool * goerror) * W.

Local Abbreviation body := (Rotate_body W SpadeWriter_Rotate).

Lemma Rotate_body_fold order : forall r0,
  let r := fold_left body order r0 in
  rotated W r = rotated W r0 ++ order.*1 /\
  allDone W r =
    allDone W r0
    && forallb (fun kw => rotated_ok (SpadeWriter_Rotate kw.2).1) order /\
  (err W r0 = None -> err W r = None).
Proof.
  induction order as [|[k w] order IH]; intros r0.
  - cbn. now rewrite app_nil_r, andb_true_r.
  - cbn [fold_left]. cbn zeta.
    destruct (IH (body r0 (k, w))) as (IH1 & IH2 & IH3).
    rewrite IH1, IH2. clear IH1 IH2.
    assert (Hb : rotated W (body r0 (k, w)) = rotated W r0 ++ [k] /\
                 allDone W (body r0 (k, w)) =
                   allDone W r0 && rotated_ok (SpadeWriter_Rotate w).1 /\
                 err W (body r0 (k, w)) = None).
    { unfold Rotate_body.
      destruct (SpadeWriter_Rotate w) as [[done [e|]] w']; cbn;
        repeat split; now rewrite ?andb_false_r. }
    destruct Hb as (Hb1 & Hb2 & Hb3). rewrite Hb1, Hb2.
    repeat split.
    + now rewrite <- app_assoc.
    + cbn. now rewrite andb_assoc.
    + intros _. now apply IH3.
Qed.

Lemma Rotate_body_targets order : forall r0 k,
  NoDup order.*1 ->
  targets W (fold_left body order r0) !! k =
    match (list_to_map order : gmap string W) !! k with
    | Some w => Some (SpadeWriter_Rotate w).2
    | None => targets W r0 !! k
    end.
Proof.
  induction order as [|[k1 w1] order IH]; intros r0 k Hnd; cbn.
  - now rewrite lookup_empty.
  - apply NoDup_cons in Hnd as [Hk1 Hnd].
    rewrite IH by assumption.
    destruct (decide (k = k1)) as [->|Hne].
    + rewrite lookup_insert_eq.
      rewrite (not_elem_of_list_to_map_1 order k1 Hk1).
      unfold Rotate_body. destruct (SpadeWriter_Rotate w1) as [[done e] w']. cbn.
      apply lookup_insert_eq.
    + rewrite lookup_insert_ne by congruence.
      destruct (list_to_map order !! k); [reflexivity|].
      unfold Rotate_body. destruct (SpadeWriter_Rotate w1) as [[done e] w']. cbn.
      now rewrite lookup_insert_ne by congruence.
Qed.

End MulteeFacts.

(** ** Batcher and Globber: the claims *)

(** C2, as amended.  Entries submitted to a Globber and followed by Close,
    none of them triggering a close by size and no timer expiring after the
    first of them was submitted, are emitted as exactly one glob: the
    version byte 1, then a deflate stream that inflates to the JSON array
    of the entries in submission order.  (Expiries before the first entry
    find the buffer empty and do nothing.) *)
Theorem globber_roundtrip
  (flate_Write : list byte -> list byte + error)
  (inflate : list byte -> option (list byte))
  (c : globber.GlobberConfig) (idle : nat) (es : list (list byte)) :
  (forall b, exists z, flate_Write b = inl z /\ inflate z = Some b) ->
  es <> [] ->
  no_size_close (globber.MaxSize c) 0 es = true ->
  exists z,
    globber.completed
      (globber.worker flate_Write (globber.New c)
         (replicate idle globber.TimerC ++ map globber.Incoming es))
      = [x01 :: z] /\
    inflate z = Some (json_array es).
Proof.
  intros Hrt Hne Hfit. destruct es as [|e es]; [congruence|]. clear Hne.
  cbn [no_size_close] in Hfit. apply andb_prop in Hfit as [_ Hfit].
  unfold globber.worker. rewrite fold_left_app.
  assert (Hidle : fold_left (globber.step flate_Write)
                    (replicate idle globber.TimerC) (globber.New c)
                  = globber.New c).
  { induction idle as [|idle IH]; [reflexivity|]. cbn [replicate fold_left].
    exact IH. }
  rewrite Hidle. cbn [map fold_left].
  assert (Hfirst : globber.step flate_Write (globber.New c) (globber.Incoming e)
                   = globber.write e (globber.New c)).
  { cbn. unfold globber.add. cbn.
    now destruct (globber.MaxSize c <? _). }
  rewrite Hfirst.
  set (g1 := globber.write e (globber.New c)).
  assert (Hp1 : globber.pending g1 = globber.prefix :: elements [e])
    by (cbn; now rewrite app_nil_r).
  destruct (fold_add_open flate_Write es g1 [e]) as (Hp & Hc & Hcfg).
  - discriminate.
  - exact Hp1.
  - rewrite Hp1. cbn [elements map concat length].
    rewrite app_nil_r. cbn [globber.config g1 globber.write globber.New].
    replace (Z.of_nat (S (length e))) with (0 + Z.of_nat (length e) + 1) by lia.
    exact Hfit.
  - cbn [app] in Hp.
    destruct (complete_open flate_Write inflate Hrt _ (e :: es)
                ltac:(discriminate) Hp) as (z & Hz & Hcomp).
    rewrite Hcomp. cbn [snd globber.completed]. rewrite Hc.
    exists z. split; [reflexivity | exact Hz].
Qed.

Lemma globber_roundtrip_witness :
  exists z,
    globber.completed
      (globber.worker stored.flate_Write
         (globber.New {| globber.MaxSize := 1024;
                         globber.MaxAge := "1s";
                         globber.BufferLength := 1024 |})
         (replicate 2 globber.TimerC ++
          map globber.Incoming
            [list_byte_of_string "10"; list_byte_of_string "20";
             list_byte_of_string "30"]))
      = [x01 :: z] /\
    stored.inflate z
      = Some (json_array [list_byte_of_string "10"; list_byte_of_string "20";
                          list_byte_of_string "30"]).
Proof.
  apply globber_roundtrip;
    [exact stored_roundtrip | discriminate | reflexivity].
Defined.

(** C2 as stated fails on the code: when the timer expires between two
    Submits, the entries before it are emitted as a glob of their own.
    Three small entries with an expiry after the first come out as the two
    globs of [[10]] and [[20,30]]. *)
Lemma globber_roundtrip_counterexample :
  let c := {| globber.MaxSize := 1024; globber.MaxAge := "1s";
              globber.BufferLength := 1024 |} in
  let msgs := [globber.Incoming (list_byte_of_string "10"); globber.TimerC;
               globber.Incoming (list_byte_of_string "20");
               globber.Incoming (list_byte_of_string "30")] in
  map (fun glob => stored.inflate (tl glob))
    (globber.completed
       (globber.worker stored.flate_Write (globber.New c) msgs))
  = [Some (list_byte_of_string "[10]");
     Some (list_byte_of_string "[20,30]")] /\
  ~ one_glob_as_stated stored.flate_Write stored.inflate c msgs.
Proof.
  cbn zeta. split; [vm_compute; reflexivity|].
  intros H. destruct H as (z & Hz & _).
  - discriminate.
  - reflexivity.
  - vm_compute in Hz. discriminate Hz.
Qed.

(** The glob of the three entries with the stored-block coder: the version
    byte, a final stored block of ten bytes, the array. *)
Example stored_glob :
  globber.completed
    (globber.worker stored.flate_Write
       (globber.New {| globber.MaxSize := 1024;
                       globber.MaxAge := "1s";
                       globber.BufferLength := 1024 |})
       (map globber.Incoming
          [list_byte_of_string "10"; list_byte_of_string "20";
           list_byte_of_string "30"]))
  = [[x01; x01; x0a; x00; xf5; xff] ++ list_byte_of_string "[10,20,30]"].
Proof. vm_compute. reflexivity. Qed.

(** An entry that does not fit next to the pending ones closes the glob
    first and opens the next one. *)
Example size_triggered_close :
  map (fun glob => stored.inflate (tl glob))
    (globber.completed
       (globber.worker stored.flate_Write
          (globber.New {| globber.MaxSize := 6;
                          globber.MaxAge := "1s";
                          globber.BufferLength := 1024 |})
          (map globber.Incoming
             [list_byte_of_string "10"; list_byte_of_string "20";
              list_byte_of_string "30"])))
  = [Some (list_byte_of_string "[10,20]");
     Some (list_byte_of_string "[30]")].
Proof. vm_compute. reflexivity. Qed.

(** C6.  Whatever entries and timer expiries the workers receive before
    Close, every batch handed to the Batcher's completor holds at least one
    entry, and every glob handed to the Globber's completor inflates to the
    JSON array of at least one submitted entry. *)
Theorem completors_never_get_empty
  (flate_Write : list byte -> list byte + error)
  (inflate : list byte -> option (list byte))
  (bc : batcher.Config) (bmsgs : list batcher.Msg)
  (gc : globber.GlobberConfig) (gmsgs : list globber.Msg) :
  (forall b, exists z, flate_Write b = inl z /\ inflate z = Some b) ->
  Forall (fun batch => batch <> [])
    (batcher.completed (batcher.worker (batcher.New bc) bmsgs)) /\
  Forall (glob_ok inflate (submitted gmsgs))
    (globber.completed (globber.worker flate_Write (globber.New gc) gmsgs)).
Proof.
  intros Hrt. split.
  - apply worker_batches_nonempty. constructor.
  - now apply worker_globs_ok.
Qed.

Lemma completors_never_get_empty_witness :
  Forall (fun batch => batch <> [])
    (batcher.completed
       (batcher.worker
          (batcher.New {| batcher.MaxSize := 3; batcher.MaxAge := "1s";
                          batcher.BufferLength := 8 |})
          [batcher.TimerC; batcher.Incoming (list_byte_of_string "10");
           batcher.Incoming (list_byte_of_string "20"); batcher.TimerC;
           batcher.TimerC])) /\
  Forall (glob_ok stored.inflate
            (submitted [globber.TimerC;
                        globber.Incoming (list_byte_of_string "10");
                        globber.Incoming (list_byte_of_string "20");
                        globber.TimerC; globber.TimerC]))
    (globber.completed
       (globber.worker stored.flate_Write
          (globber.New {| globber.MaxSize := 3; globber.MaxAge := "1s";
                          globber.BufferLength := 8 |})
          [globber.TimerC; globber.Incoming (list_byte_of_string "10");
           globber.Incoming (list_byte_of_string "20"); globber.TimerC;
           globber.TimerC])).
Proof.
  apply completors_never_get_empty. exact stored_roundtrip.
Defined.

(** C8.  [Config.Validate] of the batcher accepts a negative
    [BufferLength]: with a positive [MaxAge] and a positive [MaxSize] it
    returns [nil] for every [BufferLength] below zero. *)
Theorem Validate_accepts_negative_BufferLength
  (ParseDuration : string -> Z + error) (c : batcher.Config) (maxAge : Z) :
  ParseDuration (batcher.MaxAge c) = inl maxAge ->
  0 < maxAge ->
  0 < batcher.MaxSize c ->
  batcher.BufferLength c < 0 ->
  batcher.Validate ParseDuration c = None.
Proof.
  intros Hp Ha Hs Hb. unfold batcher.Validate. rewrite Hp.
  destruct (Z.leb_spec maxAge 0); [lia|].
  destruct (Z.leb_spec (batcher.MaxSize c) 0); [lia|].
  destruct (Z.eqb_spec (batcher.BufferLength c) 0); [lia|].
  reflexivity.
Qed.

Lemma Validate_accepts_negative_BufferLength_witness :
  batcher.Validate (fun _ => inl 1000000000)
    {| batcher.MaxSize := 1; batcher.MaxAge := "1s";
       batcher.BufferLength := -1 |} = None.
Proof.
  apply (Validate_accepts_negative_BufferLength _ _ 1000000000);
    [reflexivity | lia | cbn; lia | cbn; lia].
Defined.

(** The cases in which [Validate] does what its messages say. *)
Lemma Validate_rejects
  (ParseDuration : string -> Z + error) (c : batcher.Config) (maxAge : Z) :
  ParseDuration (batcher.MaxAge c) = inl maxAge ->
  maxAge <= 0 \/ batcher.MaxSize c <= 0 \/ batcher.BufferLength c = 0 ->
  exists e, batcher.Validate ParseDuration c = Some e.
Proof.
  intros Hp H. unfold batcher.Validate. rewrite Hp.
  destruct (Z.leb_spec maxAge 0); [eauto|].
  destruct (Z.leb_spec (batcher.MaxSize c) 0); [eauto|].
  destruct (Z.eqb_spec (batcher.BufferLength c) 0); [eauto|].
  lia.
Qed.

Lemma Validate_accepts_positive
  (ParseDuration : string -> Z + error) (c : batcher.Config) (maxAge : Z) :
  ParseDuration (batcher.MaxAge c) = inl maxAge ->
  0 < maxAge -> 0 < batcher.MaxSize c -> 0 < batcher.BufferLength c ->
  batcher.Validate ParseDuration c = None.
Proof.
  intros Hp Ha Hs Hb. unfold batcher.Validate. rewrite Hp.
  destruct (Z.leb_spec maxAge 0); [lia|].
  destruct (Z.leb_spec (batcher.MaxSize c) 0); [lia|].
  destruct (Z.eqb_spec (batcher.BufferLength c) 0); [lia|].
  reflexivity.
Qed.

(** ** Multee.Rotate: the claim *)

(** C7.  In whatever order the target map is ranged over, [Multee.Rotate]
    calls [Rotate] on every target exactly once, errors or not, leaves each
    target in the state its own [Rotate] produced, returns a [nil] error,
    and returns [true] exactly when every target's [Rotate] returned [true]
    with a [nil] error. *)
Theorem Multee_Rotate_all
  (W : Type) (SpadeWriter_Rotate : W -> (bool * goerror) * W)
  (t : gmap string W) (order : list (string * W)) :
  writer.range_order W t order ->
  let r := writer.Rotate_in W SpadeWriter_Rotate order t in
  writer.rotated W r ≡ₚ (map_to_list t).*1 /\
  (forall k, writer.targets W r !! k
             = (fun w => (SpadeWriter_Rotate w).2) <$> t !! k) /\
  writer.err W r = None /\
  (writer.allDone W r = true <->
   forall k w, t !! k = Some w ->
     exists w', SpadeWriter_Rotate w = ((true, None), w')).
Proof.
  intros Hord r. unfold writer.range_order in Hord.
  assert (Hnd : NoDup order.*1).
  { rewrite Hord. apply NoDup_fst_map_to_list. }
  assert (Hmap : (list_to_map order : gmap string W) = t).
  { rewrite (list_to_map_proper order (map_to_list t) Hnd Hord).
    apply list_to_map_to_list. }
  destruct (Rotate_body_fold W SpadeWriter_Rotate order
              {| writer.allDone := true; writer.err := None;
                 writer.targets := t; writer.rotated := [] |})
    as (Hrot & Hall & Herr).
  fold (writer.Rotate_in W SpadeWriter_Rotate order t) in Hrot, Hall, Herr.
  fold r in Hrot, Hall, Herr. cbn in Hrot, Hall, Herr.
  repeat split.
  - rewrite Hrot. now rewrite Hord.
  - intros k. unfold r, writer.Rotate_in.
    rewrite Rotate_body_targets by assumption. rewrite Hmap. cbn.
    now destruct (t !! k).
  - now apply Herr.
  - rewrite Hall. cbn [andb]. intros Hok k w Hk.
    rewrite forallb_forall in Hok. specialize (Hok (k, w)).
    cbn in Hok.
    destruct (SpadeWriter_Rotate w) as [[done [e|]] w'];
      cbn in Hok.
    + discriminate Hok.
      apply list_elem_of_In. rewrite Hord. now apply elem_of_map_to_list.
    + rewrite Hok; [eauto|].
      apply list_elem_of_In. rewrite Hord. now apply elem_of_map_to_list.
  - intros Hok. rewrite Hall. cbn [andb]. apply forallb_forall.
    intros [k w] Hin. apply list_elem_of_In in Hin.
    rewrite Hord in Hin. apply elem_of_map_to_list in Hin.
    destruct (Hok k w Hin) as (w' & Hw). cbn. now rewrite Hw.
Qed.

Lemma Multee_Rotate_all_witness :
  let Rotate := fun n : nat =>
    ((Nat.even n, if Nat.eqb n 3 then Some (ErrorString "disk full") else None),
     S n) in
  let t : gmap string nat := {[ "a"%string := 2%nat; "b"%string := 3%nat;
                                "c"%string := 4%nat ]} in
  let r := writer.Rotate_in nat Rotate (map_to_list t) t in
  writer.rotated nat r ≡ₚ (map_to_list t).*1 /\
  (forall k, writer.targets nat r !! k = (fun w => (Rotate w).2) <$> t !! k) /\
  writer.err nat r = None /\
  (writer.allDone nat r = true <->
   forall k w, t !! k = Some w -> exists w', Rotate w = ((true, None), w')).
Proof.
  intros Rotate t.
  apply (Multee_Rotate_all nat Rotate t (map_to_list t)).
  unfold writer.range_order. reflexivity.
Defined.

(** ** GetMetadataValueByType: the claim *)

(** C9, as amended.  For a metadata type other than COMMENT and EDGE_TYPE
    the result is the typed invalid-type error, whether or not the snapshot
    holds a row under that type.  For COMMENT and EDGE_TYPE the stored
    MetadataValue is returned when the snapshot holds the row, and when the
    event or the row is absent the error is the plain [errors.New("Not
    found")], which has no type of its own. *)
Theorem GetMetadataValueByType_cases
  (d : eventmetadata.DynamicLoader) (eventName metadataType : string) :
  let res := eventmetadata.GetMetadataValueByType d eventName metadataType in
  (metadataType <> eventmetadata.COMMENT ->
   metadataType <> eventmetadata.EDGE_TYPE ->
   res = (""%string,
          Some (ErrInvalidMetadataType (eventName ++ " is not being tracked"))))
  /\
  (metadataType = eventmetadata.COMMENT \/
   metadataType = eventmetadata.EDGE_TYPE ->
   forall row, stored_row d eventName metadataType = Some row ->
     res = (eventmetadata.MetadataValue row, None))
  /\
  (metadataType = eventmetadata.COMMENT \/
   metadataType = eventmetadata.EDGE_TYPE ->
   stored_row d eventName metadataType = None ->
   res = (""%string, Some (ErrorString "Not found")) /\
   is_errorString (ErrorString "Not found") = true).
Proof.
  cbn zeta. unfold eventmetadata.GetMetadataValueByType, stored_row.
  assert (Hvalid : metadataType = eventmetadata.COMMENT \/
                   metadataType = eventmetadata.EDGE_TYPE ->
                   bool_decide (metadataType <> eventmetadata.COMMENT)
                   && bool_decide (metadataType <> eventmetadata.EDGE_TYPE)
                   = false)
    by (intros [-> | ->]; reflexivity).
  split; [|split].
  - intros H1 H2. now rewrite !bool_decide_eq_true_2.
  - intros Hv row Hrow. rewrite (Hvalid Hv).
    destruct (eventmetadata.Metadata (eventmetadata.configs d) !! eventName);
      [now rewrite Hrow | discriminate].
  - intros Hv Hrow. rewrite (Hvalid Hv). split; [|reflexivity].
    destruct (eventmetadata.Metadata (eventmetadata.configs d) !! eventName);
      [now rewrite Hrow | reflexivity].
Qed.

Lemma GetMetadataValueByType_cases_witness :
  eventmetadata.GetMetadataValueByType test_metadata "test-event" "owner"
    = (""%string,
       Some (ErrInvalidMetadataType "test-event is not being tracked"))
  /\ eventmetadata.GetMetadataValueByType test_metadata "test-event" "edge_type"
     = ("internal"%string, None)
  /\ eventmetadata.GetMetadataValueByType test_metadata "login" "edge_type"
     = (""%string, Some (ErrorString "Not found")).
Proof.
  destruct (GetMetadataValueByType_cases test_metadata "test-event" "owner")
    as (H1 & _ & _).
  destruct (GetMetadataValueByType_cases test_metadata "test-event" "edge_type")
    as (_ & H2 & _).
  destruct (GetMetadataValueByType_cases test_metadata "login" "edge_type")
    as (_ & _ & H3).
  split; [|split].
  - apply H1; discriminate.
  - apply (H2 (or_intror eq_refl) {| eventmetadata.MetadataValue := "internal" |}).
    reflexivity.
  - apply H3; [right|]; reflexivity.
Defined.

(** C9 as stated fails on the code.  With the event present and the row
    absent the error is a plain error string, not an error of a type of its
    own; and a row stored under a type that is neither COMMENT nor EDGE_TYPE
    is not returned. *)
Lemma GetMetadataValueByType_counterexample :
  ~ metadata_rules test_metadata "login" "comment" /\
  ~ metadata_rules owner_metadata "login" "owner".
Proof.
  split.
  - intros (_ & _ & H3).
    destruct (H3 eq_refl) as (e & He & Hty).
    vm_compute in He. injection He as <-. discriminate.
  - intros (H1 & _ & _).
    specialize (H1 {| eventmetadata.MetadataValue := "identity" |} eq_refl).
    vm_compute in H1. discriminate.
Qed.

(** ** The transformer: Consume *)

Section ConsumeFacts.
Import transformer.

Context {St : Type} {tables : strconv.PrintTables}.
Variable codec : JSON.
Variable t : RedshiftTransformer St.



(** [transform] leaves the state as it was when it panics. *)
Lemma transform_panics event (s : St) msg :
  (transform codec t event s).1 = Panics msg ->
  transform codec t event s = (Panics nil_map_assignment, s) /\
  parser.Event event <> EmptyString /\
  (exists columns,
     GetColumnsForEvent (Configs t) (parser.Event event) = inl columns) /\
  Decode codec (parser.Properties event) = inl None.
Proof.
  unfold transform.
  destruct (String.eqb_spec (parser.Event event) EmptyString) as [He|He];
    [discriminate|].
  destruct (GetColumnsForEvent (Configs t) (parser.Event event))
    as [columns|e]; [|discriminate].
  destruct (Decode codec (parser.Properties event)) as [[temp|]|e];
    [|eauto|discriminate].
  unfold bind. destruct (columns_loop 0 columns _ _ s). discriminate.
Qed.


(** Every request [Consume] returns carries the event's UUID, Properties
    and Pstart. *)
Lemma Consume_preserves_identity event (s : St) r :
  (Consume codec t event s).1 = Returns r ->
  writer.UUID r = parser.UUID event /\
  writer.Source r = parser.Properties event /\
  writer.Pstart r = parser.Pstart event.
Proof.
  unfold Consume.
  destruct (parser.Failure event);
    try (cbn; intros [= <-]; repeat split; fail).
  unfold bind.
  destruct (transform codec t event s) as [[[[[line kv] err] res]|msg] s1];
    [|discriminate].
  destruct err as [[]|]; cbn; intros [= <-]; repeat split.
Qed.

(** [Consume] panics exactly when [transform] runs and panics. *)
Lemma Consume_panics event (s : St) :
  (exists msg, (Consume codec t event s).1 = Panics msg) <->
  stores_into_nil_map codec t event.
Proof.
  unfold stores_into_nil_map, Consume. split.
  - intros [msg H].
    destruct (parser.Failure event) eqn:Hf; try discriminate.
    unfold bind in H.
    destruct (transform codec t event s)
      as [[[[[line kv] err] res]|msg'] s1] eqn:Ht.
    + destruct err as [[]|]; discriminate.
    + destruct (transform_panics event s msg') as (_ & He & Hc & Hd);
        [now rewrite Ht|]. auto.
  - intros (Hf & He & [columns Hc] & Hd). rewrite Hf.
    unfold bind, transform.
    destruct (String.eqb_spec (parser.Event event) EmptyString);
      [contradiction|].
    rewrite Hc, Hd. cbn. eauto.
Qed.

End ConsumeFacts.

(** C10.  [Consume] does not return a request for every event: an event
    without prior failure, with a name and tracked, whose properties are
    the document [null], makes [transform] store into a nil map, and
    [Consume] panics with it, the state being as it was.  This is the only
    case: for every other event [Consume] returns a request, which carries
    the event's UUID, the event's Properties as its Source, and the event's
    Pstart. *)
Theorem Consume_returns_or_panics
  (St : Type) (tables : strconv.PrintTables) (codec : transformer.JSON)
  (t : transformer.RedshiftTransformer St)
  (event : parser.MixpanelEvent) (s : St) :
  match transformer.Consume codec t event s with
  | (transformer.Returns r, _) =>
      ~ stores_into_nil_map codec t event /\
      writer.UUID r = parser.UUID event /\
      writer.Source r = parser.Properties event /\
      writer.Pstart r = parser.Pstart event
  | (transformer.Panics msg, s') =>
      stores_into_nil_map codec t event /\
      msg = transformer.nil_map_assignment /\ s' = s
  end.
Proof.
  pose proof (Consume_panics codec t event s) as Hp.
  pose proof (Consume_preserves_identity codec t event s) as Hid.
  destruct (transformer.Consume codec t event s) as [[r|msg] s'] eqn:Hc;
    cbn [fst] in *.
  - split; [|now apply Hid].
    intros Hnil. apply Hp in Hnil as [msg Hmsg]. discriminate.
  - assert (Hnil : stores_into_nil_map codec t event)
      by (apply Hp; eauto).
    split; [exact Hnil|].
    destruct Hnil as (Hf & He & [columns Hcol] & Hd).
    unfold transformer.Consume, transformer.bind, transformer.transform
      in Hc.
    rewrite Hf, Hcol, Hd in Hc.
    destruct (String.eqb_spec (parser.Event event) EmptyString);
      [contradiction|].
    cbn in Hc. now injection Hc as <- <-.
Qed.

Lemma Consume_returns_or_panics_witness :
  transformer.Consume (tables := sample.print_tables) sample.json
    sample.redshift (sample.event "login" sample.doc_null)
    sample.empty_world
  = (transformer.Panics transformer.nil_map_assignment, sample.empty_world).
Proof.
  pose proof (Consume_returns_or_panics sample.World sample.print_tables
                sample.json sample.redshift
                (sample.event "login" sample.doc_null) sample.empty_world)
    as H.
  destruct (transformer.Consume sample.json sample.redshift
              (sample.event "login" sample.doc_null) sample.empty_world)
    as [[r|msg] s'].
  - destruct H as [Hnot _]. exfalso. apply Hnot.
    split; [reflexivity|]. split; [discriminate|].
    split; [exists sample.login_columns; reflexivity | reflexivity].
  - destruct H as (_ & -> & ->). reflexivity.
Defined.

(** C10 as stated fails on the code: for the tracked event [login] with
    the properties [null], no request is returned. *)
Lemma Consume_returns_request_counterexample :
  ~ returns_request_as_stated (sample.event "login" sample.doc_null)
      (transformer.Consume (tables := sample.print_tables) sample.json
         sample.redshift (sample.event "login" sample.doc_null)
         sample.empty_world).1.
Proof. intros (r & H & _). vm_compute in H. discriminate. Qed.




(** ** The unix timestamp formatter *)

(** C5, as amended.  The formatter fails exactly when its argument is not a
    [json.Number], or the number has no float64 value, or the whole seconds
    of that value (its integer part) are below 1e9 or above 1.314e10; a
    value between 1.314e10 and 1.314e10 + 1 is let through.  Otherwise it
    returns the instant of the whole seconds and the nanoseconds of the
    fraction, shown in the given location in the layout
    [2006-01-02 15:04:05.999]. *)
Theorem genUnixTimeFormat_result
  (timezone : time.Location) (a : transformer.value) :
  let r := transformer.genUnixTimeFormat timezone [a] in
  (r.2 <> None <->
   match a with
   | transformer.VNumber t =>
       match strconv.ParseFloat t with
       | inl i => outside_unix_range (whole_seconds i) = true
       | inr _ => True
       end
   | _ => True
   end) /\
  (forall t i,
     a = transformer.VNumber t ->
     strconv.ParseFloat t = inl i ->
     outside_unix_range (whole_seconds i) = false ->
     r = (time.Format_RedshiftDatetimeIngestString
            (time.In (time.Unix (float64.to_int64 (whole_seconds i))
                                (float64.to_int64 (nanoseconds i)))
                     timezone),
          None)).
Proof.
  cbn zeta. unfold transformer.genUnixTimeFormat, transformer.arg0.
  cbn [hd]. unfold whole_seconds, nanoseconds.
  change (fun f : spec_float =>
            float64.ltb f (float64.of_Z transformer.timeLowerBound)
            || float64.ltb (float64.of_Z transformer.fiveDigitYearCutoff) f)
    with outside_unix_range.
  split.
  - destruct a as [ | b | t | str | elems | fields ]; cbn [snd];
      try (split; [intros _; exact I | intros _; discriminate]).
    destruct (strconv.ParseFloat t) as [i | e]; cbn [snd];
      [|split; [intros _; exact I | intros _; discriminate]].
    change (float64.ltb (float64.Trunc i)
              (float64.of_Z transformer.timeLowerBound)
            || float64.ltb (float64.of_Z transformer.fiveDigitYearCutoff)
                 (float64.Trunc i))
      with (outside_unix_range (float64.Trunc i)).
    destruct (outside_unix_range (float64.Trunc i)); cbn [snd]; split.
    + reflexivity.
    + discriminate.
    + intros H. now contradiction H.
    + discriminate.
  - intros t i -> Hp Hin. rewrite Hp.
    change (float64.ltb (float64.Trunc i)
              (float64.of_Z transformer.timeLowerBound)
            || float64.ltb (float64.of_Z transformer.fiveDigitYearCutoff)
                 (float64.Trunc i))
      with (outside_unix_range (float64.Trunc i)).
    rewrite Hin. reflexivity.
Qed.

Lemma genUnixTimeFormat_result_witness :
  transformer.genUnixTimeFormat transformer.PST
    [transformer.VNumber "1382033155.25"]
  = ("2013-10-17 11:05:55.25"%string, None).
Proof.
  destruct (genUnixTimeFormat_result transformer.PST
              (transformer.VNumber "1382033155.25")) as [_ H].
  eapply eq_trans.
  - eapply H; [reflexivity | vm_compute; reflexivity | vm_compute; reflexivity].
  - vm_compute. reflexivity.
Defined.

(** C5 as stated fails on the code: 13140000000.5 is above 1.314e10, and
    the formatter does not fail on it. *)
Lemma genUnixTimeFormat_counterexample :
  ~ unix_fails_as_stated (transformer.VNumber "13140000000.5").
Proof.
  intros [_ H].
  assert (Hfail : (transformer.genUnixTimeFormat transformer.PST
                     [transformer.VNumber "13140000000.5"]).2 <> None)
    by (apply H; vm_compute; reflexivity).
  apply Hfail. vm_compute. reflexivity.
Qed.

(** Around the two bounds: the test is on the whole seconds. *)
Example unix_bounds :
  (transformer.genUnixTimeFormat transformer.PST
     [transformer.VNumber "999999999.9"]).2
    = Some (transformer.genError "Time: unix") /\
  transformer.genUnixTimeFormat transformer.PST
    [transformer.VNumber "1e9"]
    = ("2001-09-08 18:46:40"%string, None) /\
  transformer.genUnixTimeFormat transformer.PST
    [transformer.VNumber "13140000000.5"]
    = ("2386-05-23 01:00:00.5"%string, None) /\
  (transformer.genUnixTimeFormat transformer.PST
     [transformer.VNumber "13140000001"]).2
    = Some (transformer.genError "Time: unix") /\
  (transformer.genUnixTimeFormat transformer.PST
     [transformer.VString "1382033155"]).2
    = Some (transformer.genError "Time: unix").
Proof. vm_compute. repeat split. Qed.

(** The two times of the processor tests. *)
Example unix_1382033155 :
  transformer.genUnixTimeFormat transformer.PST
    [transformer.VNumber "1382033155"]
  = ("2013-10-17 11:05:55"%string, None).
Proof. vm_compute. reflexivity. Qed.

Example unix_1380585602 :
  transformer.genUnixTimeFormat transformer.PST
    [transformer.VNumber "1380585602"]
  = ("2013-09-30 17:00:02"%string, None).
Proof. vm_compute. reflexivity. Qed.

(** ** The mapping transformer under a throttled fetcher *)

(** C3.  The column loop of [transform] has a case for
    [lookup.ErrTooManyRequests] that skips the column and counts it under
    tooManyFetchRequests, but the mapping transformer never lets that error
    through.  When the first argument does not parse as an int64, the
    trimmed login is not empty and misses both caches, and the fetcher
    returns [lookup.ErrTooManyRequests], the transformer returns the empty
    value with [ErrFetchFailure], as for any other fetch error: the state it
    leaves is the one the fetcher left, no [Set] of either cache having run,
    and the column loop skips the column and counts it under
    cache.fetch_failure and skippedColumn, not under tooManyFetchRequests. *)
Theorem throttled_fetch_is_fetch_failure
  (St : Type) (tables : strconv.PrintTables)
  (config : transformer.MappingTransformerConfig St)
  (a0 : transformer.value) (login : string)
  (s0 s1 s2 s3 : St) (c1 c2 : string) (e1 e2 : error) (v : Z) :
  (exists e, transformer.safeParseInt a0 = inr e) ->
  gostrings.TrimSpace login <> EmptyString ->
  transformer.Get (transformer.LocalCache config)
    (gostrings.TrimSpace login) s0 = ((c1, Some e1), s1) ->
  transformer.Get (transformer.RemoteCache config)
    (gostrings.TrimSpace login) s1 = ((c2, Some e2), s2) ->
  transformer.Fetcher_FetchInt64 config
    {[ "login"%string := gostrings.TrimSpace login ]} s2
    = ((v, Some ErrTooManyRequests), s3) ->
  transformer.genLoginToIDTransformer config
    [a0; transformer.VString login] s0
    = ((EmptyString, Some ErrFetchFailure), s3)
  /\
  transformer.tally (Some ErrTooManyRequests)
    = (true, ["tooManyFetchRequests"%string])
  /\
  forall n k st,
    let st' := transformer.column_done n k EmptyString
                 (Some ErrFetchFailure) st in
    transformer.results st'
      = transformer.incr
          (transformer.incr (transformer.results st) "cache.fetch_failure")
          "skippedColumn"
    /\ transformer.results st' !! "tooManyFetchRequests"%string
       = transformer.results st !! "tooManyFetchRequests"%string
    /\ transformer.possibleError st'
       = Some (ErrSkippedColumn "Problem parsing into column")
    /\ transformer.kvOutput st' = transformer.kvOutput st.
Proof.
  intros [e Hparse] Hlogin Hlocal Hremote Hfetch.
  split; [|split; [reflexivity|]].
  - unfold transformer.genLoginToIDTransformer,
      transformer.safeColumnTransformer.
    cbn [length Nat.eqb negb nth]. rewrite Hparse.
    destruct (gostrings.TrimSpace login) as [|c l] eqn:El; [congruence|].
    cbn [String.length Nat.eqb]. unfold transformer.bind.
    rewrite Hlocal, Hremote, Hfetch.
    destruct (decide (ErrTooManyRequests = ErrExtractingValue));
      [discriminate | reflexivity].
  - intros n k st. cbn zeta. unfold transformer.column_done.
    cbn [transformer.tally fold_left String.eqb transformer.results
         transformer.possibleError transformer.kvOutput].
    repeat split. unfold transformer.incr.
    now rewrite !lookup_insert_ne by discriminate.
Qed.

Lemma throttled_fetch_is_fetch_failure_witness :
  let r := transformer.genLoginToIDTransformer (sample.config sample.throttled)
             [transformer.VNil; transformer.VString (" bob" ++ sample.nbsp)]
             sample.empty_world in
  r.1 = (EmptyString, Some ErrFetchFailure) /\
  sample.calls r.2
    = [sample.LocalGet "bob"; sample.RemoteGet "bob";
       sample.FetchInt64 {[ "login"%string := "bob"%string ]}] /\
  sample.local r.2 = ∅ /\ sample.remote r.2 = ∅.
Proof.
  cbn zeta.
  edestruct (throttled_fetch_is_fetch_failure sample.World
               sample.print_tables (sample.config sample.throttled)
               transformer.VNil (" bob" ++ sample.nbsp) sample.empty_world)
    as [H _].
  - eexists. reflexivity.
  - discriminate.
  - reflexivity.
  - reflexivity.
  - reflexivity.
  - rewrite H. repeat split.
Defined.

(** C3 as stated fails on the code: a [userIDWithMapping] column whose
    login misses both caches and whose fetcher is throttled is counted
    under cache.fetch_failure; tooManyFetchRequests stays untouched. *)
Lemma throttled_fetch_counterexample :
  match transformer.transform (tables := sample.print_tables) sample.json
          sample.redshift (sample.event "mapped" sample.doc_login)
          sample.empty_world with
  | (transformer.Returns (_, _, _, results), w') =>
      ~ throttled_as_stated results sample.empty_world w'
  | (transformer.Panics _, _) => False
  end.
Proof.
  vm_compute. intros [H _]. discriminate H.
Qed.

Example throttled_fetch_counters :
  match transformer.transform (tables := sample.print_tables) sample.json
          sample.redshift (sample.event "mapped" sample.doc_login)
          sample.empty_world with
  | (transformer.Returns (_, _, _, results), w') =>
      results !! "cache.fetch_failure"%string = Some 1 /\
      results !! "skippedColumn"%string = Some 1 /\
      results !! "tooManyFetchRequests"%string = None /\
      sample.local w' = ∅ /\ sample.remote w' = ∅
  | (transformer.Panics _, _) => False
  end.
Proof. vm_compute. repeat split. Qed.

(** ** The transformer: line and record *)

Section TransformFacts.
Import transformer.

Context {St : Type} {tables : strconv.PrintTables}.

Lemma string_app_assoc (a b c : string) :
  ((a ++ b) ++ c = a ++ (b ++ c))%string.
Proof.
  induction a as [|x a IH]; [reflexivity|].
  change (String x ((a ++ b) ++ c) = String x (a ++ (b ++ c)))%string.
  now f_equal.
Qed.

Lemma string_app_nil_r (a : string) : (a ++ EmptyString)%string = a.
Proof.
  induction a as [|x a IH]; [reflexivity|].
  change (String x (a ++ EmptyString) = String x a)%string.
  now f_equal.
Qed.

Lemma concat_tab_fields f fields :
  String.concat tab (f :: fields) = (f ++ tab_fields fields)%string.
Proof.
  revert f. induction fields as [|g fields IH]; intros f.
  - cbn. now rewrite string_app_nil_r.
  - change (String.concat tab (f :: g :: fields))
      with (f ++ tab ++ String.concat tab (g :: fields))%string.
    now rewrite IH.
Qed.

(** The loop of [transform] is [column_done] folded over what the columns
    format to. *)
Lemma columns_loop_formatted (columns : list (RedshiftType St)) :
  forall n temp st s,
    columns_loop n columns temp st s =
      (columns_fold n (formatted columns temp s).1 st,
       (formatted columns temp s).2).
Proof.
  induction columns as [|column columns IH]; intros n temp st s.
  - reflexivity.
  - cbn [columns_loop formatted]. unfold bind.
    destruct (Format column temp s) as [[[k v] err] s1].
    rewrite IH. destruct (formatted columns temp s1) as [outs s2].
    reflexivity.
Qed.

(** [Format] returns the column's outbound name, unless the column was not
    found, and then the value is empty. *)
Lemma Format_name (column : RedshiftType St) temp s :
  let out := (Format column temp s).1 in
  out_value out <> EmptyString -> out_name out = OutboundName column.
Proof.
  cbn zeta. unfold Format.
  destruct (Format_args _ _ temp []) as [args|].
  - unfold bind. destruct (Transformer column args s) as [[value err] s1].
    reflexivity.
  - cbn. congruence.
Qed.

Lemma formatted_names (columns : list (RedshiftType St)) : forall temp s,
  Forall2 (fun column out =>
             out_value out <> EmptyString ->
             out_name out = OutboundName column)
    columns (formatted columns temp s).1.
Proof.
  induction columns as [|column columns IH]; intros temp s.
  - constructor.
  - cbn [formatted]. unfold bind.
    pose proof (Format_name column temp s) as Hn.
    destruct (Format column temp s) as [out s1].
    specialize (IH temp s1).
    destruct (formatted columns temp s1) as [outs s2].
    constructor; assumption.
Qed.

Lemma column_done_tsvOutput n k v err st :
  tsvOutput (column_done n k v err st) =
    (tsvOutput st ++ (if (n =? 0)%nat then EmptyString else tab)
     ++ strconv.Quote v)%string.
Proof. unfold column_done. now destruct (tally err). Qed.

Lemma column_done_kvOutput n k v err st :
  kvOutput (column_done n k v err st) =
    if String.eqb v EmptyString then kvOutput st
    else <[k := v]> (kvOutput st).
Proof. unfold column_done. now destruct (tally err). Qed.

(** After the first column every field follows a TAB. *)
Lemma columns_fold_tsvOutput outs : forall n st,
  tsvOutput (columns_fold (S n) outs st) =
    (tsvOutput st
     ++ tab_fields (map (fun o => strconv.Quote (out_value o)) outs))%string.
Proof.
  induction outs as [|[[k v] err] outs IH]; intros n st; cbn [columns_fold].
  - cbn. now rewrite string_app_nil_r.
  - rewrite IH, column_done_tsvOutput. cbn [Nat.eqb map tab_fields].
    unfold out_value. cbn [fst snd]. now rewrite !string_app_assoc.
Qed.

Lemma columns_fold_line outs st :
  tsvOutput st = EmptyString ->
  tsvOutput (columns_fold 0 outs st) =
    String.concat tab (map (fun o => strconv.Quote (out_value o)) outs).
Proof.
  intros Hst. destruct outs as [|[[k v] err] outs]; cbn [columns_fold].
  - exact Hst.
  - rewrite columns_fold_tsvOutput, column_done_tsvOutput, Hst.
    cbn [map]. rewrite concat_tab_fields. reflexivity.
Qed.

Lemma last_nonempty_cons out outs k v :
  last_nonempty outs k v -> last_nonempty (out :: outs) k v.
Proof.
  intros (Hv & before & e & after & -> & Hafter).
  split; [exact Hv|]. exists (out :: before), e, after. now split.
Qed.

(** The record after the loop: a key holds the last non-empty value
    formatted under it, or what it held before if no column wrote it. *)
Lemma columns_fold_kvOutput outs : forall n st k v,
  kvOutput (columns_fold n outs st) !! k = Some v <->
  last_nonempty outs k v \/ (kvOutput st !! k = Some v /\ all_empty outs k).
Proof.
  induction outs as [|[[k0 v0] e0] outs IH]; intros n st k v;
    cbn [columns_fold].
  - split.
    + intros H. right. split; [exact H|]. intros v' e' [].
    + intros [(_ & before & e & after & Heq & _) | [H _]]; [|exact H].
      destruct before; discriminate.
  - rewrite IH, column_done_kvOutput. clear IH. split.
    + intros [Hl | [Hkv Hall]].
      * left. now apply last_nonempty_cons.
      * destruct (String.eqb_spec v0 EmptyString) as [->|Hv0].
        -- right. split; [exact Hkv|].
           intros v' e' [Heq | Hin]; [congruence | eauto].
        -- destruct (decide (k0 = k)) as [->|Hk].
           ++ rewrite lookup_insert_eq in Hkv. injection Hkv as <-.
              left. split; [exact Hv0|]. exists [], e0, outs.
              split; [reflexivity | exact Hall].
           ++ rewrite lookup_insert_ne in Hkv by exact Hk.
              right. split; [exact Hkv|].
              intros v' e' [Heq | Hin]; [congruence | eauto].
    + intros [(Hv & before & e & after & Heq & Hafter) | [Hkv Hall]].
      * destruct before as [|b before]; cbn in Heq; inversion Heq; subst.
        -- right.
           destruct (String.eqb_spec v EmptyString) as [->|_];
             [congruence|].
           split; [apply lookup_insert_eq | exact Hafter].
        -- left. split; [exact Hv|]. exists before, e, after. now split.
      * right. split.
        -- destruct (String.eqb_spec v0 EmptyString) as [->|Hv0];
             [exact Hkv|].
           destruct (decide (k0 = k)) as [->|Hk].
           ++ exfalso. apply Hv0. apply (Hall v0 e0). now left.
           ++ now rewrite lookup_insert_ne by exact Hk.
        -- intros v' e' Hin. apply (Hall v' e'). now right.
Qed.

(** A key with a non-empty value somewhere has a last such value. *)
Lemma all_empty_dec outs k :
  all_empty outs k \/
  exists v e, In (k, v, e) outs /\ v <> EmptyString.
Proof.
  induction outs as [|[[k0 v0] e0] outs IH].
  - left. intros v e [].
  - destruct IH as [Hall | (v & e & Hin & Hv)].
    + destruct (decide (k0 = k)) as [->|Hk].
      * destruct (String.eqb_spec v0 EmptyString) as [->|Hv0].
        -- left. intros v e [Heq | Hin]; [congruence | eauto].
        -- right. exists v0, e0. split; [now left | exact Hv0].
      * left. intros v e [Heq | Hin]; [congruence | eauto].
    + right. exists v, e. split; [now right | exact Hv].
Qed.

Lemma last_nonempty_exists outs : forall k v e,
  In (k, v, e) outs -> v <> EmptyString -> exists v', last_nonempty outs k v'.
Proof.
  induction outs as [|[[k0 v0] e0] outs IH]; intros k v e Hin Hv; [easy|].
  destruct (all_empty_dec outs k) as [Hall | (v1 & e1 & Hin1 & Hv1)].
  - destruct Hin as [Heq | Hin].
    + inversion Heq; subst. exists v. split; [exact Hv|].
      exists [], e, outs. split; [reflexivity | exact Hall].
    + exfalso. apply Hv. eauto.
  - destruct (IH k v1 e1 Hin1 Hv1) as (v' & Hl).
    exists v'. now apply last_nonempty_cons.
Qed.

End TransformFacts.

(** [TrimSpace] gives [trim_right] all the fuel it can use: each round
    drops at least one byte, and more fuel changes nothing. *)
Lemma substring_0_length (m : nat) :
  forall s, (String.length (substring 0 m s) <= m)%nat.
Proof.
  induction m as [|m IH]; intros [|c s]; cbn; try lia.
  specialize (IH s). lia.
Qed.

Lemma trim_right_fuel (fuel1 : nat) : forall fuel2 s,
  (String.length s <= fuel1)%nat -> (String.length s <= fuel2)%nat ->
  gostrings.trim_right fuel1 s = gostrings.trim_right fuel2 s.
Proof.
  induction fuel1 as [|fuel1 IH]; intros fuel2 s H1 H2.
  - destruct s; [|cbn in H1; lia]. now destruct fuel2.
  - destruct fuel2 as [|fuel2]; [destruct s; [reflexivity | cbn in H2; lia]|].
    cbn [gostrings.trim_right].
    destruct (utf8.DecodeLastRuneInString s) as [r size].
    destruct ((0 <? size)%nat && unicode.IsSpace r) eqn:E; [|reflexivity].
    apply andb_prop in E as [E _]. apply Nat.ltb_lt in E.
    pose proof (substring_0_length (String.length s - size) s).
    apply IH; lia.
Qed.

(** On a string of plain characters [strconv.Quote] only adds the two
    quotes, whatever the tables. *)
Lemma quote_from_plain {tables : strconv.PrintTables} (s : string) :
  all_plain s = true -> strconv.quote_from 0 s = s.
Proof.
  induction s as [|c s IH]; intros Hs; [reflexivity|].
  cbn [all_plain] in Hs. apply andb_prop in Hs as [Hc Hs].
  cbn [strconv.quote_from].
  unfold plain in Hc.
  apply andb_prop in Hc as [Hc Hhi]. apply andb_prop in Hc as [Hesc Hlo].
  apply negb_true_iff, orb_false_iff in Hesc as [Hq Hb].
  apply Nat.leb_le in Hlo. apply Nat.ltb_lt in Hhi.
  assert (Hq' : nat_of_ascii c <> 34%nat).
  { intros E. apply (f_equal ascii_of_nat) in E.
    rewrite ascii_nat_embedding in E. subst c. discriminate. }
  assert (Hb' : nat_of_ascii c <> 92%nat).
  { intros E. apply (f_equal ascii_of_nat) in E.
    rewrite ascii_nat_embedding in E. subst c. discriminate. }
  unfold utf8.byte_value, utf8.RuneSelf, utf8.RuneError.
  destruct (Z.ltb_spec (Z.of_nat (nat_of_ascii c)) 128); [|lia].
  cbn [Nat.eqb Nat.sub].
  destruct (Z.eqb_spec (Z.of_nat (nat_of_ascii c)) 65533); [lia|].
  cbn [andb]. unfold strconv.appendEscapedRune, strconv.IsPrint.
  destruct (Z.eqb_spec (Z.of_nat (nat_of_ascii c)) 34); [lia|].
  destruct (Z.eqb_spec (Z.of_nat (nat_of_ascii c)) 92); [lia|].
  cbn [orb].
  destruct (Z.leb_spec (Z.of_nat (nat_of_ascii c)) 255); [|lia].
  destruct (Z.leb_spec 32 (Z.of_nat (nat_of_ascii c))); [|lia].
  destruct (Z.leb_spec (Z.of_nat (nat_of_ascii c)) 126); [|lia].
  cbn [andb]. unfold utf8.AppendRune, utf8.ValidRune, utf8.RuneSelf,
    utf8.byte_of.
  destruct (Z.leb_spec 0 (Z.of_nat (nat_of_ascii c))); [|lia].
  destruct (Z.ltb_spec (Z.of_nat (nat_of_ascii c)) 55296); [|lia].
  cbn [andb orb negb].
  destruct (Z.ltb_spec (Z.of_nat (nat_of_ascii c)) 128); [|lia].
  rewrite Nat2Z.id, ascii_nat_embedding, (IH Hs). reflexivity.
Qed.

Lemma Quote_plain {tables : strconv.PrintTables} (s : string) :
  all_plain s = true -> strconv.Quote s = wrapped s.
Proof.
  intros Hs. unfold strconv.Quote, wrapped. now rewrite quote_from_plain.
Qed.

(** Beyond ASCII: a printable rune is copied, a rune that is not printable
    gets a [\u] escape, and a byte that is no UTF-8 gets a [\x] escape. *)
Example Quote_beyond_ascii :
  let Quote := strconv.Quote (tables := sample.print_tables) in
  Quote (String "195" (String "169" EmptyString))
    = wrapped (String "195" (String "169" EmptyString)) /\
  Quote sample.nbsp = wrapped "\u00a0" /\
  Quote (String "255" EmptyString) = wrapped "\xff".
Proof. vm_compute. repeat split. Qed.

(** C1, as amended.  When [transform] reaches the column loop (the name is
    not empty, the event has a schema, the properties decode), the line has
    one field per column of the schema, in schema order, with a single TAB
    between consecutive fields; each field is [strconv.Quote] of the
    column's formatted value, which is the value between double quotes when
    no character needs an escape (a quote, a backslash, a rune that is not
    printable and a byte that is no UTF-8 do).  The record maps a key to the last
    non-empty value formatted under that outbound name, and a key is absent
    exactly when every column of that name formatted to the empty string. *)
Theorem transform_line_and_record
  (St : Type) (tables : strconv.PrintTables) (codec : transformer.JSON)
  (t : transformer.RedshiftTransformer St)
  (event : parser.MixpanelEvent)
  (columns : list (transformer.RedshiftType St))
  (props : gmap string transformer.value) (s : St) :
  parser.Event event <> EmptyString ->
  transformer.GetColumnsForEvent (transformer.Configs t) (parser.Event event)
    = inl columns ->
  transformer.Decode codec (parser.Properties event) = inl (Some props) ->
  let outs :=
    (formatted columns (transformer.server_fields event props) s).1 in
  Forall2 (fun column out =>
             out_value out <> EmptyString ->
             out_name out = transformer.OutboundName column)
    columns outs /\
  (forall o, In o outs -> all_plain (out_value o) = true ->
     strconv.Quote (out_value o) = wrapped (out_value o)) /\
  exists kv err results,
    transformer.transform codec t event s
      = (transformer.Returns
           (String.concat transformer.tab
              (map (fun o => strconv.Quote (out_value o)) outs),
            kv, err, results),
         (formatted columns (transformer.server_fields event props) s).2) /\
    (forall k v, kv !! k = Some v <-> last_nonempty outs k v) /\
    (forall k, kv !! k = None <-> all_empty outs k).
Proof.
  intros Hname Hcols Hdec outs. split; [apply formatted_names|].
  split; [intros o _ Ho; now apply Quote_plain|].
  unfold transformer.transform.
  destruct (String.eqb_spec (parser.Event event) EmptyString) as [He|_];
    [contradiction|].
  rewrite Hcols, Hdec. unfold transformer.bind.
  rewrite columns_loop_formatted. fold outs.
  set (st0 := {| transformer.tsvOutput := EmptyString;
                 transformer.kvOutput := ∅;
                 transformer.results := ∅;
                 transformer.possibleError := None |}).
  exists (transformer.kvOutput (columns_fold 0 outs st0)),
         (transformer.possibleError (columns_fold 0 outs st0)),
         (transformer.results (columns_fold 0 outs st0)).
  assert (Hkv : forall k v,
             transformer.kvOutput (columns_fold 0 outs st0) !! k = Some v
             <-> last_nonempty outs k v).
  { intros k v. rewrite columns_fold_kvOutput. cbn [transformer.kvOutput st0].
    rewrite lookup_empty. split; [|now left].
    intros [H | [H _]]; [exact H | discriminate]. }
  split; [|split].
  - now rewrite columns_fold_line.
  - exact Hkv.
  - intros k. split.
    + intros Hnone v e Hin.
      destruct (String.eqb_spec v EmptyString) as [->|Hv]; [reflexivity|].
      destruct (last_nonempty_exists outs k v e Hin Hv) as (v' & Hl).
      apply Hkv in Hl. congruence.
    + intros Hall.
      destruct (transformer.kvOutput (columns_fold 0 outs st0) !! k)
        as [v|] eqn:E; [|reflexivity].
      apply Hkv in E. destruct E as (Hv & before & e & after & Heq & _).
      exfalso. apply Hv. apply (Hall v e). rewrite Heq.
      apply in_or_app. right. now left.
Qed.

Lemma transform_line_and_record_witness :
  exists kv err results w,
    transformer.transform (tables := sample.print_tables) sample.json
      sample.redshift (sample.event "login" sample.doc_distinct_id)
      sample.empty_world
    = (transformer.Returns
         (String.concat transformer.tab
            [strconv.Quote (tables := sample.print_tables) "a\b";
             strconv.Quote (tables := sample.print_tables)
               "2013-10-17 11:05:55"],
          kv, err, results), w) /\
    (forall k v, kv !! k = Some v <->
       last_nonempty
         [(EmptyString, "a\b"%string, None);
          (EmptyString, "2013-10-17 11:05:55"%string, None)] k v).
Proof.
  destruct (transform_line_and_record sample.World sample.print_tables
              sample.json sample.redshift
              (sample.event "login" sample.doc_distinct_id)
              sample.login_columns
              {[ "distinct_id"%string := transformer.VString "a\b" ]}
              sample.empty_world)
    as (_ & _ & kv & err & results & Hrun & Hkv & _).
  - discriminate.
  - reflexivity.
  - reflexivity.
  - exists kv, err, results. eexists. split; [exact Hrun | exact Hkv].
Defined.

(** The event with empty properties of the processor tests, on the two
    columns kept here: the missing column is an empty quoted field, the
    server time is still filled in, and the failure is SkippedColumn. *)
Example empty_properties :
  exists r,
    (transformer.Consume (tables := sample.print_tables) sample.json
       sample.redshift (sample.event "login" "{}") sample.empty_world).1
      = transformer.Returns r /\
    writer.Line r
      = (wrapped EmptyString ++ transformer.tab
         ++ wrapped "2013-10-17 11:05:55")%string /\
    writer.Failure r = reporter.SkippedColumn /\
    writer.Category r = "login"%string /\
    writer.Version r = 42.
Proof. eexists. vm_compute. repeat split. Qed.

(** C1 as stated fails on the code, at the schema of the processor tests,
    whose columns share the empty outbound name, and a [distinct_id] with a
    backslash in it: the field is not the value between two quotes (the
    backslash is doubled), and the pair of [distinct_id] is not in the
    record (the [time] column overwrote it). *)
Lemma transform_line_and_record_counterexample :
  let outs :=
    (formatted sample.login_columns
       (transformer.server_fields
          (sample.event "login" sample.doc_distinct_id)
          {[ "distinct_id"%string := transformer.VString "a\b" ]})
       sample.empty_world).1 in
  outs = [(EmptyString, "a\b"%string, None);
          (EmptyString, "2013-10-17 11:05:55"%string, None)] /\
  exists line kv err results w,
    transformer.transform (tables := sample.print_tables) sample.json
      sample.redshift (sample.event "login" sample.doc_distinct_id)
      sample.empty_world
    = (transformer.Returns (line, kv, err, results), w) /\
    ~ line_as_stated outs line /\
    ~ record_as_stated outs kv.
Proof.
  cbn zeta.
  assert (Houts :
    (formatted sample.login_columns
       (transformer.server_fields
          (sample.event "login" sample.doc_distinct_id)
          {[ "distinct_id"%string := transformer.VString "a\b" ]})
       sample.empty_world).1
    = [(EmptyString, "a\b"%string, None);
       (EmptyString, "2013-10-17 11:05:55"%string, None)])
    by (vm_compute; reflexivity).
  rewrite Houts. split; [reflexivity|].
  do 5 eexists. split; [vm_compute; reflexivity|]. split.
  - unfold line_as_stated. vm_compute. discriminate.
  - intros [H _].
    specialize (H (EmptyString, "a\b"%string, None) ltac:(now left)
                  ltac:(discriminate)).
    vm_compute in H. discriminate H.
Qed.

(** * Further properties of the code *)

(** ** Batcher: what becomes of the entries *)

Section BatcherRuns.
Import batcher.

Lemma batch_size_snoc batch e :
  batch_size (batch ++ [e]) = batch_size batch + Z.of_nat (length e).
Proof.
  induction batch as [|x batch IH]; cbn [batch_size app fold_right].
  - lia.
  - fold (batch_size (batch ++ [e])). fold (batch_size batch). lia.
Qed.

Lemma complete_run c sub b :
  batcher_run c sub b ->
  batcher_run c sub (complete b) /\ pending (complete b) = [].
Proof.
  intros (Hc & Hsub & Hsz & Hfit & Hall). unfold complete.
  destruct (pending b) as [|e es] eqn:E.
  - split; [|exact E]. unfold batcher_run. rewrite E. auto.
  - split; [|reflexivity]. unfold batcher_run. cbn [config pending pendingSize completed].
    split; [exact Hc|]. split.
    + rewrite concat_app. cbn [List.concat]. rewrite !app_nil_r. exact Hsub.
    + split; [reflexivity|]. split; [right; cbn; lia|].
      apply Forall_app. split; [exact Hall|]. constructor; [|constructor].
      destruct Hfit as [Hfit | Hone]; [now left|].
      right. destruct es; [now exists e | cbn in Hone; lia].
Qed.

Lemma add_run c sub e b :
  batcher_run c sub b -> batcher_run c (sub ++ [e]) (add e b).
Proof.
  intros Hb. unfold add.
  destruct (MaxSize (config b) <? Z.of_nat (length e) + pendingSize b) eqn:E.
  - destruct (complete_run c sub b Hb) as ((Hc & Hsub & Hsz & Hfit & Hall) & Hp).
    unfold batcher_run. cbn [config pending pendingSize completed].
    rewrite Hp in *. cbn [app] in *. rewrite app_nil_r in Hsub.
    split; [exact Hc|]. split; [now rewrite Hsub|].
    split; [rewrite Hsz; cbn; lia|]. split; [right; cbn; lia | exact Hall].
  - destruct Hb as (Hc & Hsub & Hsz & Hfit & Hall).
    apply Z.ltb_ge in E. rewrite Hc in E.
    unfold batcher_run. cbn [config pending pendingSize completed].
    split; [exact Hc|]. split; [now rewrite app_assoc, Hsub|].
    split; [rewrite batch_size_snoc; lia|].
    split; [left; rewrite batch_size_snoc; lia | exact Hall].
Qed.

Lemma fold_step_run c msgs : forall sub b,
  batcher_run c sub b ->
  batcher_run c (sub ++ batcher_submitted msgs) (fold_left step msgs b).
Proof.
  induction msgs as [|m msgs IH]; intros sub b Hb.
  - cbn. now rewrite app_nil_r.
  - cbn [fold_left]. destruct m as [e|].
    + change (batcher_submitted (Incoming e :: msgs))
        with ([e] ++ batcher_submitted msgs).
      rewrite app_assoc. apply IH. now apply add_run.
    + change (batcher_submitted (TimerC :: msgs))
        with (batcher_submitted msgs).
      apply IH. now apply complete_run.
Qed.

Lemma worker_run c msgs :
  batcher_run c (batcher_submitted msgs) (worker (New c) msgs) /\
  pending (worker (New c) msgs) = [].
Proof.
  unfold worker. apply complete_run.
  apply (fold_step_run c msgs [] (New c)).
  unfold batcher_run, New. cbn.
  split; [reflexivity|]. split; [reflexivity|]. split; [reflexivity|].
  split; [right; lia | constructor].
Qed.

End BatcherRuns.

(** X1.  Whatever entries and timer expiries a batcher receives before
    Close, the batches handed to the completor, one after the other, are
    the submitted entries in submission order, none lost and none repeated,
    and nothing is left pending. *)
Theorem batcher_keeps_every_entry (c : batcher.Config)
  (msgs : list batcher.Msg) :
  let b := batcher.worker (batcher.New c) msgs in
  List.concat (batcher.completed b) = batcher_submitted msgs /\
  batcher.pending b = [] /\
  batcher.pendingSize b = 0.
Proof.
  cbn zeta. destruct (worker_run c msgs) as ((_ & Hsub & Hsz & _) & Hp).
  rewrite Hp in *. rewrite app_nil_r in Hsub. auto.
Qed.

(** X2.  Every batch handed to the completor has a combined size of at most
    [MaxSize], unless it is a single entry (which may be larger than
    [MaxSize] on its own). *)
Theorem batcher_batches_fit (c : batcher.Config) (msgs : list batcher.Msg) :
  Forall (fun batch =>
            batch_size batch <= batcher.MaxSize c \/ exists e, batch = [e])
    (batcher.completed (batcher.worker (batcher.New c) msgs)).
Proof. now destruct (worker_run c msgs) as ((_ & _ & _ & _ & Hall) & _). Qed.

(** ** Globber: what becomes of the entries *)

Section GlobberRuns.
Import globber.

Variable flate_Write : list byte -> list byte + error.
Variable inflate : list byte -> option (list byte).
Hypothesis flate_roundtrip :
  forall b, exists z, flate_Write b = inl z /\ inflate z = Some b.

Variable c : GlobberConfig.

Local Abbreviation runs := (globber_runs inflate c).

Lemma complete_runs sub g :
  runs sub g ->
  runs sub (snd (complete flate_Write g)) /\
  pending (snd (complete flate_Write g)) = [] /\
  fst (complete flate_Write g) = None.
Proof.
  intros (Hc & ess & cur & Hall & Hp & Hsub).
  destruct Hp as [[-> Hp] | (Hne & Hfit & Hp)].
  - rewrite (complete_empty flate_Write g Hp). cbn [fst snd].
    split; [|auto]. split; [exact Hc|]. exists ess, []. auto.
  - destruct (complete_open flate_Write inflate flate_roundtrip g cur Hne Hp)
      as (z & Hz & ->). cbn [fst snd pending].
    split; [|auto]. split; [exact Hc|]. exists (ess ++ [cur]), [].
    cbn [completed]. split; [|split; [now left|]].
    + apply Forall2_app; [exact Hall|]. constructor; [|constructor].
      split; [exact Hne|]. split; [exact Hfit|]. now exists z.
    + rewrite concat_app. cbn. now rewrite !app_nil_r.
Qed.

Lemma write_runs sub e g :
  runs sub g ->
  (pending g <> [] ->
   Z.of_nat (length e) + Z.of_nat (length (pending g)) <= MaxSize c) ->
  runs (sub ++ [e]) (write e g).
Proof.
  intros (Hc & ess & cur & Hall & Hp & Hsub) Hsize.
  split; [exact Hc|]. exists ess, (cur ++ [e]). cbn [completed write].
  split; [exact Hall|]. split; [|now rewrite app_assoc, Hsub].
  right. split; [destruct cur; discriminate|].
  unfold write. cbn [pending].
  destruct Hp as [[-> Hp] | (Hne & Hfit & Hp)]; rewrite Hp.
  - cbn. rewrite app_nil_r. split; [right; now exists e | reflexivity].
  - unfold glob_fits. rewrite !elements_snoc by exact Hne. split.
    + left. specialize (Hsize ltac:(rewrite Hp; discriminate)).
      rewrite Hp in Hsize. cbn [length] in *. rewrite length_app. cbn [length].
      lia.
    + cbn. now rewrite <- app_assoc.
Qed.

Lemma add_runs sub e g :
  runs sub g -> runs (sub ++ [e]) (snd (add flate_Write e g)).
Proof.
  intros Hg. unfold add.
  destruct (MaxSize (config g) <? _) eqn:E.
  - destruct (complete_runs sub g Hg) as (Hg' & Hp & Hnone).
    destruct (complete flate_Write g) as [[err|] g']; cbn [fst snd] in *;
      [discriminate|].
    apply write_runs; [exact Hg'|]. intros Hne. congruence.
  - apply write_runs; [exact Hg|]. intros _.
    apply Z.ltb_ge in E. destruct Hg as (Hc & _). rewrite Hc in E. exact E.
Qed.

Lemma fold_step_runs msgs : forall sub g,
  runs sub g ->
  runs (sub ++ submitted msgs) (fold_left (step flate_Write) msgs g).
Proof.
  induction msgs as [|m msgs IH]; intros sub g Hg.
  - cbn. now rewrite app_nil_r.
  - rewrite submitted_cons, app_assoc. cbn [fold_left]. apply IH.
    destruct m as [e|]; cbn.
    + now apply add_runs.
    + rewrite app_nil_r. now apply complete_runs.
Qed.

Lemma worker_runs msgs :
  runs (submitted msgs) (worker flate_Write (New c) msgs) /\
  pending (worker flate_Write (New c) msgs) = [].
Proof.
  unfold worker.
  assert (H0 : runs [] (New c)).
  { split; [reflexivity|]. exists [], []. cbn. auto. }
  apply (fold_step_runs msgs) in H0. cbn [app] in H0.
  destruct (complete_runs _ _ H0) as (H & Hp & _). auto.
Qed.

End GlobberRuns.

(** X3.  With a compressor that writes without error and round-trips, the
    globs handed to the completor inflate to JSON arrays of non-empty runs
    of entries, and these runs, one after the other, are the submitted
    entries in submission order, none lost and none repeated; nothing is
    left in the buffer after Close. *)
Theorem globber_keeps_every_entry
  (flate_Write : list byte -> list byte + error)
  (inflate : list byte -> option (list byte))
  (c : globber.GlobberConfig) (msgs : list globber.Msg) :
  (forall b, exists z, flate_Write b = inl z /\ inflate z = Some b) ->
  let g := globber.worker flate_Write (globber.New c) msgs in
  globber.pending g = [] /\
  exists ess,
    Forall2 (fun glob es =>
               es <> [] /\
               exists z, glob = globber.version :: z /\
                         inflate z = Some (json_array es))
      (globber.completed g) ess /\
    List.concat ess = submitted msgs.
Proof.
  intros Hrt. cbn zeta.
  destruct (worker_runs flate_Write inflate Hrt c msgs)
    as ((_ & ess & cur & Hall & Hp & Hsub) & Hpend).
  split; [exact Hpend|]. exists ess. split.
  - eapply Forall2_impl; [exact Hall|]. intros glob es (Hne & _ & Hz). auto.
  - destruct Hp as [[-> _] | (_ & _ & Hp)].
    + now rewrite app_nil_r in Hsub.
    + rewrite Hpend in Hp. discriminate.
Qed.

Lemma globber_keeps_every_entry_witness :
  exists ess,
    Forall2 (fun glob es =>
               es <> [] /\
               exists z, glob = globber.version :: z /\
                         stored.inflate z = Some (json_array es))
      (globber.completed
         (globber.worker stored.flate_Write
            (globber.New {| globber.MaxSize := 6; globber.MaxAge := "1s";
                            globber.BufferLength := 8 |})
            [globber.Incoming (list_byte_of_string "10");
             globber.Incoming (list_byte_of_string "20");
             globber.TimerC;
             globber.Incoming (list_byte_of_string "30")])) ess /\
    List.concat ess
      = [list_byte_of_string "10"; list_byte_of_string "20";
         list_byte_of_string "30"].
Proof.
  apply (globber_keeps_every_entry stored.flate_Write stored.inflate
           {| globber.MaxSize := 6; globber.MaxAge := "1s";
              globber.BufferLength := 8 |}
           [globber.Incoming (list_byte_of_string "10");
            globber.Incoming (list_byte_of_string "20");
            globber.TimerC;
            globber.Incoming (list_byte_of_string "30")]).
  exact stored_roundtrip.
Defined.

(** X4.  With such a compressor, the globs are those of consecutive runs
    of the submitted entries, and the JSON array of a run of two or more
    entries has at most [MaxSize + 2] bytes: the size test of [add] counts
    the buffer before the separator and the closing bracket are written.
    Only the array of a run of a single entry can be longer. *)
Theorem globber_array_bound
  (flate_Write : list byte -> list byte + error)
  (inflate : list byte -> option (list byte))
  (c : globber.GlobberConfig) (msgs : list globber.Msg) :
  (forall b, exists z, flate_Write b = inl z /\ inflate z = Some b) ->
  exists ess,
    List.concat ess = submitted msgs /\
    Forall2 (fun glob es =>
               es <> [] /\
               exists z,
                 glob = globber.version :: z /\
                 inflate z = Some (json_array es) /\
                 ((2 <= length es)%nat ->
                  Z.of_nat (length (json_array es))
                    <= globber.MaxSize c + 2))
      (globber.completed (globber.worker flate_Write (globber.New c) msgs))
      ess.
Proof.
  intros Hrt.
  destruct (worker_runs flate_Write inflate Hrt c msgs)
    as ((_ & ess & cur & Hall & Hp & Hsub) & Hpend).
  exists ess. split.
  - destruct Hp as [[-> _] | (_ & _ & Hp)].
    + now rewrite app_nil_r in Hsub.
    + rewrite Hpend in Hp. discriminate.
  - eapply Forall2_impl; [exact Hall|].
    intros glob es (Hne & Hfit & z & -> & Hz).
    split; [exact Hne|].
    exists z. split; [reflexivity|]. split; [exact Hz|].
    intros Htwo. destruct Hfit as [Hfit | [e ->]]; [|cbn in Htwo; lia].
    unfold json_array. cbn [length] in *. rewrite length_app.
    cbn [length]. lia.
Qed.

Lemma globber_array_bound_witness :
  exists ess,
    List.concat ess
      = [list_byte_of_string "10"; list_byte_of_string "20";
         list_byte_of_string "30"] /\
    Forall2 (fun glob es =>
               es <> [] /\
               exists z,
                 glob = globber.version :: z /\
                 stored.inflate z = Some (json_array es) /\
                 ((2 <= length es)%nat ->
                  Z.of_nat (length (json_array es)) <= 6 + 2))
      (globber.completed
         (globber.worker stored.flate_Write
            (globber.New {| globber.MaxSize := 6; globber.MaxAge := "1s";
                            globber.BufferLength := 8 |})
            [globber.Incoming (list_byte_of_string "10");
             globber.Incoming (list_byte_of_string "20");
             globber.Incoming (list_byte_of_string "30")]))
      ess.
Proof.
  apply (globber_array_bound stored.flate_Write stored.inflate
           {| globber.MaxSize := 6; globber.MaxAge := "1s";
              globber.BufferLength := 8 |}
           [globber.Incoming (list_byte_of_string "10");
            globber.Incoming (list_byte_of_string "20");
            globber.Incoming (list_byte_of_string "30")]).
  exact stored_roundtrip.
Defined.

(** X5.  When an entry arrives that does not fit and the compressor fails
    on the glob to be closed, [add] returns the error without writing the
    entry: the entry is dropped, no glob is handed to the completor, and
    the buffer is not reset but keeps the closing bracket it was given. *)
Theorem globber_add_after_failed_compression
  (flate_Write : list byte -> list byte + error)
  (e : list byte) (g : globber.Globber) (err : error) :
  globber.pending g <> [] ->
  globber.MaxSize (globber.config g)
    < Z.of_nat (length e) + Z.of_nat (length (globber.pending g)) ->
  flate_Write (globber.pending g ++ [globber.postfix]) = inr err ->
  globber.add flate_Write e g =
    (Some (Errorf "error completing glob: %s"
             (Errorf "error compressing glob: %s" err)),
     {| globber.config := globber.config g;
        globber.pending := globber.pending g ++ [globber.postfix];
        globber.completed := globber.completed g |}).
Proof.
  intros Hne Hsize Hfail. unfold globber.add.
  apply Z.ltb_lt in Hsize. rewrite Hsize.
  unfold globber.complete, globber._complete.
  destruct (globber.pending g) as [|x p] eqn:Ep; [congruence|].
  cbn [globber.pending globber.config globber.completed].
  now rewrite Hfail.
Qed.

Lemma globber_add_after_failed_compression_witness :
  let failing := fun _ : list byte =>
                   @inr (list byte) error (ErrorString "flate: closed") in
  let g := globber.write (list_byte_of_string "10")
             (globber.New {| globber.MaxSize := 4; globber.MaxAge := "1s";
                             globber.BufferLength := 8 |}) in
  globber.pending (globber.add failing (list_byte_of_string "20") g).2
    = list_byte_of_string "[10]" /\
  globber.completed (globber.add failing (list_byte_of_string "20") g).2 = [].
Proof.
  cbn zeta.
  rewrite (globber_add_after_failed_compression _ _ _
             (ErrorString "flate: closed"));
    [split; reflexivity | discriminate | cbn; lia | reflexivity].
Defined.

(** ** Multee: adding, dropping, replacing, writing, closing *)

Section MulteeOperations.

Context {W : Type}.

(** Updating every entry of [order] in a map. *)
Lemma fold_insert_lookup (f : W -> W) (order : list (string * W)) :
  forall (m : gmap string W) k,
    NoDup order.*1 ->
    fold_left (fun m kw => <[kw.1 := f kw.2]> m) order m !! k =
      match (list_to_map order : gmap string W) !! k with
      | Some w => Some (f w)
      | None => m !! k
      end.
Proof.
  induction order as [|[k1 w1] order IH]; intros m k Hnd.
  - cbn. now rewrite lookup_empty.
  - rewrite fmap_cons in Hnd. apply NoDup_cons in Hnd as [Hk1 Hnd].
    cbn [fst] in Hk1.
    rewrite list_to_map_cons. cbn [fold_left fst snd].
    rewrite IH by assumption.
    destruct (decide (k = k1)) as [->|Hne].
    + rewrite (not_elem_of_list_to_map_1 order k1 Hk1).
      now rewrite !lookup_insert_eq.
    + rewrite (lookup_insert_ne (list_to_map order)) by congruence.
      destruct (list_to_map order !! k); [reflexivity|].
      now rewrite lookup_insert_ne by congruence.
Qed.

Lemma fold_insert_range (f : W -> W) (t : gmap string W)
  (order : list (string * W)) k :
  order ≡ₚ map_to_list t ->
  fold_left (fun m kw => <[kw.1 := f kw.2]> m) order t !! k = f <$> t !! k.
Proof.
  intros Hord.
  assert (Hnd : NoDup order.*1)
    by (rewrite Hord; apply NoDup_fst_map_to_list).
  rewrite fold_insert_lookup by exact Hnd.
  rewrite (list_to_map_proper order (map_to_list t) Hnd Hord),
    list_to_map_to_list.
  now destruct (t !! k).
Qed.

End MulteeOperations.

(** X6.  Adding a writer under a key that is free and dropping that key
    again gives back the target map as it was, and the writer that was
    added is the one handed over to be closed. *)
Theorem Multee_Add_Drop (W : Type) (key : string) (w : W)
  (t : multee.Multee W) :
  multee.targets W t !! key = None ->
  multee.Drop W key (multee.Add W key w t) =
    {| multee.targets := multee.targets W t;
       multee.closing := multee.closing W t ++ [(key, w)] |}.
Proof.
  intros Hfree. unfold multee.Add. rewrite Hfree.
  unfold multee.Drop. cbn [multee.targets multee.closing].
  rewrite lookup_insert_eq. now rewrite delete_insert_id.
Qed.

Lemma Multee_Add_Drop_witness :
  multee.Drop nat "a" (multee.Add nat "a" 7%nat (multee.NewMultee nat)) =
    {| multee.targets := ∅; multee.closing := [("a"%string, 7%nat)] |}.
Proof.
  apply (Multee_Add_Drop nat "a" 7%nat (multee.NewMultee nat)).
  apply lookup_empty.
Defined.

(** X7.  [Add] never overwrites and never closes: every writer registered
    before is still registered under its key afterwards, so adding under a
    key that is taken changes nothing, and no writer is handed over to be
    closed; the key is registered afterwards in any case. *)
Theorem Multee_Add_keeps_writers (W : Type) (key : string) (w : W)
  (t : multee.Multee W) :
  (forall k x, multee.targets W t !! k = Some x ->
     multee.targets W (multee.Add W key w t) !! k = Some x) /\
  (forall k, k <> key ->
     multee.targets W (multee.Add W key w t) !! k = multee.targets W t !! k) /\
  is_Some (multee.targets W (multee.Add W key w t) !! key) /\
  multee.closing W (multee.Add W key w t) = multee.closing W t.
Proof.
  unfold multee.Add.
  destruct (multee.targets W t !! key) as [w0|] eqn:E;
    cbn [multee.targets multee.closing].
  - split; [|split; [|split]]; eauto.
  - split; [|split; [|split]].
    + intros k x Hk. rewrite lookup_insert_ne; [exact Hk | congruence].
    + intros k Hk. now rewrite lookup_insert_ne.
    + rewrite lookup_insert_eq. eauto.
    + reflexivity.
Qed.

(** X8.  [Replace] never changes which keys are registered.  Under a key
    that is registered it installs the new writer, leaves the other
    targets alone and hands the old writer over to be closed; under a key
    that is not registered it does nothing (it does not add). *)
Theorem Multee_Replace_keys (W : Type) (key : string) (newWriter : W)
  (t : multee.Multee W) :
  let t' := multee.Replace W key newWriter t in
  dom (multee.targets W t') = dom (multee.targets W t) /\
  (forall k, k <> key ->
     multee.targets W t' !! k = multee.targets W t !! k) /\
  (forall oldWriter, multee.targets W t !! key = Some oldWriter ->
     multee.targets W t' !! key = Some newWriter /\
     multee.closing W t' = multee.closing W t ++ [(key, oldWriter)]) /\
  (multee.targets W t !! key = None -> t' = t).
Proof.
  cbn zeta. unfold multee.Replace.
  destruct (multee.targets W t !! key) as [w0|] eqn:E;
    cbn [multee.targets multee.closing].
  - split; [|split; [|split]].
    + rewrite insert_delete_eq. apply dom_insert_lookup_L. eauto.
    + intros k Hk.
      rewrite lookup_insert_ne by congruence.
      now rewrite lookup_delete_ne by congruence.
    + intros oldWriter [= ->]. split; [apply lookup_insert_eq | reflexivity].
    + discriminate.
  - split; [|split; [|split]]; try reflexivity; discriminate.
Qed.

Lemma Multee_Replace_keys_witness :
  let t := multee.Add nat "a" 7%nat (multee.NewMultee nat) in
  multee.targets nat (multee.Replace nat "a" 9%nat t) !! "a"%string
    = Some 9%nat /\
  multee.closing nat (multee.Replace nat "a" 9%nat t)
    = [("a"%string, 7%nat)] /\
  multee.Replace nat "b" 9%nat t = t.
Proof.
  cbn zeta.
  destruct (Multee_Replace_keys nat "a" 9%nat
              (multee.Add nat "a" 7%nat (multee.NewMultee nat)))
    as (_ & _ & Hreg & _).
  destruct (Multee_Replace_keys nat "b" 9%nat
              (multee.Add nat "a" 7%nat (multee.NewMultee nat)))
    as (_ & _ & _ & Hfree).
  destruct (Hreg 7%nat eq_refl) as [H1 H2].
  split; [exact H1|]. split; [exact H2|]. apply Hfree. reflexivity.
Defined.

(** X9.  In whatever order the target map is ranged over, [Write] hands the
    request to every registered writer exactly once: afterwards each key
    holds its writer after one [Write] of the request, and no key is added
    or removed. *)
Theorem Multee_Write_all (W : Type)
  (SpadeWriter_Write : writer.WriteRequest -> W -> W)
  (r : writer.WriteRequest) (t : multee.Multee W)
  (order : list (string * W)) :
  order ≡ₚ map_to_list (multee.targets W t) ->
  let t' := multee.Write_in W SpadeWriter_Write order r t in
  (forall k, multee.targets W t' !! k
             = SpadeWriter_Write r <$> multee.targets W t !! k) /\
  dom (multee.targets W t') = dom (multee.targets W t) /\
  multee.closing W t' = multee.closing W t.
Proof.
  intros Hord. cbn zeta. unfold multee.Write_in.
  cbn [multee.targets multee.closing].
  assert (Hlook : forall k,
    fold_left (fun m kw => <[kw.1 := SpadeWriter_Write r kw.2]> m) order
      (multee.targets W t) !! k
    = SpadeWriter_Write r <$> multee.targets W t !! k)
    by (intros k; now apply fold_insert_range).
  split; [exact Hlook|]. split; [|reflexivity].
  apply set_eq. intros k. rewrite !elem_of_dom, Hlook.
  now rewrite fmap_is_Some.
Qed.

Lemma Multee_Write_all_witness :
  let t := multee.Add nat "b" 2%nat
             (multee.Add nat "a" 1%nat (multee.NewMultee nat)) in
  let t' := multee.Write_in nat (fun _ n => (n + 10)%nat)
              (map_to_list (multee.targets nat t))
              {| writer.Category := "login"; writer.Version := 42;
                 writer.Line := EmptyString; writer.Record_ := ∅;
                 writer.UUID := "uuid1"; writer.Source := [];
                 writer.Failure := reporter.None; writer.Pstart := 0 |} t in
  multee.targets nat t' !! "a"%string = Some 11%nat /\
  multee.targets nat t' !! "b"%string = Some 12%nat.
Proof.
  cbn zeta.
  edestruct (Multee_Write_all nat (fun _ n => (n + 10)%nat)) as (H & _).
  - reflexivity.
  - rewrite !H. split; reflexivity.
Defined.

(** X10.  [Close] returns [nil] whatever the targets' [Close] return, calls
    [Close] on every registered writer exactly once in whatever order the
    goroutines run, and removes no target: every key is still registered
    afterwards, with its writer closed. *)
Theorem Multee_Close_all (W : Type)
  (SpadeWriter_Close : W -> goerror * W)
  (t : multee.Multee W) (order : list (string * W)) :
  order ≡ₚ map_to_list (multee.targets W t) ->
  let '(err, closed, t') := multee.Close_in W SpadeWriter_Close order t in
  err = None /\
  closed ≡ₚ (map_to_list (multee.targets W t)).*1 /\
  (forall k, multee.targets W t' !! k
             = (fun w => (SpadeWriter_Close w).2)
                 <$> multee.targets W t !! k) /\
  dom (multee.targets W t') = dom (multee.targets W t).
Proof.
  intros Hord. unfold multee.Close_in. cbn [multee.targets].
  assert (Hlook : forall k,
    fold_left (fun m kw => <[kw.1 := (SpadeWriter_Close kw.2).2]> m) order
      (multee.targets W t) !! k
    = (fun w => (SpadeWriter_Close w).2) <$> multee.targets W t !! k)
    by (intros k; now apply (fold_insert_range
                               (fun w => (SpadeWriter_Close w).2))).
  split; [reflexivity|]. split; [now rewrite Hord|].
  split; [exact Hlook|].
  apply set_eq. intros k. rewrite !elem_of_dom, Hlook.
  now rewrite fmap_is_Some.
Qed.

Lemma Multee_Close_all_witness :
  let t := multee.Add nat "b" 2%nat
             (multee.Add nat "a" 1%nat (multee.NewMultee nat)) in
  let close := fun n : nat => (Some (ErrorString "already closed"), O) in
  let '(err, closed, t') :=
    multee.Close_in nat close (map_to_list (multee.targets nat t)) t in
  err = None /\
  closed ≡ₚ (map_to_list (multee.targets nat t)).*1 /\
  (forall k, multee.targets nat t' !! k
             = (fun w => (close w).2) <$> multee.targets nat t !! k) /\
  dom (multee.targets nat t') = dom (multee.targets nat t).
Proof.
  cbn zeta.
  apply (Multee_Close_all nat
           (fun n : nat => (Some (ErrorString "already closed"), O))).
  reflexivity.
Defined.

(** ** The metadata loader: retries, first fetch, refresh *)

Section LoaderFacts.

Context {F Reader : Type}.
Variable Fetch : F -> (Reader + error) * F.
Variable ReadAll : Reader -> list byte + error.
Variable Unmarshal :
  list byte -> gmap string (gmap string eventmetadata.EventMetadataRow) + error.

Local Abbreviation pull :=
  (config_loader.pull F Reader Fetch ReadAll Unmarshal).
Local Abbreviation retryPull_loop :=
  (config_loader.retryPull_loop F Reader Fetch ReadAll Unmarshal).
Local Abbreviation retryPull :=
  (config_loader.retryPull F Reader Fetch ReadAll Unmarshal).
Local Abbreviation failed := (failed_pulls Fetch ReadAll Unmarshal).
Local Abbreviation after := (after_pulls Fetch ReadAll Unmarshal).

(** A pull that fails returns the zero config. *)
Lemma pull_error_zero f c e f' :
  pull f = (c, Some e, f') -> c = config_loader.zero.
Proof.
  unfold config_loader.pull.
  destruct (Fetch f) as [[r|err] f1]; [|congruence].
  destruct (ReadAll r) as [b|err]; [|congruence].
  destruct (Unmarshal b) as [m|err]; congruence.
Qed.

Lemma last_cons_from (e : error) (fs : list error) (e0 : goerror) :
  from_option Some (Some e) (last fs) = from_option Some e0 (last (e :: fs)).
Proof.
  destruct fs as [|e1 fs]; [reflexivity|].
  change (last (e :: e1 :: fs)) with (last (e1 :: fs)).
  destruct (last (e1 :: fs)) eqn:E; [reflexivity|].
  apply last_None in E. discriminate.
Qed.

(** The loop of [retryPull] from its [k0+1]-st iteration. *)
Lemma retryPull_loop_run (count : nat) :
  forall (k0 : nat) (wt : Z) c0 (e0 : goerror) (w : config_loader.World F),
    let fs := failed count (config_loader.fetcher F w) in
    let '(c, err, w') := retryPull_loop count (Z.of_nat (S k0)) wt c0 e0 w in
    config_loader.slept F w' =
      config_loader.slept F w ++
      map (fun i => config_loader.int64 (wt * Z.of_nat i))
        (seq (S k0) (length fs)) /\
    config_loader.timings F w' = config_loader.timings F w /\
    (length fs = count ->
       err = from_option Some e0 (last fs) /\
       c = match count with O => c0 | S _ => config_loader.zero end /\
       config_loader.fetcher F w' = after count (config_loader.fetcher F w)) /\
    ((length fs < count)%nat ->
       err = None /\
       pull (after (length fs) (config_loader.fetcher F w))
         = (c, None, config_loader.fetcher F w')).
Proof.
  induction count as [|count IH]; intros k0 wt c0 e0 w.
  - cbn. rewrite app_nil_r. repeat split; try reflexivity; lia.
  - cbn zeta.
    cbn [config_loader.retryPull_loop failed_pulls after_pulls].
    unfold config_loader.pullConfigIn.
    destruct (pull (config_loader.fetcher F w)) as [[c1 [e|]] f1] eqn:Hp.
    + specialize (IH (S k0) wt c1 (Some e)
        (config_loader.Sleep F (config_loader.int64 (wt * Z.of_nat (S k0)))
           {| config_loader.fetcher := f1;
              config_loader.slept := config_loader.slept F w;
              config_loader.timings := config_loader.timings F w |})).
      cbn zeta in IH.
      replace (Z.of_nat (S k0) + 1) with (Z.of_nat (S (S k0))) by lia.
      destruct (retryPull_loop count (Z.of_nat (S (S k0))) wt c1 (Some e) _)
        as [[c err] w'].
      cbn [config_loader.Sleep config_loader.fetcher config_loader.slept
           config_loader.timings] in IH.
      destruct IH as (Hs & Ht & Hall & Hsome).
      cbn [length seq map snd].
      split; [now rewrite Hs, <- app_assoc|]. split; [exact Ht|].
      split.
      * intros Hlen. destruct (Hall ltac:(lia)) as (He & Hc & Hf).
        split; [now rewrite <- last_cons_from|]. split; [|exact Hf].
        rewrite Hc. destruct count; [|reflexivity].
        eapply pull_error_zero; eassumption.
      * intros Hlen. cbn [after_pulls]. rewrite Hp. cbn [snd].
        apply Hsome. lia.
    + cbn [length seq map app config_loader.fetcher config_loader.slept
           config_loader.timings after_pulls].
      rewrite app_nil_r.
      split; [reflexivity|]. split; [reflexivity|].
      cbn [snd].
      split; [discriminate|]. intros _. split; [reflexivity|]. exact Hp.
Qed.

End LoaderFacts.

(** X11.  When every one of the [n] attempts fails, [retryPull] returns the
    error of the last attempt with the zero config, after it has pulled
    [n] times and slept after each attempt, the last one included: the
    wait time once, twice, ... [n] times. *)
Theorem retryPull_gives_up {F Reader : Type}
  (Fetch : F -> (Reader + error) * F)
  (ReadAll : Reader -> list byte + error)
  (Unmarshal : list byte ->
     gmap string (gmap string eventmetadata.EventMetadataRow) + error)
  (n waitTime : Z) (w : config_loader.World F) :
  0 < n ->
  length (failed_pulls Fetch ReadAll Unmarshal (Z.to_nat n)
            (config_loader.fetcher F w)) = Z.to_nat n ->
  let '(config, err, w') :=
    config_loader.retryPull F Reader Fetch ReadAll Unmarshal n waitTime w in
  config = config_loader.zero /\
  is_Some err /\
  err = last (failed_pulls Fetch ReadAll Unmarshal (Z.to_nat n)
                (config_loader.fetcher F w)) /\
  config_loader.slept F w' =
    config_loader.slept F w ++ backoff waitTime (Z.to_nat n) /\
  config_loader.timings F w' = config_loader.timings F w /\
  config_loader.fetcher F w' =
    after_pulls Fetch ReadAll Unmarshal (Z.to_nat n)
      (config_loader.fetcher F w).
Proof.
  intros Hn Hlen. unfold config_loader.retryPull.
  pose proof (retryPull_loop_run Fetch ReadAll Unmarshal (Z.to_nat n) O
                waitTime config_loader.zero None w) as H.
  cbn zeta in H. change (Z.of_nat 1) with 1 in H.
  destruct (config_loader.retryPull_loop F Reader Fetch ReadAll Unmarshal
              (Z.to_nat n) 1 waitTime config_loader.zero None w)
    as [[config err] w'].
  destruct H as (Hs & Ht & Hall & _).
  destruct (Hall Hlen) as (He & Hc & Hf).
  rewrite Hlen in Hs.
  assert (Hlast : is_Some (last (failed_pulls Fetch ReadAll Unmarshal
                    (Z.to_nat n) (config_loader.fetcher F w)))).
  { apply last_is_Some. intros Hnil. rewrite Hnil in Hlen. cbn in Hlen. lia. }
  destruct Hlast as [e Hlast]. rewrite Hlast in He |- *. cbn in He.
  split; [now destruct (Z.to_nat n)|].
  split; [rewrite He; eauto|]. split; [exact He|]. split; [exact Hs|].
  split; [exact Ht|exact Hf].
Qed.

Lemma retryPull_gives_up_witness :
  config_loader.retryPull nat (list byte) (flaky.Fetch 7) flaky.ReadAll
    flaky.Unmarshal 5 3 flaky.world
  = (config_loader.zero, Some ConnectTimeoutError,
     {| config_loader.fetcher := 5%nat;
        config_loader.slept := [3; 6; 9; 12; 15];
        config_loader.timings := [] |}).
Proof.
  pose proof (retryPull_gives_up (flaky.Fetch 7) flaky.ReadAll
                flaky.Unmarshal 5 3 flaky.world ltac:(lia) eq_refl) as H.
  destruct (config_loader.retryPull nat (list byte) (flaky.Fetch 7)
              flaky.ReadAll flaky.Unmarshal 5 3 flaky.world)
    as [[config err] [f s t]].
  destruct H as (-> & _ & -> & Hs & Ht & Hf).
  cbn in Hs, Ht, Hf. now subst.
Defined.

(** X12.  When [k] attempts fail and the next one succeeds, with [k] below
    [n], [retryPull] returns the config of that pull with a nil error, has
    slept after the [k] failures only, and pulls no further. *)
Theorem retryPull_stops_at_success {F Reader : Type}
  (Fetch : F -> (Reader + error) * F)
  (ReadAll : Reader -> list byte + error)
  (Unmarshal : list byte ->
     gmap string (gmap string eventmetadata.EventMetadataRow) + error)
  (n waitTime : Z) (w : config_loader.World F) (k : nat) :
  length (failed_pulls Fetch ReadAll Unmarshal (Z.to_nat n)
            (config_loader.fetcher F w)) = k ->
  (k < Z.to_nat n)%nat ->
  let '(config, err, w') :=
    config_loader.retryPull F Reader Fetch ReadAll Unmarshal n waitTime w in
  err = None /\
  config_loader.pull F Reader Fetch ReadAll Unmarshal
    (after_pulls Fetch ReadAll Unmarshal k (config_loader.fetcher F w))
    = (config, None, config_loader.fetcher F w') /\
  config_loader.slept F w' = config_loader.slept F w ++ backoff waitTime k /\
  config_loader.timings F w' = config_loader.timings F w.
Proof.
  intros Hlen Hk. unfold config_loader.retryPull.
  pose proof (retryPull_loop_run Fetch ReadAll Unmarshal (Z.to_nat n) O
                waitTime config_loader.zero None w) as H.
  cbn zeta in H. change (Z.of_nat 1) with 1 in H.
  destruct (config_loader.retryPull_loop F Reader Fetch ReadAll Unmarshal
              (Z.to_nat n) 1 waitTime config_loader.zero None w)
    as [[config err] w'].
  destruct H as (Hs & Ht & _ & Hsome). rewrite Hlen in Hs, Hsome.
  destruct (Hsome Hk) as [He Hp].
  split; [exact He|]. split; [exact Hp|]. split; [exact Hs|exact Ht].
Qed.

Lemma retryPull_stops_at_success_witness :
  config_loader.retryPull nat (list byte) (flaky.Fetch 2) flaky.ReadAll
    flaky.Unmarshal 5 3 flaky.world
  = (eventmetadata.configs test_metadata, None,
     {| config_loader.fetcher := 3%nat;
        config_loader.slept := [3; 6];
        config_loader.timings := [] |}).
Proof.
  pose proof (retryPull_stops_at_success (flaky.Fetch 2) flaky.ReadAll
                flaky.Unmarshal 5 3 flaky.world 2 eq_refl ltac:(cbn; lia))
    as H.
  destruct (config_loader.retryPull nat (list byte) (flaky.Fetch 2)
              flaky.ReadAll flaky.Unmarshal 5 3 flaky.world)
    as [[config err] [f s t]].
  destruct H as (-> & Hp & Hs & Ht).
  cbn in Hp, Hs, Ht. injection Hp as <- <-. now subst.
Defined.

Section CrankFacts.

Context {F Reader : Type}.
Variable Fetch : F -> (Reader + error) * F.
Variable ReadAll : Reader -> list byte + error.
Variable Unmarshal :
  list byte -> gmap string (gmap string eventmetadata.EventMetadataRow) + error.

Local Abbreviation pull :=
  (config_loader.pull F Reader Fetch ReadAll Unmarshal).
Local Abbreviation retryPull :=
  (config_loader.retryPull F Reader Fetch ReadAll Unmarshal).
Local Abbreviation failed := (failed_pulls Fetch ReadAll Unmarshal).
Local Abbreviation after := (after_pulls Fetch ReadAll Unmarshal).

Lemma failed_pulls_length (k : nat) :
  forall f, (length (failed k f) <= k)%nat.
Proof.
  induction k as [|k IH]; intros f; cbn; [lia|].
  destruct (pull f) as [[c [e|]] f']; cbn; [|lia].
  specialize (IH f'). lia.
Qed.

Lemma failed_pulls_outage (k : nat) :
  (forall f, is_Some (pull f).1.2) ->
  forall f, length (failed k f) = k.
Proof.
  intros Hout. induction k as [|k IH]; intros f; cbn; [reflexivity|].
  specialize (Hout f).
  destruct (pull f) as [[c [e|]] f']; cbn in *.
  - now rewrite IH.
  - now destruct Hout.
Qed.

(** The two ways in which [retryPull] returns after at least one attempt. *)
Lemma retryPull_cases (n waitTime : Z) (w : config_loader.World F) :
  0 < n ->
  let fs := failed (Z.to_nat n) (config_loader.fetcher F w) in
  let '(config, err, w') := retryPull n waitTime w in
  config_loader.slept F w' =
    config_loader.slept F w ++ backoff waitTime (length fs) /\
  config_loader.timings F w' = config_loader.timings F w /\
  ((length fs = Z.to_nat n /\ is_Some err /\ err = last fs) \/
   ((length fs < Z.to_nat n)%nat /\ err = None /\
    pull (after (length fs) (config_loader.fetcher F w))
      = (config, None, config_loader.fetcher F w'))).
Proof.
  intros Hn. cbn zeta. unfold config_loader.retryPull.
  pose proof (retryPull_loop_run Fetch ReadAll Unmarshal (Z.to_nat n) O
                waitTime config_loader.zero None w) as H.
  cbn zeta in H. change (Z.of_nat 1) with 1 in H.
  destruct (config_loader.retryPull_loop F Reader Fetch ReadAll Unmarshal
              (Z.to_nat n) 1 waitTime config_loader.zero None w)
    as [[config err] w'].
  destruct H as (Hs & Ht & Hall & Hsome).
  split; [exact Hs|]. split; [exact Ht|].
  pose proof (failed_pulls_length (Z.to_nat n) (config_loader.fetcher F w))
    as Hle.
  destruct (decide (length (failed (Z.to_nat n) (config_loader.fetcher F w))
                    = Z.to_nat n)) as [Heq|Hne].
  - left. destruct (Hall Heq) as (He & _ & _).
    assert (Hlast : is_Some (last (failed (Z.to_nat n)
                                     (config_loader.fetcher F w)))).
    { apply last_is_Some. intros Hnil. rewrite Hnil in Heq. cbn in Heq. lia. }
    destruct Hlast as [e Hlast]. rewrite Hlast in He |- *. cbn in He.
    split; [exact Heq|]. split; [rewrite He; eauto | exact He].
  - right. split; [lia|]. apply Hsome. lia.
Qed.

End CrankFacts.

(** X13.  [NewDynamicLoader] fails only after five failed pulls in a row,
    and then returns no loader and the error of the fifth pull; otherwise
    the loader holds the config of the first pull that succeeds.  In both
    cases it has slept the retry delay once, twice, ... after each failed
    pull. *)
Theorem NewDynamicLoader_first_fetch {F Reader : Type}
  (Fetch : F -> (Reader + error) * F)
  (ReadAll : Reader -> list byte + error)
  (Unmarshal : list byte ->
     gmap string (gmap string eventmetadata.EventMetadataRow) + error)
  (retryDelay : Z) (w : config_loader.World F) :
  let fs := failed_pulls Fetch ReadAll Unmarshal 5
              (config_loader.fetcher F w) in
  let '(d, err, w') :=
    config_loader.NewDynamicLoader F Reader Fetch ReadAll Unmarshal
      retryDelay w in
  config_loader.slept F w' =
    config_loader.slept F w ++ backoff retryDelay (length fs) /\
  ((d = None /\ length fs = 5%nat /\ is_Some err /\ err = last fs) \/
   (exists config,
      d = Some {| eventmetadata.configs := config |} /\
      err = None /\ (length fs < 5)%nat /\
      config_loader.pull F Reader Fetch ReadAll Unmarshal
        (after_pulls Fetch ReadAll Unmarshal (length fs)
           (config_loader.fetcher F w))
        = (config, None, config_loader.fetcher F w'))).
Proof.
  cbn zeta. unfold config_loader.NewDynamicLoader.
  pose proof (retryPull_cases Fetch ReadAll Unmarshal 5 retryDelay w
                ltac:(lia)) as H.
  cbn zeta in H. change (Z.to_nat 5) with 5%nat in H.
  destruct (config_loader.retryPull F Reader Fetch ReadAll Unmarshal 5
              retryDelay w) as [[config err] w'].
  destruct H as (Hs & _ & [(Hlen & [e He] & Hlast) | (Hlen & He & Hp)]).
  - subst err. split; [exact Hs|]. left.
    split; [reflexivity|]. split; [exact Hlen|]. split; [eauto | exact Hlast].
  - subst err. split; [exact Hs|]. right. exists config.
    split; [reflexivity|]. split; [reflexivity|]. split; [exact Hlen | exact Hp].
Qed.

(** X14.  [Crank] only ever installs the config of a pull that succeeded:
    a property that holds of the config the loader starts with and of the
    config of every successful pull holds of the loader's config when
    [Crank] returns.  Every tick taken before the closer is timed once, as
    an error or as a success, and nothing after the closer is handled. *)
Theorem Crank_installs_pulled_configs {F Reader : Type}
  (Fetch : F -> (Reader + error) * F)
  (ReadAll : Reader -> list byte + error)
  (Unmarshal : list byte ->
     gmap string (gmap string eventmetadata.EventMetadataRow) + error)
  (retryDelay : Z) (P : eventmetadata.EventMetadataConfig -> Prop)
  (signals : list config_loader.Signal) (d : eventmetadata.DynamicLoader)
  (w : config_loader.World F) :
  P (eventmetadata.configs d) ->
  (forall f config f',
     config_loader.pull F Reader Fetch ReadAll Unmarshal f
       = (config, None, f') -> P config) ->
  let '(d', w') :=
    config_loader.Crank F Reader Fetch ReadAll Unmarshal retryDelay
      signals d w in
  P (eventmetadata.configs d') /\
  exists stats,
    config_loader.timings F w' = config_loader.timings F w ++ stats /\
    length stats = ticks_handled signals /\
    Forall (fun s => s = "config.error"%string \/ s = "config.success"%string)
      stats.
Proof.
  intros Hd Hpull. revert d w Hd.
  induction signals as [|[|] rest IH]; intros d w Hd.
  - cbn. split; [exact Hd|]. exists []. now rewrite app_nil_r.
  - cbn [config_loader.Crank ticks_handled].
    pose proof (retryPull_cases Fetch ReadAll Unmarshal 5 retryDelay w
                  ltac:(lia)) as H.
    cbn zeta in H.
    destruct (config_loader.retryPull F Reader Fetch ReadAll Unmarshal 5
                retryDelay w) as [[config err] w1].
    destruct H as (_ & Ht & [(_ & [e He] & _) | (_ & He & Hp)]); subst err.
    + specialize (IH d (config_loader.Timing F "config.error" w1) Hd).
      destruct (config_loader.Crank F Reader Fetch ReadAll Unmarshal
                  retryDelay rest d _) as [d' w'].
      destruct IH as (HP & stats & Hst & Hlen & Hall).
      split; [exact HP|]. exists ("config.error"%string :: stats).
      cbn [config_loader.Timing config_loader.timings] in Hst.
      rewrite Hst, Ht, <- app_assoc. split; [reflexivity|].
      split; [cbn; now rewrite Hlen|]. constructor; [now left | exact Hall].
    + specialize (IH {| eventmetadata.configs := config |}
                     (config_loader.Timing F "config.success" w1)
                     (Hpull _ _ _ Hp)).
      destruct (config_loader.Crank F Reader Fetch ReadAll Unmarshal
                  retryDelay rest _ _) as [d' w'].
      destruct IH as (HP & stats & Hst & Hlen & Hall).
      split; [exact HP|]. exists ("config.success"%string :: stats).
      cbn [config_loader.Timing config_loader.timings] in Hst.
      rewrite Hst, Ht, <- app_assoc. split; [reflexivity|].
      split; [cbn; now rewrite Hlen|]. constructor; [now right | exact Hall].
  - cbn. split; [exact Hd|]. exists []. now rewrite app_nil_r.
Qed.

Lemma Crank_installs_pulled_configs_witness :
  let '(d', w') :=
    config_loader.Crank nat (list byte) (flaky.Fetch 7) flaky.ReadAll
      flaky.Unmarshal 3
      [config_loader.TickC; config_loader.TickC; config_loader.Closer;
       config_loader.TickC]
      owner_metadata flaky.world in
  eventmetadata.configs d' <> config_loader.zero /\
  exists stats,
    config_loader.timings nat w' = stats /\ length stats = 2%nat /\
    Forall (fun s => s = "config.error"%string \/ s = "config.success"%string)
      stats.
Proof.
  apply (Crank_installs_pulled_configs (flaky.Fetch 7) flaky.ReadAll
           flaky.Unmarshal 3 (fun c => c <> config_loader.zero)
           [config_loader.TickC; config_loader.TickC; config_loader.Closer;
            config_loader.TickC]
           owner_metadata flaky.world).
  - intros H. apply (f_equal (fun c => eventmetadata.Metadata c !! "login"%string))
      in H. vm_compute in H. discriminate.
  - intros f config f'. unfold config_loader.pull, flaky.Fetch.
    destruct (f <? 7)%nat; [discriminate|].
    cbn. intros [= <- _] H.
    apply (f_equal (fun c => eventmetadata.Metadata c !! "login"%string)) in H.
    vm_compute in H. discriminate.
Defined.

(** X15.  While every pull fails, [Crank] keeps the config it has, however
    many ticks it takes: each tick costs five pulls and the five delays,
    and is timed as [config.error]. *)
Theorem Crank_outage_keeps_config {F Reader : Type}
  (Fetch : F -> (Reader + error) * F)
  (ReadAll : Reader -> list byte + error)
  (Unmarshal : list byte ->
     gmap string (gmap string eventmetadata.EventMetadataRow) + error)
  (retryDelay : Z) (signals : list config_loader.Signal)
  (d : eventmetadata.DynamicLoader) (w : config_loader.World F) :
  (forall f,
     is_Some (config_loader.pull F Reader Fetch ReadAll Unmarshal f).1.2) ->
  let '(d', w') :=
    config_loader.Crank F Reader Fetch ReadAll Unmarshal retryDelay
      signals d w in
  d' = d /\
  config_loader.timings F w' =
    config_loader.timings F w
    ++ replicate (ticks_handled signals) "config.error"%string /\
  config_loader.slept F w' =
    config_loader.slept F w
    ++ List.concat (replicate (ticks_handled signals) (backoff retryDelay 5)) /\
  config_loader.fetcher F w' =
    after_pulls Fetch ReadAll Unmarshal (5 * ticks_handled signals)
      (config_loader.fetcher F w).
Proof.
  intros Hout. revert w.
  induction signals as [|[|] rest IH]; intros w.
  - cbn. now rewrite !app_nil_r.
  - cbn [config_loader.Crank ticks_handled].
    pose proof (retryPull_cases Fetch ReadAll Unmarshal 5 retryDelay w
                  ltac:(lia)) as H.
    pose proof (retryPull_loop_run Fetch ReadAll Unmarshal 5 O retryDelay
                  config_loader.zero None w) as Hrun.
    cbn zeta in H, Hrun. change (Z.to_nat 5) with 5%nat in H.
    change (Z.of_nat 1) with 1 in Hrun.
    unfold config_loader.retryPull in *. change (Z.to_nat 5) with 5%nat in *.
    rewrite (failed_pulls_outage Fetch ReadAll Unmarshal 5 Hout) in H, Hrun.
    destruct (config_loader.retryPull_loop F Reader Fetch ReadAll Unmarshal
                5 1 retryDelay config_loader.zero None w)
      as [[config err] w1].
    destruct H as (Hs & Ht & [(_ & [e He] & _) | (Hlt & _)]); [|lia].
    destruct Hrun as (_ & _ & Hall & _).
    destruct (Hall eq_refl) as (_ & _ & Hf).
    subst err.
    specialize (IH (config_loader.Timing F "config.error" w1)).
    destruct (config_loader.Crank F Reader Fetch ReadAll Unmarshal
                retryDelay rest d _) as [d' w'].
    destruct IH as (Hd & Hst & Hsl & Hfe).
    cbn [config_loader.Timing config_loader.timings config_loader.slept
         config_loader.fetcher] in Hst, Hsl, Hfe.
    split; [exact Hd|].
    split; [rewrite Hst, Ht, <- app_assoc; reflexivity|].
    split.
    + rewrite Hsl, Hs, <- app_assoc. reflexivity.
    + rewrite Hfe, Hf.
      replace (5 * S (ticks_handled rest))%nat
        with (5 + 5 * ticks_handled rest)%nat by lia.
      generalize (5 * ticks_handled rest)%nat as m. intros m.
      generalize (config_loader.fetcher F w) as f. intros f.
      reflexivity.
  - cbn. now rewrite !app_nil_r.
Qed.

Lemma Crank_outage_keeps_config_witness :
  config_loader.Crank nat (list byte) (fun f => (inr ConnectTimeoutError, S f))
    flaky.ReadAll flaky.Unmarshal 3
    [config_loader.TickC; config_loader.TickC; config_loader.Closer]
    owner_metadata flaky.world
  = (owner_metadata,
     {| config_loader.fetcher := 10%nat;
        config_loader.slept := [3; 6; 9; 12; 15; 3; 6; 9; 12; 15];
        config_loader.timings := ["config.error"; "config.error"]%string |}).
Proof.
  pose proof (Crank_outage_keeps_config
                (fun f : nat => (inr ConnectTimeoutError, S f))
                flaky.ReadAll flaky.Unmarshal 3
                [config_loader.TickC; config_loader.TickC;
                 config_loader.Closer]
                owner_metadata flaky.world
                (fun f => ltac:(cbn; eauto))) as H.
  destruct (config_loader.Crank nat (list byte) _ flaky.ReadAll
              flaky.Unmarshal 3 _ owner_metadata flaky.world)
    as [d' [f s t]].
  destruct H as (-> & Ht & Hs & Hf).
  cbn in Ht, Hs, Hf. now subst.
Defined.

(** ** The consumer's configuration *)

(** X16.  [configEntryToDuration] never returns a negative duration.  An
    empty entry is zero without an error and is not parsed; a non-empty one
    is an error when it parses to a negative duration or does not parse,
    and otherwise the duration it parses to. *)
Theorem configEntryToDuration_result
  (ParseDuration : string -> Z * goerror) (entry : string) :
  let '(d, e) := consumer.configEntryToDuration ParseDuration entry in
  0 <= d /\
  (entry = EmptyString -> d = 0 /\ e = None) /\
  (entry <> EmptyString ->
   (e = None <->
    (ParseDuration entry).2 = None /\ 0 <= (ParseDuration entry).1) /\
   (e = None -> d = (ParseDuration entry).1) /\
   ((ParseDuration entry).1 < 0 ->
    d = 0 /\
    e = Some (ErrorString (entry ++ " is a negative duration")))).
Proof.
  unfold consumer.configEntryToDuration.
  destruct entry as [|c entry]; cbn [String.length Nat.eqb].
  - split; [lia|]. split; [now split | congruence].
  - destruct (ParseDuration (String c entry)) as [d e]. cbn [fst snd].
    destruct (Z.ltb_spec d 0).
    + split; [lia|]. split; [discriminate|]. intros _.
      split; [split; [discriminate | lia]|].
      split; [discriminate | now split].
    + split; [lia|]. split; [discriminate|]. intros _.
      split; [split; [now split | tauto]|].
      split; [reflexivity | lia].
Qed.

(** X17.  [configToKinsumerConfig] applies the settings in the order
    throttle delay, commit frequency, shard check frequency, buffer size,
    each at most once and only with a positive value: what it has applied
    is a prefix of the positive ones among those requested, and all of
    them when it returns no error.  It returns no error exactly when the
    three durations convert without error and the buffer size is not
    negative. *)
Theorem configToKinsumerConfig_settings
  (ParseDuration : string -> Z * goerror) (config : consumer.Config) :
  let '(k, err) := consumer.configToKinsumerConfig ParseDuration config in
  k `prefix_of` List.filter positive_setting (requested ParseDuration config)
  /\ Forall (fun s => 0 < setting_value s) k
  /\ (err = None ->
      k = List.filter positive_setting (requested ParseDuration config))
  /\ (err = None <->
      (consumer.configEntryToDuration ParseDuration
         (consumer.ThrottleDelay config)).2 = None /\
      (consumer.configEntryToDuration ParseDuration
         (consumer.CommitFrequency config)).2 = None /\
      (consumer.configEntryToDuration ParseDuration
         (consumer.ShardCheckFrequency config)).2 = None /\
      0 <= consumer.BufferSize config).
Proof.
  unfold consumer.configToKinsumerConfig, requested, consumer.NewConfig.
  cbn [List.filter]. unfold positive_setting. cbn [setting_value].
  destruct (consumer.configEntryToDuration ParseDuration
              (consumer.ThrottleDelay config)) as [d1 [e1|]];
    cbn [fst snd].
  { split; [apply prefix_nil|]. split; [constructor|].
    split; [discriminate|]. split; [discriminate | now intros [? _]]. }
  destruct (consumer.configEntryToDuration ParseDuration
              (consumer.CommitFrequency config)) as [d2 [e2|]];
    cbn [fst snd].
  { destruct (Z.ltb_spec 0 d1); cbn [app];
      (split; [eexists; reflexivity|]);
      (split; [repeat constructor; assumption|]);
      (split; [discriminate|]);
      (split; [discriminate | now intros (_ & ? & _)]). }
  destruct (consumer.configEntryToDuration ParseDuration
              (consumer.ShardCheckFrequency config)) as [d3 [e3|]];
    cbn [fst snd].
  { destruct (Z.ltb_spec 0 d1), (Z.ltb_spec 0 d2); cbn [app];
      (split; [eexists; reflexivity|]);
      (split; [repeat constructor; assumption|]);
      (split; [discriminate|]);
      (split; [discriminate | now intros (_ & _ & ? & _)]). }
  destruct (Z.ltb_spec (consumer.BufferSize config) 0) as [Hb|Hb].
  { destruct (Z.ltb_spec 0 d1), (Z.ltb_spec 0 d2), (Z.ltb_spec 0 d3);
      cbn [app];
      (split; [eexists; reflexivity|]);
      (split; [repeat constructor; assumption|]);
      (split; [discriminate|]);
      (split; [discriminate | intros (_ & _ & _ & ?); lia]). }
  destruct (Z.ltb_spec 0 d1), (Z.ltb_spec 0 d2), (Z.ltb_spec 0 d3),
    (Z.ltb_spec 0 (consumer.BufferSize config));
    cbn [app];
    (split; [reflexivity|]);
    (split; [repeat constructor; assumption|]);
    (split; [reflexivity|]);
    (split; [intros _; repeat split; try reflexivity; lia | reflexivity]).
Qed.

(** ** The transformer: what the column loop counts *)

Section CounterFacts.
Import transformer.

Context {tables : strconv.PrintTables}.

Lemma incr_lookup (r : gmap string Z) (k k' : string) :
  incr r k !! k' =
    if decide (k = k') then Some (default 0 (r !! k) + 1) else r !! k'.
Proof.
  unfold incr. case_decide.
  - subst. apply lookup_insert_eq.
  - now apply lookup_insert_ne.
Qed.

Lemma counter_incr (r : gmap string Z) (k k' : string) :
  counter (incr r k) k' =
    if decide (k = k') then counter r k + 1 else counter r k'.
Proof.
  unfold counter. rewrite incr_lookup. now case_decide.
Qed.

(** One column more: it is counted once, as a success or as skipped, and
    the error is set exactly when a column has been skipped. *)
Lemma column_done_counts n k v err st :
  let st' := column_done n k v err st in
  counter (results st') "success" + counter (results st') "skippedColumn"
    = counter (results st) "success"
      + counter (results st) "skippedColumn" + 1 /\
  (0 <= counter (results st) "skippedColumn" ->
   (possibleError st = None <-> counter (results st) "skippedColumn" = 0) ->
   0 <= counter (results st') "skippedColumn" /\
   (possibleError st' = None <->
    counter (results st') "skippedColumn" = 0)).
Proof.
  cbn zeta. unfold column_done.
  destruct err as [[]|]; cbn [tally fold_left results possibleError];
    rewrite ?counter_incr;
    repeat (case_decide; try discriminate; try congruence);
    (split; [lia|]); intros Hpos Hiff;
    (split; [lia|]); try exact Hiff;
    (split; [discriminate | lia]).
Qed.

Lemma columns_fold_counts outs : forall n st,
  let st' := columns_fold n outs st in
  counter (results st') "success" + counter (results st') "skippedColumn"
    = counter (results st) "success"
      + counter (results st) "skippedColumn" + Z.of_nat (length outs) /\
  (0 <= counter (results st) "skippedColumn" ->
   (possibleError st = None <-> counter (results st) "skippedColumn" = 0) ->
   0 <= counter (results st') "skippedColumn" /\
   (possibleError st' = None <->
    counter (results st') "skippedColumn" = 0)).
Proof.
  induction outs as [|[[k v] err] outs IH]; intros n st; cbn zeta.
  - cbn [columns_fold length]. split; [lia | auto].
  - cbn [columns_fold length].
    destruct (column_done_counts n k v err st) as [Hsum Hinv].
    destruct (IH (S n) (column_done n k v err st)) as [Hsum' Hinv'].
    cbn zeta in *. split; [lia|].
    intros Hpos Hiff. destruct (Hinv Hpos Hiff) as [Hpos1 Hiff1].
    now apply Hinv'.
Qed.

Lemma formatted_length {St : Type} (columns : list (RedshiftType St)) :
  forall temp s, length (formatted columns temp s).1 = length columns.
Proof.
  induction columns as [|column columns IH]; intros temp s; [reflexivity|].
  cbn [formatted]. unfold bind.
  destruct (Format column temp s) as [out s1].
  specialize (IH temp s1).
  destruct (formatted columns temp s1) as [outs s2].
  cbn in *. now rewrite IH.
Qed.

End CounterFacts.

(** X18.  When [transform] reaches the column loop (the event has a name,
    it is tracked and its properties decode), every column is counted
    exactly once, under [success] or under [skippedColumn]: the two
    counters add up to the number of columns.  The error returned is [nil]
    exactly when no column was skipped. *)
Theorem transform_counts_every_column
  (St : Type) (tables : strconv.PrintTables) (codec : transformer.JSON)
  (t : transformer.RedshiftTransformer St) (event : parser.MixpanelEvent)
  (s : St) (columns : list (transformer.RedshiftType St))
  (temp : gmap string transformer.value) :
  parser.Event event <> EmptyString ->
  transformer.GetColumnsForEvent (transformer.Configs t) (parser.Event event)
    = inl columns ->
  transformer.Decode codec (parser.Properties event) = inl (Some temp) ->
  match transformer.transform codec t event s with
  | (transformer.Returns (line, kv, err, results), s') =>
      counter results "success" + counter results "skippedColumn"
        = Z.of_nat (length columns) /\
      0 <= counter results "skippedColumn" /\
      (err = None <-> counter results "skippedColumn" = 0)
  | (transformer.Panics _, _) => False
  end.
Proof.
  intros Hname Hcols Hdec. unfold transformer.transform.
  destruct (String.eqb_spec (parser.Event event) EmptyString) as [|_];
    [contradiction|].
  rewrite Hcols, Hdec. unfold transformer.bind.
  rewrite columns_loop_formatted.
  pose proof (formatted_length columns
                (transformer.server_fields event temp) s) as Hlen.
  destruct (formatted columns (transformer.server_fields event temp) s)
    as [outs s1]. cbn [fst snd transformer.ret] in *.
  destruct (columns_fold_counts outs 0
              {| transformer.tsvOutput := EmptyString;
                 transformer.kvOutput := ∅;
                 transformer.results := ∅;
                 transformer.possibleError := None |}) as [Hsum Hinv].
  cbn zeta in *. cbn [transformer.results transformer.possibleError] in *.
  assert (Hzero : forall stat, counter ∅ stat = 0)
    by (intros stat; unfold counter; now rewrite lookup_empty).
  rewrite !Hzero, Hlen in Hsum. split; [lia|].
  apply Hinv; rewrite Hzero; [lia | tauto].
Qed.

Lemma transform_counts_every_column_witness :
  match transformer.transform (tables := sample.print_tables) sample.json
          sample.redshift (sample.event "login" sample.doc_distinct_id)
          sample.empty_world with
  | (transformer.Returns (line, kv, err, results), s') =>
      counter results "success" + counter results "skippedColumn" = 2 /\
      0 <= counter results "skippedColumn" /\
      (err = None <-> counter results "skippedColumn" = 0)
  | (transformer.Panics _, _) => False
  end.
Proof.
  apply (transform_counts_every_column sample.World sample.print_tables
           sample.json sample.redshift
           (sample.event "login" sample.doc_distinct_id)
           sample.empty_world sample.login_columns
           {[ "distinct_id"%string := transformer.VString "a\b" ]}).
  - discriminate.
  - reflexivity.
  - reflexivity.
Defined.

(** ** The mapping transformer: its outcomes *)

(** X19.  Given two arguments, [genLoginToIDTransformer] returns one of its
    eight sentinels: never [nil], never an error of the fetcher or of a
    cache.  With [ErrIDSet], [ErrBadLookupValue] and [ErrEmptyLookupValue]
    neither cache nor the fetcher has been called; with
    [ErrBadLookupValue], [ErrEmptyLookupValue] and [ErrFetchFailure] the
    value is empty.  Given another number of arguments it returns an
    [errors.New] error and calls nothing. *)
Theorem genLoginToIDTransformer_outcomes
  (St : Type) (config : transformer.MappingTransformerConfig St)
  (args : list transformer.value) (s : St) :
  let '(v, err, s') := transformer.genLoginToIDTransformer config args s in
  match err with
  | Some ErrIDSet => length args = 2%nat /\ s' = s
  | Some ErrBadLookupValue | Some ErrEmptyLookupValue =>
      length args = 2%nat /\ v = EmptyString /\ s' = s
  | Some ErrFetchFailure => length args = 2%nat /\ v = EmptyString
  | Some ErrLocalCacheHit | Some ErrRemoteCacheHit
  | Some ErrFetchSuccess | Some ErrCacheSetFailure => length args = 2%nat
  | Some (ErrorString _) => length args <> 2%nat /\ v = EmptyString /\ s' = s
  | _ => False
  end.
Proof.
  unfold transformer.genLoginToIDTransformer,
    transformer.safeColumnTransformer.
  destruct (Nat.eqb_spec (length args) 2) as [Hlen|Hlen]; cbn [negb];
    [|cbn; auto].
  destruct (transformer.safeParseInt (nth 0 args transformer.VNil));
    [cbn; auto|].
  destruct (nth 1 args transformer.VNil) as [| | |login| |];
    try (cbn; now auto).
  destruct (String.length (gostrings.TrimSpace login) =? 0)%nat;
    [cbn; now auto|].
  unfold transformer.bind.
  destruct (transformer.Get (transformer.LocalCache config) _ s)
    as [[c1 [e1|]] s1].
  2: { destruct (transformer.recordCacheError config None "local_get" s1).
       exact Hlen. }
  destruct (transformer.Get (transformer.RemoteCache config) _ s1)
    as [[c2 [e2|]] s2].
  2: { destruct (transformer.recordCacheError config None "remote_get" s2)
         as [[] s3].
       destruct (transformer.Set_ (transformer.LocalCache config) _ c2 s3).
       exact Hlen. }
  destruct (transformer.Fetcher_FetchInt64 config _ s2) as [[fv [fe|]] s3].
  - destruct (decide (fe = ErrExtractingValue)).
    + destruct (transformer.Set_ (transformer.LocalCache config) _ _ s3)
        as [x s4].
      destruct (transformer.Set_ (transformer.RemoteCache config) _ _ s4)
        as [y s5].
      destruct (transformer.recordCacheError config y "remote_set" s5).
      now split.
    + now split.
  - destruct (transformer.Set_ (transformer.LocalCache config) _ _ s3)
      as [x s4].
    destruct (transformer.Set_ (transformer.RemoteCache config) _ _ s4)
      as [y s5].
    destruct (transformer.recordCacheError config y "remote_set" s5)
      as [[] s6].
    now destruct y.
Qed.

(** X20.  With caches that hold what is set in them, a login looked up
    once is answered from the local cache from then on: after a local or
    remote hit or a successful fetch, and also after a fetch that failed
    with [lookup.ErrExtractingValue], the same arguments give the same
    value with [ErrLocalCacheHit], the only call being the [Get] of the
    local cache.  After the failed fetch that value is the empty string,
    which the column loop then counts as a success. *)
Theorem mapping_lookup_is_cached
  (fetch : gmap string string -> Z * goerror) (w : sample.World)
  (a0 : transformer.value) (login : string) :
  let T := transformer.genLoginToIDTransformer (sample.config fetch) in
  let first := T [a0; transformer.VString login] w in
  first.1.2 = Some ErrLocalCacheHit \/
  first.1.2 = Some ErrRemoteCacheHit \/
  first.1.2 = Some ErrFetchSuccess \/
  (first.1.2 = Some ErrFetchFailure /\
   (fetch {[ "login"%string := gostrings.TrimSpace login ]}).2
     = Some ErrExtractingValue) ->
  T [a0; transformer.VString login] first.2
  = ((first.1.1, Some ErrLocalCacheHit),
     {| sample.local := sample.local first.2;
        sample.remote := sample.remote first.2;
        sample.calls :=
          sample.calls first.2
          ++ [sample.LocalGet (gostrings.TrimSpace login)] |}).
Proof.
  cbn zeta.
  unfold transformer.genLoginToIDTransformer,
    transformer.safeColumnTransformer.
  cbn [length Nat.eqb negb nth].
  destruct (transformer.safeParseInt a0) as [i|e0];
    [cbn; intros [H|[H|[H|[H _]]]]; discriminate|].
  destruct (String.length (gostrings.TrimSpace login) =? 0)%nat;
    [cbn; intros [H|[H|[H|[H _]]]]; discriminate|].
  set (key := gostrings.TrimSpace login).
  unfold transformer.bind, sample.config, sample.LocalCache,
    sample.RemoteCache, transformer.recordCacheError, transformer.ret.
  cbn [transformer.Get transformer.Set_ transformer.LocalCache
       transformer.RemoteCache transformer.Fetcher_FetchInt64
       transformer.Stats_IncrBy sample.local sample.remote sample.calls].
  cbn [fst snd sample.local sample.remote sample.calls].
  destruct (sample.local w !! key) as [v1|] eqn:Hl;
    cbn [fst snd sample.local sample.remote sample.calls].
  { intros _. now rewrite Hl. }
  destruct (sample.remote w !! key) as [v2|] eqn:Hr;
    cbn [fst snd sample.local sample.remote sample.calls].
  { intros _. now rewrite lookup_insert_eq. }
  destruct (fetch {[ "login"%string := key ]}) as [fv [fe|]] eqn:Hf;
    cbn [fst snd sample.local sample.remote sample.calls].
  - destruct (decide (fe = ErrExtractingValue)) as [->|Hne];
      cbn [fst snd sample.local sample.remote sample.calls].
    + intros _. now rewrite lookup_insert_eq.
    + intros [H|[H|[H|[_ H]]]]; congruence.
  - intros _. now rewrite lookup_insert_eq.
Qed.

Lemma mapping_lookup_is_cached_witness :
  let T := transformer.genLoginToIDTransformer
             (sample.config (fun _ => (0, Some ErrExtractingValue))) in
  let login := (sample.nbsp ++ "bob" ++ sample.nbsp)%string in
  let first :=
    T [transformer.VNil; transformer.VString login] sample.empty_world in
  first.1 = (EmptyString, Some ErrFetchFailure) /\
  sample.local first.2 = {[ "bob"%string := EmptyString ]} /\
  (T [transformer.VNil; transformer.VString login] first.2).1
    = (EmptyString, Some ErrLocalCacheHit) /\
  transformer.tally (Some ErrLocalCacheHit)
    = (false, ["success"; "cache.local_cache_hit"]%string).
Proof.
  cbn zeta. split; [reflexivity|]. split; [reflexivity|].
  split; [|reflexivity].
  rewrite (mapping_lookup_is_cached (fun _ => (0, Some ErrExtractingValue))
             sample.empty_world transformer.VNil
             (sample.nbsp ++ "bob" ++ sample.nbsp)).
  - reflexivity.
  - right. right. right. split; reflexivity.
Defined.

(** ** The transformer: server fields, arguments, requests *)

(** X21.  What the properties hold when the column loop starts: [time] is
    always the server's event time, whatever the client sent; the client's
    [time], when there is one, is kept under [client_time] (replacing a
    [client_time] of the client's); [ip] is always present, the client's
    when it sent one; [user_agent] is the client's, or else the server's
    when that is not empty; every other property is as decoded. *)
Theorem server_fields_lookup (event : parser.MixpanelEvent)
  (temp : gmap string transformer.value) (k : string) :
  transformer.server_fields event temp !! k =
    if decide (k = "time"%string) then
      Some (transformer.VNumber (parser.EventTime event))
    else if decide (k = "client_time"%string) then
      match temp !! "time"%string with
      | Some t => Some t
      | None => temp !! "client_time"%string
      end
    else if decide (k = "ip"%string) then
      Some (default (transformer.VString (parser.ClientIP event))
              (temp !! "ip"%string))
    else if decide (k = "user_agent"%string) then
      match temp !! "user_agent"%string with
      | Some u => Some u
      | None =>
          if String.eqb (parser.UserAgent event) EmptyString then None
          else Some (transformer.VString (parser.UserAgent event))
      end
    else temp !! k.
Proof.
  unfold transformer.server_fields.
  destruct (temp !! "time"%string) as [t|] eqn:Ht;
    destruct (temp !! "ip"%string) as [i|] eqn:Hi;
    destruct (temp !! "user_agent"%string) as [u|] eqn:Hu;
    destruct (String.eqb (parser.UserAgent event) EmptyString);
    repeat case_decide; subst; simplify_map_eq; congruence.
Qed.

Section FormatFacts.
Import transformer.

Context {St : Type}.

Lemma Format_args_present columns : forall props args,
  Format_args false columns props args
  = Some (args ++ map (fun col => default VNil (props !! col)) columns).
Proof.
  induction columns as [|col columns IH]; intros props args;
    cbn [Format_args map].
  - now rewrite app_nil_r.
  - destruct (props !! col) as [p|]; rewrite IH, <- app_assoc; reflexivity.
Qed.

End FormatFacts.

(** X22.  [Format] answers [ErrColumnNotFound], without calling the
    transformer, only when the column has no supporting columns and its
    inbound property is missing.  In every other case it calls the
    transformer once, with one argument for the inbound column and one for
    each supporting column, in this order, a missing property being passed
    as [nil]. *)
Theorem Format_arguments (St : Type) (r : transformer.RedshiftType St)
  (eventProperties : gmap string transformer.value) (s : St) :
  transformer.Format r eventProperties s =
    if bool_decide (transformer.SupportingColumns r = [] /\
                    eventProperties !! transformer.InboundName r = None)
    then ((EmptyString, EmptyString, Some ErrColumnNotFound), s)
    else
      let '(value, err, s') :=
        transformer.Transformer r
          (map (fun col => default transformer.VNil (eventProperties !! col))
             (transformer.InboundName r :: transformer.SupportingColumns r))
          s in
      ((transformer.OutboundName r, value, err), s').
Proof.
  unfold transformer.Format.
  destruct (transformer.SupportingColumns r) as [|c cs] eqn:Hsup.
  - cbn [length Nat.eqb transformer.Format_args map app].
    destruct (eventProperties !! transformer.InboundName r) as [p|] eqn:Hp.
    + rewrite bool_decide_eq_false_2 by (intros [_ H]; discriminate).
      cbn [from_option id]. unfold transformer.bind.
      now destruct (transformer.Transformer r [p] s) as [[value err] s'].
    + rewrite bool_decide_eq_true_2 by now split.
      reflexivity.
  - rewrite bool_decide_eq_false_2 by (intros [H _]; discriminate).
    cbn [length Nat.eqb]. rewrite Format_args_present. cbn [app].
    unfold transformer.bind.
    now destruct (transformer.Transformer r _ s) as [[value err] s'].
Qed.

(** X23.  An event that arrives with a failure is passed on as it is:
    [transform] does not run (the state is left as it was), the request
    keeps the failure and the event's name, and its line and record are
    empty. *)
Theorem Consume_failed_event
  (St : Type) (tables : strconv.PrintTables) (codec : transformer.JSON)
  (t : transformer.RedshiftTransformer St) (event : parser.MixpanelEvent)
  (s : St) :
  parser.Failure event <> reporter.None ->
  transformer.Consume codec t event s
  = (transformer.Returns
       {| writer.Category := parser.Event event;
          writer.Version :=
            transformer.GetVersionForEvent (transformer.Configs t)
              (parser.Event event);
          writer.Line := EmptyString;
          writer.Record_ := ∅;
          writer.UUID := parser.UUID event;
          writer.Source := parser.Properties event;
          writer.Failure := parser.Failure event;
          writer.Pstart := parser.Pstart event |}, s).
Proof.
  intros Hf. unfold transformer.Consume.
  destruct (parser.Failure event); try reflexivity. now contradiction Hf.
Qed.

Lemma Consume_failed_event_witness :
  let event :=
    {| parser.Pstart := 0; parser.EventTime := "1382033155";
       parser.UUID := "uuid1"; parser.ClientIP := "10.1.40.26";
       parser.Event := "login"; parser.UserAgent := EmptyString;
       parser.Properties := list_byte_of_string sample.doc_login;
       parser.Failure := reporter.UnableToParseData;
       parser.EdgeType := "internal" |} in
  exists r,
    transformer.Consume (tables := sample.print_tables) sample.json
      sample.redshift event sample.empty_world
    = (transformer.Returns r, sample.empty_world) /\
    writer.Failure r = reporter.UnableToParseData /\
    writer.Line r = EmptyString /\
    writer.Category r = "login"%string.
Proof.
  cbn zeta. eexists.
  rewrite (Consume_failed_event sample.World sample.print_tables sample.json
             sample.redshift)
    by discriminate.
  repeat split.
Defined.

(** X24.  A request carries a record only with the failure modes [None]
    and [SkippedColumn], and a line only with these two and
    [NonTrackingEvent]; with any other failure mode both are empty.  The
    category is the event's name, except that it is [Unknown] where
    [transform] failed with an error that is neither [ErrNotTracked] nor
    [ErrSkippedColumn]. *)
Theorem Consume_line_and_record_guard
  (St : Type) (tables : strconv.PrintTables) (codec : transformer.JSON)
  (t : transformer.RedshiftTransformer St) (event : parser.MixpanelEvent)
  (s : St) :
  match (transformer.Consume codec t event s).1 with
  | transformer.Panics _ => stores_into_nil_map codec t event
  | transformer.Returns r =>
      (writer.Record_ r <> ∅ ->
       parser.Failure event = reporter.None /\
       (writer.Failure r = reporter.None \/
        writer.Failure r = reporter.SkippedColumn)) /\
      (writer.Line r <> EmptyString ->
       parser.Failure event = reporter.None /\
       (writer.Failure r = reporter.None \/
        writer.Failure r = reporter.SkippedColumn \/
        writer.Failure r = reporter.NonTrackingEvent)) /\
      (writer.Category r = parser.Event event \/
       (writer.Category r = "Unknown"%string /\
        parser.Failure event = reporter.None /\
        writer.Failure r = reporter.EmptyRequest /\
        exists e,
          result_error <$> returned (transformer.transform codec t event s).1
            = Some (Some e) /\
          (forall what, e <> ErrNotTracked what) /\
          (forall what, e <> ErrSkippedColumn what)))
  end.
Proof.
  pose proof (Consume_panics codec t event s) as Hp.
  unfold transformer.Consume in *.
  destruct (parser.Failure event) eqn:Hf;
    try (cbn; split; [congruence | split; [congruence | now left]]).
  unfold transformer.bind in *.
  destruct (transformer.transform codec t event s)
    as [[[[[line kv] err] res]|msg] s1].
  2: { cbn in *. apply Hp. eauto. }
  destruct err as [e|]; [|cbn; auto].
  destruct e;
    try (cbn; split; [congruence|]; split; [congruence|]; right;
         split; [reflexivity|]; split; [reflexivity|];
         split; [reflexivity|];
         eexists; split; [reflexivity|]; split; discriminate).
  - cbn. split; [congruence|]. split; [auto | now left].
  - cbn. split; [auto|]. split; [auto | now left].
Qed.

(** X25.  A column whose transformer is guarded by [safeColumnTransformer]
    for a number of arguments other than one plus the number of its
    supporting columns never reaches the transformer under the guard:
    [Format] answers with an empty value and [ErrColumnNotFound] or the
    guard's error, and the state is left as it was.  So a single-value
    transformer cannot have supporting columns, and the mapping
    transformer needs exactly one. *)
Theorem Format_argument_count (St : Type)
  (f : transformer.ColumnTransformer St) (nargs : nat)
  (r : transformer.RedshiftType St)
  (eventProperties : gmap string transformer.value) (s : St) :
  transformer.Transformer r = transformer.safeColumnTransformer f nargs ->
  nargs <> S (length (transformer.SupportingColumns r)) ->
  let '(k, v, err, s') := transformer.Format r eventProperties s in
  s' = s /\ v = EmptyString /\
  (err = Some ErrColumnNotFound \/ exists msg, err = Some (ErrorString msg)).
Proof.
  intros Ht Hn. unfold transformer.Format.
  assert (Hguard : forall args,
            length args = S (length (transformer.SupportingColumns r)) ->
            transformer.Transformer r args s
            = ((EmptyString,
                Some (ErrorString
                        ("Provide "
                         ++ strconv.FormatInt (Z.of_nat (length args))
                         ++ " arguments instead of the required amount of "
                         ++ strconv.FormatInt (Z.of_nat nargs)))), s)).
  { intros args Hlen. rewrite Ht. unfold transformer.safeColumnTransformer.
    destruct (Nat.eqb_spec (length args) nargs) as [Heq|Hne];
      [congruence | reflexivity]. }
  destruct (transformer.SupportingColumns r) as [|c cs] eqn:Hsup.
  - cbn [length Nat.eqb transformer.Format_args app].
    destruct (eventProperties !! transformer.InboundName r) as [p|].
    + unfold transformer.bind. rewrite Hguard by reflexivity.
      cbn. split; [reflexivity|]. split; [reflexivity|]. right. eauto.
    + cbn. split; [reflexivity|]. split; [reflexivity|]. now left.
  - cbn [length Nat.eqb]. rewrite Format_args_present. cbn [app].
    unfold transformer.bind. rewrite Hguard.
    + cbn. split; [reflexivity|]. split; [reflexivity|]. right. eauto.
    + cbn [length map]. now rewrite length_map.
Qed.

Lemma Format_argument_count_witness :
  let r :=
    {| transformer.Transformer :=
         transformer.genLoginToIDTransformer (sample.config sample.throttled);
       transformer.InboundName := "user_id";
       transformer.OutboundName := "user_id";
       transformer.SupportingColumns := [] |} in
  let '(k, v, err, s') :=
    transformer.Format r {[ "user_id"%string := transformer.VString "bob" ]}
      sample.empty_world in
  s' = sample.empty_world /\ v = EmptyString /\
  (err = Some ErrColumnNotFound \/ exists msg, err = Some (ErrorString msg)).
Proof.
  cbn zeta.
  eapply (Format_argument_count sample.World _ 2
            {| transformer.Transformer :=
                 transformer.genLoginToIDTransformer
                   (sample.config sample.throttled);
               transformer.InboundName := "user_id";
               transformer.OutboundName := "user_id";
               transformer.SupportingColumns := [] |}).
  - reflexivity.
  - cbn. lia.
Defined.

(** ** The integer formatter *)

Lemma ParseInt_range (s : string) (i : Z) :
  strconv.ParseInt s = inl i -> - 2 ^ 63 <= i <= 2 ^ 63 - 1.
Proof.
  unfold strconv.ParseInt. destruct s as [|c rest]; [discriminate|].
  destruct (if Ascii.eqb c "+" then (false, rest)
            else if Ascii.eqb c "-" then (true, rest)
            else (false, String c rest)) as [neg body].
  destruct (strconv.unsigned body) as [un|]; [|discriminate].
  destruct ((_ <? _) || (_ <? _)) eqn:E; [discriminate|].
  intros [= <-]. apply orb_false_iff in E as [E1 E2].
  apply Z.ltb_ge in E1, E2. lia.
Qed.

(** X26.  The range test of [intFormat(64)] never fires: a [bigint] column
    fails only where [safeParseInt] fails, with that error, and otherwise
    holds the decimal form of the integer parsed. *)
Theorem intFormat_64_range_test_is_dead (args : list transformer.value) :
  transformer.intFormat 64 args =
    match transformer.safeParseInt (transformer.arg0 args) with
    | inl i => (strconv.FormatInt i, None)
    | inr err => (EmptyString, Some err)
    end.
Proof.
  unfold transformer.intFormat.
  destruct (transformer.safeParseInt (transformer.arg0 args)) as [i|err] eqn:E;
    [|reflexivity].
  assert (Hr : - 2 ^ 63 <= i <= 2 ^ 63 - 1).
  { unfold transformer.safeParseInt in E.
    destruct (transformer.arg0 args); try discriminate;
      eapply ParseInt_range; eassumption. }
  change (64 - 1) with 63.
  destruct (Z.ltb_spec (2 ^ 63 - 1) i); [lia|].
  destruct (Z.ltb_spec i (- 2 ^ 63)); [lia|]. reflexivity.
Qed.
